(** * LiveAtlas: update classification and store reconciliation

    A shallow embedding of [buildUpdates] and the player part of [getUpdate]
    (the API module) and of the marker-set, tile, chat and player mutations
    of the store, followed by the properties of the update engine.

    Conventions of the embedding:
    - a value is a [jsval]: the JSON values, and the built-in methods that a
      property read can find on a prototype; numbers are the integers ([Z]),
      which is what timestamps, priorities and block coordinates are on the
      wire;
    - an ECMAScript [Map] is an insertion-ordered association list ([JsMap]),
      a [Set] of objects is the list of its members in insertion order;
    - a function that can raise returns a [Completion];
    - a mutation of the store returns an [Outcome]: the store it leaves, the
      lines it wrote with [console.warn] and the error it threw, if any. *)

From Stdlib Require Import ZArith List String Ascii Bool Lia DecimalString.
From Stdlib Require Import Sorting.Permutation Sorting.Sorted.
Import ListNotations.

Local Open Scope string_scope.
Local Open Scope Z_scope.

(** ** JavaScript values *)

#[warnings="-register-all"]
Inductive jsval : Type :=
| JUndef
| JNull
| JBool (b : bool)
| JNum (n : Z)
| JStr (s : string)
| JArr (items : list jsval)
| JObj (fields : list (string * jsval))
| JFunction (name : string).

Inductive Error : Type :=
| TypeError
| RangeError (message : string).

Inductive Completion (A : Type) : Type :=
| Return (a : A)
| Throw (e : Error).

Arguments Return {A} a.
Arguments Throw {A} e.

(** Strict equality on values, which is also the equality of [Map] keys.
    Arrays and objects are compared by content: the embedding does not track
    the identity of the objects of a parsed response. *)
Fixpoint jsval_eqb (a b : jsval) {struct a} : bool :=
  match a, b with
  | JUndef, JUndef => true
  | JNull, JNull => true
  | JBool x, JBool y => Bool.eqb x y
  | JNum x, JNum y => Z.eqb x y
  | JStr x, JStr y => String.eqb x y
  | JArr xs, JArr ys =>
      (fix items (xs ys : list jsval) {struct xs} : bool :=
         match xs, ys with
         | [], [] => true
         | x :: xs', y :: ys' => jsval_eqb x y && items xs' ys'
         | _, _ => false
         end) xs ys
  | JObj xs, JObj ys =>
      (fix fields (xs ys : list (string * jsval)) {struct xs} : bool :=
         match xs, ys with
         | [], [] => true
         | (k, x) :: xs', (l, y) :: ys' =>
             String.eqb k l && jsval_eqb x y && fields xs' ys'
         | _, _ => false
         end) xs ys
  | JFunction x, JFunction y => String.eqb x y
  | _, _ => false
  end.

(** [ToBoolean]. *)
Definition truthy (v : jsval) : bool :=
  match v with
  | JUndef | JNull => false
  | JBool b => b
  | JNum n => negb (n =? 0)
  | JStr s => negb (String.eqb s "")
  | JArr _ | JObj _ | JFunction _ => true
  end.

(** [a || b] *)
Definition js_or (a b : jsval) : jsval := if truthy a then a else b.

(** [typeof v !== 'undefined'] *)
Definition defined (v : jsval) : bool :=
  match v with JUndef => false | _ => true end.

(** [v === s] for a string literal [s]. *)
Definition is_str (v : jsval) (s : string) : bool :=
  match v with JStr t => String.eqb t s | _ => false end.

(** Reading a property throws on [undefined] and [null] only. *)
Definition nullish (v : jsval) : bool :=
  match v with JUndef | JNull => true | _ => false end.

Fixpoint lookup_field (name : string) (fields : list (string * jsval)) : jsval :=
  match fields with
  | [] => JUndef
  | (k, v) :: rest => if String.eqb k name then v else lookup_field name rest
  end.

(** [v.name] for a value that is not nullish and one of the property names
    that the code reads.  An object gives its own field.  Of those names the
    prototypes define [sort] of an array and [name] of a function; every
    other read gives [undefined]. *)
Definition prop (v : jsval) (name : string) : jsval :=
  match v with
  | JObj fields => lookup_field name fields
  | JArr _ => if String.eqb name "sort" then JFunction "sort" else JUndef
  | JFunction f => if String.eqb name "name" then JStr f else JUndef
  | _ => JUndef
  end.

(** *** Strings *)

Definition is_space (c : ascii) : bool :=
  let n := nat_of_ascii c in
  ((9 <=? n) && (n <=? 13))%nat || (n =? 32)%nat.

Fixpoint trim_left (s : string) : string :=
  match s with
  | String c rest => if is_space c then trim_left rest else s
  | EmptyString => EmptyString
  end.

Fixpoint string_rev_onto (s acc : string) : string :=
  match s with
  | EmptyString => acc
  | String c rest => string_rev_onto rest (String c acc)
  end.

Definition string_rev (s : string) : string := string_rev_onto s EmptyString.

Definition trim (s : string) : string :=
  string_rev (trim_left (string_rev (trim_left s))).

Definition digit_of (c : ascii) : option Z :=
  let n := nat_of_ascii c in
  if ((48 <=? n) && (n <=? 57))%nat then Some (Z.of_nat n - 48) else None.

Fixpoint digits_value (s : string) (acc : Z) : option Z :=
  match s with
  | EmptyString => Some acc
  | String c rest =>
      match digit_of c with
      | Some d => digits_value rest (10 * acc + d)
      | None => None
      end
  end.

(** [StringToNumber], on the integers: white space is trimmed, the empty
    string is 0, a signed run of decimal digits is its value and anything
    else is [NaN] ([None]).  Spellings whose value is not a decimal integer
    literal lie outside the number model. *)
Definition string_to_number (s : string) : option Z :=
  match trim s with
  | EmptyString => Some 0
  | String "-" (String c rest) => option_map Z.opp (digits_value (String c rest) 0)
  | String "+" (String c rest) => digits_value (String c rest) 0
  | String c rest =>
      match digit_of c with
      | Some _ => digits_value (String c rest) 0
      | None => None
      end
  end.

Definition number_to_string (n : Z) : string :=
  NilZero.string_of_int (Z.to_int n).

Fixpoint join (sep : string) (parts : list string) : string :=
  match parts with
  | [] => ""
  | [p] => p
  | p :: rest => p ++ sep ++ join sep rest
  end.

(** [ToString] of a value for which the conversion returns (see
    [convertible] below); array elements that are [undefined] or [null]
    print empty. *)
Fixpoint to_string (v : jsval) : string :=
  match v with
  | JUndef => "undefined"
  | JNull => "null"
  | JBool true => "true"
  | JBool false => "false"
  | JNum n => number_to_string n
  | JStr s => s
  | JArr items =>
      join "," (map (fun x => if nullish x then "" else to_string x) items)
  | JObj _ => "[object Object]"
  | JFunction name => "function " ++ name ++ "() { [native code] }"
  end.

(** [ToNumber] of a value for which the conversion returns (see
    [convertible] below); [None] is [NaN]. *)
Definition to_number (v : jsval) : option Z :=
  match v with
  | JUndef => None
  | JNull => Some 0
  | JBool b => Some (if b then 1 else 0)
  | JNum n => Some n
  | JStr s => string_to_number s
  | JArr _ => string_to_number (to_string v)
  | JObj _ | JFunction _ => None
  end.

(** [v < n] and [v > n] against a number [n]: a comparison with [NaN] is
    false. *)
Definition lt_number (v : jsval) (n : Z) : bool :=
  match to_number v with Some m => m <? n | None => false end.

Definition gt_number (v : jsval) (n : Z) : bool :=
  match to_number v with Some m => n <? m | None => false end.

(** [isNaN(v)] *)
Definition isNaN (v : jsval) : bool :=
  match to_number v with Some _ => false | None => true end.

(** [ToPrimitive] returns for the value.  An object is converted through
    its [valueOf] and [toString]: the inherited [valueOf] gives back the
    object and an own property that is not callable is passed over, so the
    conversion ends in the inherited [toString] unless the object has a
    [toString] of its own, for which it throws (a parsed response holds no
    function).  An array is converted through [join], which converts every
    item that is not [undefined] or [null]. *)
Fixpoint convertible (v : jsval) : bool :=
  match v with
  | JArr items => forallb convertible items
  | JObj fields => negb (existsb (fun field => String.eqb (fst field) "toString") fields)
  | _ => true
  end.

(** [v < n], [v > n], [isNaN(v)] and [String(v)] for a value [v] of a
    response, which may be any value: the conversion throws a [TypeError]
    where [ToPrimitive] does. *)
Definition lessThan (v : jsval) (n : Z) : Completion bool :=
  if convertible v then Return (lt_number v n) else Throw TypeError.

Definition greaterThan (v : jsval) (n : Z) : Completion bool :=
  if convertible v then Return (gt_number v n) else Throw TypeError.

Definition notANumber (v : jsval) : Completion bool :=
  if convertible v then Return (isNaN v) else Throw TypeError.

Definition toStringOf (v : jsval) : Completion string :=
  if convertible v then Return (to_string v) else Throw TypeError.

(** [s.startsWith(p)], [s.endsWith(p)] and [s.split(c)] for a one-character
    separator. *)
Definition startsWith (p s : string) : bool := String.prefix p s.

Definition endsWith (p s : string) : bool :=
  let n := String.length s in
  let m := String.length p in
  ((m <=? n)%nat && String.eqb (substring (n - m) m s) p)%bool.

Fixpoint js_split_from (c : ascii) (s : string) (cur : string) : list string :=
  match s with
  | EmptyString => [string_rev cur]
  | String d rest =>
      if Ascii.eqb d c then string_rev cur :: js_split_from c rest EmptyString
      else js_split_from c rest (String d cur)
  end.

Definition js_split (c : ascii) (s : string) : list string :=
  js_split_from c s EmptyString.

(** The receiver of a call [v.m(...)] of a string method: [undefined] and
    [null] have no properties and no other value but a string has the
    method, so the call throws for them. *)
Definition receiver (v : jsval) : Completion string :=
  match v with
  | JStr s => Return s
  | _ => Throw TypeError
  end.

Definition bind {A B : Type} (c : Completion A) (k : A -> Completion B) : Completion B :=
  match c with
  | Return a => k a
  | Throw e => Throw e
  end.

Notation "x <- c ;; k" := (bind c (fun x => k))
  (at level 61, c at next level, right associativity).

(** ** Insertion-ordered maps *)

Definition JsMap (V : Type) : Type := list (jsval * V).

Module JsMap.
Section Operations.
Context {V : Type}.

Fixpoint get (k : jsval) (m : JsMap V) : option V :=
  match m with
  | [] => None
  | (k', v) :: rest => if jsval_eqb k' k then Some v else get k rest
  end.

Definition has (k : jsval) (m : JsMap V) : bool :=
  match get k m with Some _ => true | None => false end.

(** [m.set(k, v)]: a present key keeps its place, a new one goes last. *)
Fixpoint set (k : jsval) (v : V) (m : JsMap V) : JsMap V :=
  match m with
  | [] => [(k, v)]
  | (k', v') :: rest =>
      if jsval_eqb k' k then (k', v) :: rest else (k', v') :: set k v rest
  end.

Fixpoint delete (k : jsval) (m : JsMap V) : JsMap V :=
  match m with
  | [] => []
  | (k', v') :: rest =>
      if jsval_eqb k' k then delete k rest else (k', v') :: delete k rest
  end.

Definition clear (m : JsMap V) : JsMap V := [].

Definition keys (m : JsMap V) : list jsval := map fst m.

Definition size (m : JsMap V) : nat := List.length m.
End Operations.
End JsMap.

(** ** Shared data types *)

(** The value of [state.updateTimestamp].  The store declares it a [Date]
    (always truthy, compared through its time value); the update fetch
    handles it as a number, for which 0 is falsy.  Both are covered. *)
Inductive UpdateTimestamp : Type :=
| AsNumber (n : Z)
| AsDate (ms : Z).

Definition timeValue (t : UpdateTimestamp) : Z :=
  match t with AsNumber n => n | AsDate ms => ms end.

Definition isSet (t : UpdateTimestamp) : bool :=
  match t with AsNumber n => negb (n =? 0) | AsDate _ => true end.

(** [DynmapUpdate]: [{id, removed, payload}]. *)
Module Update.
Record t : Type := make { id : jsval; removed : bool; payload : jsval }.
End Update.
Definition DynmapUpdate : Type := Update.t.

(** [DynmapMarkerSetUpdates]; an absent [removed] or [payload] reads as
    [undefined]. *)
Module SetUpdates.
Record t : Type := make {
  areaUpdates : list DynmapUpdate;
  markerUpdates : list DynmapUpdate;
  lineUpdates : list DynmapUpdate;
  circleUpdates : list DynmapUpdate;
  removed : jsval;
  payload : jsval
}.
End SetUpdates.
Definition DynmapMarkerSetUpdates : Type := SetUpdates.t.

Module TileUpdate.
Record t : Type := make { name : jsval; timestamp : jsval }.
End TileUpdate.
Definition DynmapTileUpdate : Type := TileUpdate.t.

(** [DynmapChat], by its [type] tag. *)
Inductive DynmapChat : Type :=
| chat (source playerAccount playerName message timestamp channel : jsval)
| playerjoin (playerAccount playerName timestamp : jsval)
| playerleave (playerAccount playerName timestamp : jsval).

Definition chatTimestamp (c : DynmapChat) : jsval :=
  match c with
  | chat _ _ _ _ ts _ => ts
  | playerjoin _ _ ts => ts
  | playerleave _ _ ts => ts
  end.

(** A coordinate of a player: a value as received, or a value to which
    [+ 0.5] was applied (not an integer, so kept symbolic). *)
Inductive Coord : Type :=
| Exactly (v : jsval)
| PlusHalf (v : jsval).

Module Location.
Record t : Type := make { x : Coord; y : Coord; z : Coord; world : jsval }.
End Location.

Module Player.
Record t : Type := make {
  account : jsval;
  health : jsval;
  armor : jsval;
  name : jsval;
  sort : jsval;
  hidden : jsval;
  location : Location.t
}.
End Player.
Definition DynmapPlayer : Type := Player.t.

Module MarkerSet.
Record t : Type := make {
  id : jsval;
  showLabels : jsval;
  minZoom : jsval;
  maxZoom : jsval;
  priority : jsval;
  label : jsval;
  hidden : jsval;
  markers : JsMap jsval;
  areas : JsMap jsval;
  circles : JsMap jsval;
  lines : JsMap jsval
}.
End MarkerSet.
Definition DynmapMarkerSet : Type := MarkerSet.t.

Module Updates.
Record t : Type := make {
  markerSets : JsMap DynmapMarkerSetUpdates;
  tiles : list DynmapTileUpdate;
  chat : list DynmapChat
}.
End Updates.
Definition DynmapUpdates : Type := Updates.t.

(** ** The API module: payload builders *)

(** [typeof v !== 'undefined' && v > -1 ? v : undefined] *)
Definition zoomBound (v : jsval) : Completion jsval :=
  if defined v then
    above <- greaterThan v (-1) ;;
    Return (if above then v else JUndef)
  else Return JUndef.

(** The two zoom bounds are the only fields of the payloads below whose
    evaluation can throw (besides the [dim] of a marker), so they are
    evaluated first, in their order. *)
Definition buildMarkerSet (id data : jsval) : Completion jsval :=
  minZoom <- zoomBound (prop data "minzoom") ;;
  maxZoom <- zoomBound (prop data "maxzoom") ;;
  Return (JObj [
    ("id", id);
    ("label", js_or (prop data "label") (JStr "Unnamed set"));
    ("hidden", js_or (prop data "hide") (JBool false));
    ("priority", js_or (prop data "layerprio") (JNum 0));
    ("showLabels", js_or (prop data "showlabels") JUndef);
    ("minZoom", minZoom);
    ("maxZoom", maxZoom)
  ]).

(** [marker.dim ? marker.dim.split('x') : [16, 16]] *)
Definition markerDimensions (dim : jsval) : Completion jsval :=
  if truthy dim
  then s <- receiver dim ;; Return (JArr (map JStr (js_split "x" s)))
  else Return (JArr [JNum 16; JNum 16]).

Definition buildMarker (marker : jsval) : Completion jsval :=
  dimensions <- markerDimensions (prop marker "dim") ;;
  minZoom <- zoomBound (prop marker "minzoom") ;;
  maxZoom <- zoomBound (prop marker "maxzoom") ;;
  Return (JObj [
    ("label", js_or (prop marker "label") (JStr ""));
    ("location", JObj [
      ("x", js_or (prop marker "x") (JNum 0));
      ("y", js_or (prop marker "y") (JNum 0));
      ("z", js_or (prop marker "z") (JNum 0))
    ]);
    ("dimensions", dimensions);
    ("icon", js_or (prop marker "icon") (JStr "default"));
    ("isHTML", js_or (prop marker "markup") (JBool false));
    ("minZoom", minZoom);
    ("maxZoom", maxZoom);
    ("popupContent", js_or (prop marker "desc") JUndef)
  ]).

Definition buildArea (area : jsval) : Completion jsval :=
  minZoom <- zoomBound (prop area "minzoom") ;;
  maxZoom <- zoomBound (prop area "maxzoom") ;;
  Return (JObj [
    ("style", JObj [
      ("color", js_or (prop area "color") (JStr "#ff0000"));
      ("opacity", js_or (prop area "opacity") (JNum 1));
      ("weight", js_or (prop area "weight") (JNum 1));
      ("fillColor", js_or (prop area "fillcolor") (JStr "#ff0000"));
      ("fillOpacity", js_or (prop area "fillopacity") (JNum 0))
    ]);
    ("label", js_or (prop area "label") (JStr ""));
    ("isHTML", js_or (prop area "markup") (JBool false));
    ("x", js_or (prop area "x") (JArr [JNum 0; JNum 0]));
    ("y", JArr [js_or (prop area "ybottom") (JNum 0); js_or (prop area "ytop") (JNum 0)]);
    ("z", js_or (prop area "z") (JArr [JNum 0; JNum 0]));
    ("minZoom", minZoom);
    ("maxZoom", maxZoom);
    ("popupContent", js_or (prop area "desc") JUndef)
  ]).

Definition buildLine (line : jsval) : Completion jsval :=
  minZoom <- zoomBound (prop line "minzoom") ;;
  maxZoom <- zoomBound (prop line "maxzoom") ;;
  Return (JObj [
    ("x", js_or (prop line "x") (JArr [JNum 0; JNum 0]));
    ("y", js_or (prop line "y") (JArr [JNum 0; JNum 0]));
    ("z", js_or (prop line "z") (JArr [JNum 0; JNum 0]));
    ("style", JObj [
      ("color", js_or (prop line "color") (JStr "#ff0000"));
      ("opacity", js_or (prop line "opacity") (JNum 1));
      ("weight", js_or (prop line "weight") (JNum 1))
    ]);
    ("label", js_or (prop line "label") (JStr ""));
    ("isHTML", js_or (prop line "markup") (JBool false));
    ("minZoom", minZoom);
    ("maxZoom", maxZoom);
    ("popupContent", js_or (prop line "desc") JUndef)
  ]).

Definition buildCircle (circle : jsval) : Completion jsval :=
  minZoom <- zoomBound (prop circle "minzoom") ;;
  maxZoom <- zoomBound (prop circle "maxzoom") ;;
  Return (JObj [
    ("location", JObj [
      ("x", js_or (prop circle "x") (JNum 0));
      ("y", js_or (prop circle "y") (JNum 0));
      ("z", js_or (prop circle "z") (JNum 0))
    ]);
    ("radius", JArr [js_or (prop circle "xr") (JNum 0); js_or (prop circle "zr") (JNum 0)]);
    ("style", JObj [
      ("fillColor", js_or (prop circle "fillcolor") (JStr "#ff0000"));
      ("fillOpacity", js_or (prop circle "fillopacity") (JNum 0));
      ("color", js_or (prop circle "color") (JStr "#ff0000"));
      ("opacity", js_or (prop circle "opacity") (JNum 1));
      ("weight", js_or (prop circle "weight") (JNum 1))
    ]);
    ("label", js_or (prop circle "label") (JStr ""));
    ("isHTML", js_or (prop circle "markup") (JBool false));
    ("minZoom", minZoom);
    ("maxZoom", maxZoom);
    ("popupContent", js_or (prop circle "desc") JUndef)
  ]).

(** ** The API module: [buildUpdates] *)

Module Reason.
Inductive t : Type :=
| stale | noSet | noId | unknownType | unknownCType | incomplete | notImplemented.
End Reason.
Definition DropReason : Type := Reason.t.

(** The [dropped] object. *)
Module Dropped.
Record t : Type := make {
  stale : nat;
  noSet : nat;
  noId : nat;
  unknownType : nat;
  unknownCType : nat;
  incomplete : nat;
  notImplemented : nat
}.

Definition zero : t := make 0 0 0 0 0 0 0.

Definition count (r : DropReason) (d : t) : nat :=
  match r with
  | Reason.stale => stale d
  | Reason.noSet => noSet d
  | Reason.noId => noId d
  | Reason.unknownType => unknownType d
  | Reason.unknownCType => unknownCType d
  | Reason.incomplete => incomplete d
  | Reason.notImplemented => notImplemented d
  end.

(** [dropped.r++] *)
Definition incr (r : DropReason) (d : t) : t :=
  match d with
  | make a b c e f g h =>
      match r with
      | Reason.stale => make (S a) b c e f g h
      | Reason.noSet => make a (S b) c e f g h
      | Reason.noId => make a b (S c) e f g h
      | Reason.unknownType => make a b c (S e) f g h
      | Reason.unknownCType => make a b c e (S f) g h
      | Reason.incomplete => make a b c e f (S g) h
      | Reason.notImplemented => make a b c e f g (S h)
      end
  end.

Definition total (d : t) : nat :=
  (stale d + noSet d + noId d + unknownType d + unknownCType d
   + incomplete d + notImplemented d)%nat.
End Dropped.

(** The local variables of [buildUpdates]: [updates], [dropped] and
    [accepted]. *)
Record Locals : Type := mkLocals {
  updates : DynmapUpdates;
  dropped : Dropped.t;
  accepted : nat
}.

Definition initialLocals : Locals :=
  mkLocals (Updates.make [] [] []) Dropped.zero 0.

(** [dropped.r++; continue] *)
Definition drop (r : DropReason) (l : Locals) : Locals :=
  mkLocals (updates l) (Dropped.incr r (dropped l)) (accepted l).

Definition emptySetUpdates : DynmapMarkerSetUpdates :=
  SetUpdates.make [] [] [] [] (JBool false) JUndef.

Definition withMarkerSets (ms : JsMap DynmapMarkerSetUpdates) (u : DynmapUpdates) : DynmapUpdates :=
  Updates.make ms (Updates.tiles u) (Updates.chat u).

Definition pushTile (t : DynmapTileUpdate) (u : DynmapUpdates) : DynmapUpdates :=
  Updates.make (Updates.markerSets u) (Updates.tiles u ++ [t]) (Updates.chat u).

Definition pushChat (c : DynmapChat) (u : DynmapUpdates) : DynmapUpdates :=
  Updates.make (Updates.markerSets u) (Updates.tiles u) (Updates.chat u ++ [c]).

(** The chain of [if (entry.msg.startsWith(...))] that files one component
    update in the bucket of its set. *)
Definition fileUpdate (set entry : jsval) (msg : string) (removed : bool)
    (b : DynmapMarkerSetUpdates) : Completion DynmapMarkerSetUpdates :=
  let '(SetUpdates.make areaU markerU lineU circleU bRemoved bPayload) := b in
  let id := prop entry "id" in
  if startsWith "set" msg then
    payload <- (if removed then Return JUndef else buildMarkerSet set entry) ;;
    Return (SetUpdates.make areaU markerU lineU circleU (JBool removed) payload)
  else if startsWith "marker" msg then
    payload <- (if removed then Return JUndef else buildMarker entry) ;;
    Return (SetUpdates.make areaU (markerU ++ [Update.make id removed payload])
              lineU circleU bRemoved bPayload)
  else if startsWith "area" msg then
    payload <- (if removed then Return JUndef else buildArea entry) ;;
    Return (SetUpdates.make (areaU ++ [Update.make id removed payload]) markerU
              lineU circleU bRemoved bPayload)
  else if startsWith "circle" msg then
    payload <- (if removed then Return JUndef else buildCircle entry) ;;
    Return (SetUpdates.make areaU markerU lineU
              (circleU ++ [Update.make id removed payload]) bRemoved bPayload)
  else if startsWith "line" msg then
    payload <- (if removed then Return JUndef else buildLine entry) ;;
    Return (SetUpdates.make areaU markerU
              (lineU ++ [Update.make id removed payload]) circleU bRemoved bPayload)
  else Return b.

(** [lastUpdate && v < lastUpdate]: the comparison is made, and converts
    [v], only under a watermark that is truthy. *)
Definition olderThanSet (lastUpdate : UpdateTimestamp) (v : jsval) : Completion bool :=
  if isSet lastUpdate then lessThan v (timeValue lastUpdate) else Return false.

(** [case 'component'] *)
Definition classifyComponent (lastUpdate : UpdateTimestamp) (l : Locals)
    (entry : jsval) : Completion Locals :=
  stale <- olderThanSet lastUpdate (prop entry "timestamp") ;;
  if stale then Return (drop Reason.stale l)
  else if negb (truthy (prop entry "id")) then Return (drop Reason.noId l)
  else
    msg <- receiver (prop entry "msg") ;;
    let set := if startsWith "set" msg then prop entry "id" else prop entry "set" in
    if negb (truthy set) then Return (drop Reason.noSet l)
    else if negb (is_str (prop entry "ctype") "markers")
    then Return (drop Reason.unknownCType l)
    else
      let markerSets :=
        if JsMap.has set (Updates.markerSets (updates l))
        then Updates.markerSets (updates l)
        else JsMap.set set emptySetUpdates (Updates.markerSets (updates l)) in
      match JsMap.get set markerSets with
      | None => Throw TypeError
      | Some markerSetUpdates =>
          b <- fileUpdate set entry msg (endsWith "deleted" msg) markerSetUpdates ;;
          Return (mkLocals (withMarkerSets (JsMap.set set b markerSets) (updates l))
                    (dropped l) (S (accepted l)))
      end.

(** [case 'chat'] *)
Definition classifyChat (lastUpdate : UpdateTimestamp) (l : Locals)
    (entry : jsval) : Completion Locals :=
  if negb (truthy (prop entry "message")) || negb (truthy (prop entry "timestamp"))
  then Return (drop Reason.incomplete l)
  else
    stale <- lessThan (prop entry "timestamp") (timeValue lastUpdate) ;;
    if stale then Return (drop Reason.stale l)
    else if negb (is_str (prop entry "source") "player")
            && negb (is_str (prop entry "source") "web")
    then Return (drop Reason.notImplemented l)
    else
      Return (mkLocals
        (pushChat (chat (js_or (prop entry "source") JUndef)
                        (js_or (prop entry "account") JUndef)
                        (js_or (prop entry "playerName") JUndef)
                        (js_or (prop entry "message") (JStr ""))
                        (prop entry "timestamp")
                        (js_or (prop entry "channel") JUndef))
                  (updates l))
        (dropped l) (accepted l)).

(** [case 'playerjoin'] and [case 'playerquit'], which differ in the tag of
    the event they push. *)
Definition classifyPresence (tag : jsval -> jsval -> jsval -> DynmapChat)
    (lastUpdate : UpdateTimestamp) (l : Locals) (entry : jsval) : Completion Locals :=
  if negb (truthy (prop entry "account")) || negb (truthy (prop entry "timestamp"))
  then Return (drop Reason.incomplete l)
  else
    stale <- lessThan (prop entry "timestamp") (timeValue lastUpdate) ;;
    if stale then Return (drop Reason.stale l)
    else
      Return (mkLocals
        (pushChat (tag (prop entry "account")
                       (js_or (prop entry "playerName") (JStr ""))
                       (js_or (prop entry "timestamp") JUndef))
                  (updates l))
        (dropped l) (accepted l)).

(** [case 'tile'] *)
Definition classifyTile (lastUpdate : UpdateTimestamp) (l : Locals)
    (entry : jsval) : Completion Locals :=
  if negb (truthy (prop entry "name")) || negb (truthy (prop entry "timestamp"))
  then Return (drop Reason.incomplete l)
  else
    stale <- olderThanSet lastUpdate (prop entry "timestamp") ;;
    if stale then Return (drop Reason.stale l)
    else
      Return (mkLocals
        (pushTile (TileUpdate.make (prop entry "name") (prop entry "timestamp"))
           (updates l))
        (dropped l) (S (accepted l))).

(** The body of [for (const entry of data)]: the [switch] on [entry.type].
    Reading [entry.type] is the one property access that can find [entry]
    itself nullish. *)
Definition classifyEntry (lastUpdate : UpdateTimestamp) (l : Locals)
    (entry : jsval) : Completion Locals :=
  if nullish entry then Throw TypeError
  else
    let type := prop entry "type" in
    if is_str type "component" then classifyComponent lastUpdate l entry
    else if is_str type "chat" then classifyChat lastUpdate l entry
    else if is_str type "playerjoin" then classifyPresence playerjoin lastUpdate l entry
    else if is_str type "playerquit" then classifyPresence playerleave lastUpdate l entry
    else if is_str type "tile" then classifyTile lastUpdate l entry
    else Return (drop Reason.unknownType l).

Fixpoint classify (lastUpdate : UpdateTimestamp) (l : Locals) (data : list jsval)
    : Completion Locals :=
  match data with
  | [] => Return l
  | entry :: rest =>
      l' <- classifyEntry lastUpdate l entry ;;
      classify lastUpdate l' rest
  end.

(** [Array.prototype.sort(comparefn)]: a stable sort (ECMAScript 2019); a
    comparator result that is [NaN] counts as 0.  The language fixes the
    result for a consistent comparator only, as the one sorted list that
    keeps equal items in their order, and leaves the algorithm open; this is
    the insertion sort, which computes that list. *)
Section Sort.
Context {A : Type} (comparefn : A -> A -> option Z).

Definition before (a b : A) : bool :=
  match comparefn a b with Some v => v <=? 0 | None => true end.

Fixpoint insert (a : A) (sorted : list A) : list A :=
  match sorted with
  | [] => [a]
  | b :: rest => if before a b then a :: b :: rest else b :: insert a rest
  end.

Fixpoint sortWith (l : list A) : list A :=
  match l with
  | [] => []
  | a :: rest => insert a (sortWith rest)
  end.
End Sort.

(** [(one, two) => two.timestamp - one.timestamp].  The events of the list
    were compared with the watermark when they were accepted, so their
    timestamps convert and the subtraction does not throw. *)
Definition newestFirst (one two : DynmapChat) : option Z :=
  match to_number (chatTimestamp two), to_number (chatTimestamp one) with
  | Some b, Some a => Some (b - a)
  | _, _ => None
  end.

(** What [buildUpdates] hands back: the returned [updates], and the
    [accepted] count and [dropped] object it prints with [console.debug]. *)
Definition buildUpdates (lastUpdate : UpdateTimestamp) (data : list jsval)
    : Completion Locals :=
  l <- classify lastUpdate initialLocals data ;;
  Return (mkLocals
            (Updates.make (Updates.markerSets (updates l)) (Updates.tiles (updates l))
               (sortWith newestFirst (Updates.chat (updates l))))
            (dropped l) (accepted l)).

(** ** The API module: the response handler of [getUpdate] *)

(** The receiver of [v.forEach(...)]: only an array has the method. *)
Definition arrayItems (v : jsval) : Completion (list jsval) :=
  match v with
  | JArr items => Return items
  | _ => Throw TypeError
  end.

Fixpoint characters (s : string) : list jsval :=
  match s with
  | EmptyString => []
  | String c rest => JStr (String c EmptyString) :: characters rest
  end.

(** What [for (const entry of v)] runs over: the items of an array or the
    characters of a string; no other value is iterable. *)
Definition iterate (v : jsval) : Completion (list jsval) :=
  match v with
  | JArr items => Return items
  | JStr s => Return (characters s)
  | _ => Throw TypeError
  end.

(** The callback of [(response.players || []).forEach]. *)
Definition responsePlayer (player : jsval) : Completion DynmapPlayer :=
  if nullish player then Throw TypeError
  else
    let world :=
      if truthy (prop player "world")
         && negb (is_str (prop player "world") "-some-other-bogus-world-")
      then prop player "world" else JUndef in
    xNaN <- notANumber (prop player "x") ;;
    yNaN <- notANumber (prop player "y") ;;
    zNaN <- notANumber (prop player "z") ;;
    Return (Player.make
      (js_or (prop player "account") (JStr ""))
      (js_or (prop player "health") (JNum 0))
      (js_or (prop player "armor") (JNum 0))
      (js_or (prop player "name") (JStr ""))
      (js_or (prop player "sort") (JNum 0))
      (JBool (negb (truthy world)))
      (Location.make
         (if negb xNaN then PlusHalf (prop player "x") else Exactly (JNum 0))
         (if negb yNaN then Exactly (prop player "y") else Exactly (JNum 0))
         (if negb zNaN then PlusHalf (prop player "z") else Exactly (JNum 0))
         world)).

Fixpoint responsePlayers (items : list jsval) : Completion (list DynmapPlayer) :=
  match items with
  | [] => Return []
  | player :: rest =>
      p <- responsePlayer player ;;
      ps <- responsePlayers rest ;;
      Return (p :: ps)
  end.

(** [DynmapUpdateResponse], with [worldState] flattened and the player set
    as the list of its members. *)
Module Response.
Record t : Type := make {
  timeOfDay : jsval;
  thundering : jsval;
  raining : jsval;
  playerCount : jsval;
  configHash : jsval;
  timestamp : jsval;
  players : list DynmapPlayer;
  updates : DynmapUpdates
}.
End Response.
Definition DynmapUpdateResponse : Type := Response.t.

(** The extra players of the loop [for (let i = 0; i < 150; i++)].
    [random n k] is the value of [Math.round(Math.random() * k)] at the
    [n]-th call of [Math.random]; each player makes four calls.  The object
    has no [hidden] key, which reads as [undefined]. *)
Section FakePlayers.
Variable random : nat -> Z -> Z.

Definition fakePlayer (i : nat) : DynmapPlayer :=
  Player.make
    (JStr ("VIDEO GAMES " ++ number_to_string (Z.of_nat i)))
    (JNum (random (4 * i) 10))
    (JNum (random (4 * i + 1) 10))
    (JStr ("VIDEO GAMES " ++ number_to_string (Z.of_nat i)))
    (JNum 0)
    JUndef
    (Location.make
       (Exactly (JNum (random (4 * i + 2) 1000 - 500)))
       (Exactly (JNum 64))
       (Exactly (JNum (random (4 * i + 3) 1000 - 500)))
       (JStr "world")).

Fixpoint fakePlayersFrom (i count : nat) : list DynmapPlayer :=
  match count with
  | O => []
  | S count' => fakePlayer i :: fakePlayersFrom (S i) count'
  end.

(** The second [then] of [getUpdate], given the parsed [response] and the
    [updateTimestamp] that [buildUpdates] reads from the store. *)
Definition getUpdate (lastUpdate : UpdateTimestamp) (response : jsval)
    : Completion DynmapUpdateResponse :=
  if nullish response then Throw TypeError
  else
    items <- arrayItems (js_or (prop response "players") (JArr [])) ;;
    reported <- responsePlayers items ;;
    let players := (reported ++ fakePlayersFrom 0 150)%list in
    data <- iterate (js_or (prop response "updates") (JArr [])) ;;
    l <- buildUpdates lastUpdate data ;;
    Return (Response.make
      (js_or (prop response "servertime") (JNum 0))
      (js_or (prop response "isThundering") (JBool false))
      (js_or (prop response "hasStorm") (JBool false))
      (js_or (prop response "count") (JNum 0))
      (js_or (prop response "configHash") (JNum 0))
      (js_or (prop response "timestamp") (JNum 0))
      players
      (updates l)).
End FakePlayers.

Arguments fakePlayersFrom random i count : simpl never.

(** ** The store *)

(** The part of [State] that the update engine reads and writes.  World and
    map objects are only ever looked up and compared by identity, so they
    are their references. *)
Definition Ref : Type := nat.

Record State : Type := mkState {
  worlds : JsMap Ref;
  maps : JsMap Ref;
  players : JsMap DynmapPlayer;
  markerSets : JsMap DynmapMarkerSet;
  chatMessages : list DynmapChat;
  pendingSetUpdates : JsMap DynmapMarkerSetUpdates;
  pendingTileUpdates : list DynmapTileUpdate;
  currentWorld : option Ref;
  currentMap : option Ref;
  updateTimestamp : UpdateTimestamp
}.

(** What a mutation leaves behind: the store as it stands when the mutation
    ends, the lines it wrote with [console.warn], and the error it threw,
    if any. *)
Record Outcome : Type := mkOutcome {
  after : State;
  warnings : list string;
  thrown : option Error
}.

Definition done (st : State) : Outcome := mkOutcome st [] None.
Definition warn (line : string) (st : State) : Outcome := mkOutcome st [line] None.
Definition throw (e : Error) (st : State) : Outcome := mkOutcome st [] (Some e).

(** Sequencing of a loop body over the rest of the loop. *)
Definition andThen (o : Outcome) (k : State -> Outcome) : Outcome :=
  match thrown o with
  | Some _ => o
  | None =>
      let o' := k (after o) in
      mkOutcome (after o') (warnings o ++ warnings o') (thrown o')
  end.

Fixpoint forOf {A : Type} (body : State -> A -> Outcome) (st : State) (l : list A)
    : Outcome :=
  match l with
  | [] => done st
  | a :: rest => andThen (body st a) (fun st' => forOf body st' rest)
  end.

Definition withMarkerSetsAndPending (ms : JsMap DynmapMarkerSet)
    (pending : JsMap DynmapMarkerSetUpdates) (st : State) : State :=
  mkState (worlds st) (maps st) (players st) ms (chatMessages st) pending
    (pendingTileUpdates st) (currentWorld st) (currentMap st) (updateTimestamp st).

Definition withPlayers (ps : JsMap DynmapPlayer) (st : State) : State :=
  mkState (worlds st) (maps st) ps (markerSets st) (chatMessages st)
    (pendingSetUpdates st) (pendingTileUpdates st) (currentWorld st)
    (currentMap st) (updateTimestamp st).

(** The object literal [{markerUpdates: [], areaUpdates: [], circleUpdates:
    [], lineUpdates: []}]. *)
Definition emptyPending : DynmapMarkerSetUpdates :=
  SetUpdates.make [] [] [] [] JUndef JUndef.

(** [SET_MARKER_SETS] *)
Definition SET_MARKER_SETS (st : State) (sets : JsMap DynmapMarkerSet) : State :=
  withMarkerSetsAndPending sets
    (fold_left (fun pending entry => JsMap.set (fst entry) emptyPending pending)
       sets (JsMap.clear (pendingSetUpdates st)))
    st.

(** The marker set made from a set-level payload, with empty entity maps. *)
Definition newMarkerSet (id payload : jsval) : DynmapMarkerSet :=
  MarkerSet.make id
    (prop payload "showLabels") (prop payload "minZoom") (prop payload "maxZoom")
    (prop payload "priority") (prop payload "label") (prop payload "hidden")
    [] [] [] [].

(** The six assignments [set.showLabels = entry[1].payload.showLabels; ...] *)
Definition overwriteSet (payload : jsval) (set : DynmapMarkerSet) : DynmapMarkerSet :=
  MarkerSet.make (MarkerSet.id set)
    (prop payload "showLabels") (prop payload "minZoom") (prop payload "maxZoom")
    (prop payload "priority") (prop payload "label") (prop payload "hidden")
    (MarkerSet.markers set) (MarkerSet.areas set) (MarkerSet.circles set)
    (MarkerSet.lines set).

(** One of the four loops [for (const update of entry[1].markerUpdates)]. *)
Definition applyUpdate (entities : JsMap jsval) (update : DynmapUpdate) : JsMap jsval :=
  if Update.removed update
  then JsMap.delete (Update.id update) entities
  else JsMap.set (Update.id update) (Update.payload update) entities.

Definition applyUpdates (updates : list DynmapUpdate) (entities : JsMap jsval)
    : JsMap jsval :=
  fold_left applyUpdate updates entities.

Definition applyEntityUpdates (u : DynmapMarkerSetUpdates) (set : DynmapMarkerSet)
    : DynmapMarkerSet :=
  MarkerSet.make (MarkerSet.id set) (MarkerSet.showLabels set) (MarkerSet.minZoom set)
    (MarkerSet.maxZoom set) (MarkerSet.priority set) (MarkerSet.label set)
    (MarkerSet.hidden set)
    (applyUpdates (SetUpdates.markerUpdates u) (MarkerSet.markers set))
    (applyUpdates (SetUpdates.areaUpdates u) (MarkerSet.areas set))
    (applyUpdates (SetUpdates.circleUpdates u) (MarkerSet.circles set))
    (applyUpdates (SetUpdates.lineUpdates u) (MarkerSet.lines set)).

(** The four [concat]s onto the pending lists of a set. *)
Definition enqueue (u pending : DynmapMarkerSetUpdates) : DynmapMarkerSetUpdates :=
  SetUpdates.make
    (SetUpdates.areaUpdates pending ++ SetUpdates.areaUpdates u)
    (SetUpdates.markerUpdates pending ++ SetUpdates.markerUpdates u)
    (SetUpdates.lineUpdates pending ++ SetUpdates.lineUpdates u)
    (SetUpdates.circleUpdates pending ++ SetUpdates.circleUpdates u)
    (SetUpdates.removed pending) (SetUpdates.payload pending).

(** The body of the loop of [ADD_MARKER_SET_UPDATES] from
    [const set = state.markerSets.get(entry[0])] on, for a set that
    exists. *)
Definition updateExistingSet (st : State) (key : jsval) (u : DynmapMarkerSetUpdates)
    (set : DynmapMarkerSet) : Outcome :=
  let setUpdates := JsMap.get key (pendingSetUpdates st) in
  if truthy (SetUpdates.removed u) then
    done (withMarkerSetsAndPending (JsMap.delete key (markerSets st))
            (JsMap.delete key (pendingSetUpdates st)) st)
  else
    let set1 := if truthy (SetUpdates.payload u)
                then overwriteSet (SetUpdates.payload u) set else set in
    let set2 := applyEntityUpdates u set1 in
    let sets := JsMap.set key set2 (markerSets st) in
    match setUpdates with
    | None => throw TypeError (withMarkerSetsAndPending sets (pendingSetUpdates st) st)
    | Some pending =>
        done (withMarkerSetsAndPending sets
                (JsMap.set key (enqueue u pending) (pendingSetUpdates st)) st)
    end.

(** The body of [for (const entry of updates)].  The keys of [updates] are
    declared [string], so the template of the warning prints the key
    itself. *)
Definition addMarkerSetUpdate (st : State) (entry : jsval * DynmapMarkerSetUpdates)
    : Outcome :=
  let key := fst entry in
  let u := snd entry in
  match JsMap.get key (markerSets st) with
  | Some set => updateExistingSet st key u set
  | None =>
      if truthy (SetUpdates.payload u) then
        let set := newMarkerSet key (SetUpdates.payload u) in
        let st' := withMarkerSetsAndPending
                     (JsMap.set key set (markerSets st))
                     (JsMap.set key emptyPending (pendingSetUpdates st)) st in
        updateExistingSet st' key u set
      else
        warn ("ADD_MARKER_SET_UPDATES: Marker set " ++ to_string key ++ " doesn't exist") st
  end.

(** [ADD_MARKER_SET_UPDATES] *)
Definition ADD_MARKER_SET_UPDATES (st : State) (updates : JsMap DynmapMarkerSetUpdates)
    : Outcome :=
  forOf addMarkerSetUpdate st updates.

(** [ADD_TILE_UPDATES] *)
Definition ADD_TILE_UPDATES (st : State) (updates : list DynmapTileUpdate) : State :=
  mkState (worlds st) (maps st) (players st) (markerSets st) (chatMessages st)
    (pendingSetUpdates st) (pendingTileUpdates st ++ updates) (currentWorld st)
    (currentMap st) (updateTimestamp st).

(** [ADD_CHAT]: [state.chat.messages.unshift(...chat)] *)
Definition ADD_CHAT (st : State) (chat : list DynmapChat) : State :=
  mkState (worlds st) (maps st) (players st) (markerSets st) (chat ++ chatMessages st)
    (pendingSetUpdates st) (pendingTileUpdates st) (currentWorld st)
    (currentMap st) (updateTimestamp st).

(** [list.splice(0, amount)]: the list without its first [amount] items. *)
Definition splice0 {A : Type} (amount : Z) (l : list A) : list A :=
  skipn (Z.to_nat amount) l.

Inductive Category : Type := Markers | Areas | Circles | Lines.

Definition categoryName (c : Category) : string :=
  match c with
  | Markers => "MARKER" | Areas => "AREA" | Circles => "CIRCLE" | Lines => "LINE"
  end.

Definition popFrom (c : Category) (amount : Z) (p : DynmapMarkerSetUpdates)
    : DynmapMarkerSetUpdates :=
  let '(SetUpdates.make areaU markerU lineU circleU r pl) := p in
  match c with
  | Markers => SetUpdates.make areaU (splice0 amount markerU) lineU circleU r pl
  | Areas => SetUpdates.make (splice0 amount areaU) markerU lineU circleU r pl
  | Circles => SetUpdates.make areaU markerU lineU (splice0 amount circleU) r pl
  | Lines => SetUpdates.make areaU markerU (splice0 amount lineU) circleU r pl
  end.

(** [POP_MARKER_UPDATES], [POP_AREA_UPDATES], [POP_CIRCLE_UPDATES] and
    [POP_LINE_UPDATES], which differ in the list they splice and in the name
    they print.  Their payload is declared
    [{markerSet: string, amount: number}]. *)
Definition POP_UPDATES (c : Category) (st : State) (markerSet : jsval) (amount : Z)
    : Outcome :=
  if negb (JsMap.has markerSet (markerSets st)) then
    warn ("POP_" ++ categoryName c ++ "_UPDATES: Marker set " ++ to_string markerSet
          ++ " doesn't exist") st
  else
    match JsMap.get markerSet (pendingSetUpdates st) with
    | None => throw TypeError st
    | Some pending =>
        done (withMarkerSetsAndPending (markerSets st)
                (JsMap.set markerSet (popFrom c amount pending) (pendingSetUpdates st))
                st)
    end.

Definition POP_MARKER_UPDATES := POP_UPDATES Markers.
Definition POP_AREA_UPDATES := POP_UPDATES Areas.
Definition POP_CIRCLE_UPDATES := POP_UPDATES Circles.
Definition POP_LINE_UPDATES := POP_UPDATES Lines.

(** [POP_TILE_UPDATES] *)
Definition POP_TILE_UPDATES (st : State) (amount : Z) : State :=
  mkState (worlds st) (maps st) (players st) (markerSets st) (chatMessages st)
    (pendingSetUpdates st) (splice0 amount (pendingTileUpdates st)) (currentWorld st)
    (currentMap st) (updateTimestamp st).

(** [Object.assign(target, source)] on two locations: every location the
    code builds has the keys [x], [y], [z] and [world], and each is copied.
    Locations are held by value.  The assignment writes into the location
    object of the entry that is updated; [getUpdate] gives every snapshot a
    location object of its own and the registry is filled from snapshots
    only, so no other entry and no other snapshot shares that object. *)
Definition assignLocation (target source : Location.t) : Location.t :=
  Location.make (Location.x source) (Location.y source) (Location.z source)
    (Location.world source).

(** The body of the loop of [SET_PLAYERS_ASYNC] up to
    [players.delete(player)].  An entry that exists keeps its [account]. *)
Definition setPlayer (registry : JsMap DynmapPlayer) (player : DynmapPlayer)
    : JsMap DynmapPlayer :=
  match JsMap.get (Player.account player) registry with
  | Some existing =>
      JsMap.set (Player.account player)
        (Player.make (Player.account existing) (Player.health player)
           (Player.armor player) (Player.name player) (Player.sort player)
           (Player.hidden player)
           (assignLocation (Player.location existing) (Player.location player)))
        registry
  | None =>
      JsMap.set (Player.account player)
        (Player.make (Player.account player) (Player.health player)
           (Player.armor player) (Player.name player) (Player.sort player)
           (Player.hidden player) (Player.location player))
        registry
  end.

(** The loop of [SET_PLAYERS_ASYNC]: [count] is the local counter, and the
    second component what is left of the [players] set. *)
Fixpoint setPlayersLoop (count : nat) (registry : JsMap DynmapPlayer)
    (players : list DynmapPlayer) : JsMap DynmapPlayer * list DynmapPlayer :=
  match players with
  | [] => (registry, [])
  | player :: rest =>
      let registry' := setPlayer registry player in
      if (10 <=? S count)%nat then (registry', rest)
      else setPlayersLoop (S count) registry' rest
  end.

(** [SET_PLAYERS_ASYNC]: the store and the returned set. *)
Definition SET_PLAYERS_ASYNC (st : State) (incoming : list DynmapPlayer)
    : State * list DynmapPlayer :=
  let (registry, rest) := setPlayersLoop 0 (players st) incoming in
  (withPlayers registry st, rest).

(** [SYNC_PLAYERS] *)
Definition SYNC_PLAYERS (st : State) (keep : list jsval) : State :=
  withPlayers
    (fold_left
       (fun registry entry =>
          if negb (existsb (jsval_eqb (Player.account (snd entry))) keep)
          then JsMap.delete (fst entry) registry else registry)
       (players st) (players st))
    st.

(** [SET_CURRENT_MAP]; its payload is declared
    [{worldName: string; mapName: string}], so the [join] and the templates
    of the errors print the names themselves. *)
Definition SET_CURRENT_MAP (st : State) (worldName mapName : jsval) : Outcome :=
  let mapName' :=
    JStr (join "_" (map (fun v => if nullish v then "" else to_string v)
                      [worldName; mapName])) in
  match JsMap.get worldName (worlds st) with
  | None => throw (RangeError ("Unknown world " ++ to_string worldName)) st
  | Some newWorld =>
      if negb (JsMap.has mapName' (maps st))
      then throw (RangeError ("Unknown map " ++ to_string mapName')) st
      else
        let changed :=
          match currentWorld st with
          | Some w => negb (Nat.eqb w newWorld)
          | None => true
          end in
        if changed then
          done (mkState (worlds st) (maps st) (players st)
                  (JsMap.clear (markerSets st)) (chatMessages st)
                  (JsMap.clear (pendingSetUpdates st)) [] (Some newWorld)
                  (JsMap.get mapName' (maps st)) (updateTimestamp st))
        else
          done (mkState (worlds st) (maps st) (players st) (markerSets st)
                  (chatMessages st) (pendingSetUpdates st) (pendingTileUpdates st)
                  (currentWorld st) (JsMap.get mapName' (maps st))
                  (updateTimestamp st))
  end.

(** The list is that of a [Map]: each key is listed once. *)
Fixpoint distinctKeys (ks : list jsval) : bool :=
  match ks with
  | [] => true
  | k :: rest => negb (existsb (jsval_eqb k) rest) && distinctKeys rest
  end.

Definition wellFormed {V : Type} (m : JsMap V) : Prop :=
  distinctKeys (JsMap.keys m) = true.

(** ** Statements about conversions *)

(** The string holds the character [c]. *)
Fixpoint mentions (c : ascii) (s : string) : bool :=
  match s with
  | EmptyString => false
  | String d rest => Ascii.eqb d c || mentions c rest
  end.

(** ** Statements about the classifier *)

(** [l'] is [l] after one record was rejected for the reason [r]: the delta
    buckets, the tile list and the chat list are as they were, nothing was
    accepted, and [r] is the one counter that moved, by one. *)
Definition rejectedOnceAs (r : DropReason) (l l' : Locals) : Prop :=
  updates l' = updates l /\
  accepted l' = accepted l /\
  Dropped.count r (dropped l') = S (Dropped.count r (dropped l)) /\
  forall r', r' <> r -> Dropped.count r' (dropped l') = Dropped.count r' (dropped l).

(** The timestamp of the record has a numeric value and that value is
    strictly below a watermark that is set. *)
Definition belowWatermark (lastUpdate : UpdateTimestamp) (entry : jsval) : Prop :=
  isSet lastUpdate = true /\
  exists t, to_number (prop entry "timestamp") = Some t /\ t < timeValue lastUpdate.

(** The record has one of the type tags the classifier knows. *)
Definition knownType (entry : jsval) : Prop :=
  In (prop entry "type")
     [JStr "component"; JStr "chat"; JStr "playerjoin"; JStr "playerquit"; JStr "tile"].

(** The record is rejected as stale, whatever was classified before it. *)
Definition droppedAsStale (lastUpdate : UpdateTimestamp) (entry : jsval) : Prop :=
  forall l, exists l',
    classifyEntry lastUpdate l entry = Return l' /\ rejectedOnceAs Reason.stale l l'.

(** The fields whose absence makes a record incomplete: none for a
    component, and for the others a timestamp together with the message, the
    account or the name. *)
Definition requiredPresent (entry : jsval) : bool :=
  let type := prop entry "type" in
  if is_str type "component" then true
  else if is_str type "chat"
  then truthy (prop entry "message") && truthy (prop entry "timestamp")
  else if is_str type "playerjoin" || is_str type "playerquit"
  then truthy (prop entry "account") && truthy (prop entry "timestamp")
  else if is_str type "tile"
  then truthy (prop entry "name") && truthy (prop entry "timestamp")
  else false.

(** The reason under which a record below the watermark is counted. *)
Definition reasonBelowWatermark (entry : jsval) : DropReason :=
  let type := prop entry "type" in
  if is_str type "component" || is_str type "chat" || is_str type "playerjoin"
     || is_str type "playerquit" || is_str type "tile"
  then if requiredPresent entry then Reason.stale else Reason.incomplete
  else Reason.unknownType.

(** [{type: 'component', id: 'm1'}]: a component without [msg]. *)
Definition componentWithoutMsg : jsval :=
  JObj [("type", JStr "component"); ("id", JStr "m1")].

(** [{type: 'chat', timestamp: 40}]: a chat line without [message]. *)
Definition chatWithoutMessage : jsval :=
  JObj [("type", JStr "chat"); ("timestamp", JNum 40)].

(** The [dim] of the record is a string if it is truthy. *)
Definition dimIsString (entry : jsval) : Prop :=
  truthy (prop entry "dim") = false \/ exists dim, prop entry "dim" = JStr dim.

(** The zoom bounds of the record are values that convert. *)
Definition zoomsConvert (entry : jsval) : Prop :=
  convertible (prop entry "minzoom") = true /\
  convertible (prop entry "maxzoom") = true.

(** The record is not [null] or [undefined], its timestamp is a value that
    converts and, if it is a component, its [msg] is a string, so is its
    [dim] if it has one, and its zoom bounds convert: the fields on which
    the classifier calls a string method or makes a comparison. *)
Definition stringFields (entry : jsval) : Prop :=
  nullish entry = false /\
  convertible (prop entry "timestamp") = true /\
  (is_str (prop entry "type") "component" = true ->
   (exists msg, prop entry "msg" = JStr msg) /\ dimIsString entry /\
   zoomsConvert entry).

(** The chat events that one record contributes: what [classifyEntry] adds
    to an empty chat list. *)
Definition chatOf (lastUpdate : UpdateTimestamp) (entry : jsval) : list DynmapChat :=
  match classifyEntry lastUpdate initialLocals entry with
  | Return l => Updates.chat (updates l)
  | Throw _ => []
  end.

(** The accepted chat events of a batch, in arrival order. *)
Definition arrivedChat (lastUpdate : UpdateTimestamp) (data : list jsval)
    : list DynmapChat :=
  flat_map (chatOf lastUpdate) data.

(** The chat list in the words of the specification, written without the
    classifier.  A [chat] record gives a chat event if it has message text
    and a timestamp, is not older than the watermark and comes from a player
    or the web; a [playerjoin] or [playerquit] record gives a join or leave
    event if it has an account and a timestamp and is not older than the
    watermark, whatever its source; no other record gives an event.  The
    events carry the account, name and channel of the record where it has
    them. *)
Definition hasField (entry : jsval) (name : string) : bool :=
  truthy (prop entry name).

Definition optionalField (entry : jsval) (name : string) : jsval :=
  if hasField entry name then prop entry name else JUndef.

Definition nameField (entry : jsval) : jsval :=
  if hasField entry "playerName" then prop entry "playerName" else JStr "".

Definition olderThanWatermark (lastUpdate : UpdateTimestamp) (entry : jsval) : bool :=
  match to_number (prop entry "timestamp") with
  | Some t => t <? timeValue lastUpdate
  | None => false
  end.

Definition fromPlayerOrWeb (entry : jsval) : bool :=
  match prop entry "source" with
  | JStr source => String.eqb source "player" || String.eqb source "web"
  | _ => false
  end.

Definition specifiedEvent (lastUpdate : UpdateTimestamp) (entry : jsval)
    : option DynmapChat :=
  match prop entry "type" with
  | JStr type =>
      if String.eqb type "chat" then
        if hasField entry "message" && hasField entry "timestamp"
           && negb (olderThanWatermark lastUpdate entry) && fromPlayerOrWeb entry
        then Some (chat (prop entry "source") (optionalField entry "account")
                        (optionalField entry "playerName") (prop entry "message")
                        (prop entry "timestamp") (optionalField entry "channel"))
        else None
      else if String.eqb type "playerjoin" || String.eqb type "playerquit" then
        if hasField entry "account" && hasField entry "timestamp"
           && negb (olderThanWatermark lastUpdate entry)
        then Some ((if String.eqb type "playerjoin" then playerjoin else playerleave)
                     (prop entry "account") (nameField entry) (prop entry "timestamp"))
        else None
      else None
  | _ => None
  end.

(** The events specified for a batch, in the order of their records. *)
Definition specifiedEvents (lastUpdate : UpdateTimestamp) (data : list jsval)
    : list DynmapChat :=
  flat_map (fun entry => match specifiedEvent lastUpdate entry with
                         | Some event => [event]
                         | None => []
                         end) data.

(** The timestamp of the event has a numeric value. *)
Definition numericTimestamp (c : DynmapChat) : Prop :=
  exists t, to_number (chatTimestamp c) = Some t.

(** The numeric value of the timestamp of an event. *)
Definition timeOf (c : DynmapChat) : Z :=
  match to_number (chatTimestamp c) with Some t => t | None => 0 end.

(** [a] may stand before [b] in a list that is newest first. *)
Definition notOlder (a b : DynmapChat) : Prop := timeOf b <= timeOf a.

(** The events of a list that carry the timestamp [t], in their order. *)
Definition at_time (t : Z) (l : list DynmapChat) : list DynmapChat :=
  filter (fun c => timeOf c =? t) l.

(** ** Statements about the store *)

(** A pending queue exists for exactly the marker sets that exist. *)
Definition inSync (st : State) : Prop :=
  forall k, JsMap.has k (pendingSetUpdates st) = JsMap.has k (markerSets st).

(** The store before the first fetch, with [lastUpdate] as its update
    timestamp. *)
Definition freshState (lastUpdate : UpdateTimestamp) : State :=
  mkState [] [] [] [] [] [] [] None None lastUpdate.

(** [{type: 'component', msg: 'setupdated', id: 's1'}] *)
Definition setUpdatedS1 : jsval :=
  JObj [("type", JStr "component"); ("msg", JStr "setupdated"); ("id", JStr "s1")].

(** [{type: 'component', msg: 'setupdated', id: 's1', ctype: 'markers'}] *)
Definition setUpdatedS1Markers : jsval :=
  JObj [("type", JStr "component"); ("msg", JStr "setupdated"); ("id", JStr "s1");
        ("ctype", JStr "markers")].

(** The record is classified, and committing its buckets writes an anomaly
    to the console and leaves the store without the set [id]. *)
Definition droppedWithAnomaly (st : State) (entry id : jsval) : Prop :=
  exists l,
    buildUpdates (updateTimestamp st) [entry] = Return l /\
    warnings (ADD_MARKER_SET_UPDATES st (Updates.markerSets (updates l))) <> [] /\
    JsMap.has id
      (markerSets (after (ADD_MARKER_SET_UPDATES st (Updates.markerSets (updates l)))))
    = false.

(** ** Statements about the player registry *)

(** The registry entry [e] carries the fields of the snapshot [p]; its
    account is the key under which it is filed. *)
Definition carries (e p : DynmapPlayer) : Prop :=
  Player.health e = Player.health p /\
  Player.armor e = Player.armor p /\
  Player.name e = Player.name p /\
  Player.sort e = Player.sort p /\
  Player.hidden e = Player.hidden p /\
  Player.location e = Player.location p.

(** The account of a registry entry is in the keep-set. *)
Definition kept (keep : list jsval) (entry : jsval * DynmapPlayer) : bool :=
  existsb (jsval_eqb (Player.account (snd entry))) keep.

(** The key is that of an entry of [entries] whose account is not kept. *)
Definition doomed (keep : list jsval) (entries : JsMap DynmapPlayer) (k : jsval) : bool :=
  existsb (fun entry => jsval_eqb (fst entry) k && negb (kept keep entry)) entries.

(** Twenty-five snapshots with the accounts [p0] to [p24]. *)
Definition snapshot (i : nat) : DynmapPlayer :=
  Player.make (JStr ("p" ++ number_to_string (Z.of_nat i)))
    (JNum 20) (JNum (Z.of_nat i)) (JStr "player") (JNum 0) (JBool false)
    (Location.make (Exactly (JNum (Z.of_nat i))) (Exactly (JNum 64))
       (Exactly (JNum 0)) (JStr "world")).

Definition twentyFive : list DynmapPlayer := map snapshot (seq 0 25).

(** ** Statements about [getUpdate] *)

(** The players that the response reports: the items of
    [response.players || []]. *)
Definition reportedPlayers (response : jsval) : list jsval :=
  match js_or (prop response "players") (JArr []) with
  | JArr items => items
  | _ => []
  end.

(** ** Sample inputs *)

(** [{type: 'tile', name: 'flat', timestamp: 40}] *)
Definition tileAt40 : jsval :=
  JObj [("type", JStr "tile"); ("name", JStr "flat"); ("timestamp", JNum 40)].

(** [{type: 'tile', name: 't', timestamp: {toString: 1}}]: a timestamp that
    no comparison can convert. *)
Definition tileUnconvertible : jsval :=
  JObj [("type", JStr "tile"); ("name", JStr "t");
        ("timestamp", JObj [("toString", JNum 1)])].

(** Three chat lines with the timestamps 100, ['abc'] and 200. *)
Definition unnumberedChatBatch : list jsval := [
  JObj [("type", JStr "chat"); ("message", JStr "first"); ("timestamp", JNum 100);
        ("source", JStr "player")];
  JObj [("type", JStr "chat"); ("message", JStr "second"); ("timestamp", JStr "abc");
        ("source", JStr "player")];
  JObj [("type", JStr "chat"); ("message", JStr "third"); ("timestamp", JNum 200);
        ("source", JStr "player")]
].

(** Two chat lines and a join at the time 100 and a quit at 200. *)
Definition chatBatch : list jsval := [
  JObj [("type", JStr "chat"); ("message", JStr "first"); ("timestamp", JNum 100);
        ("source", JStr "player")];
  JObj [("type", JStr "playerquit"); ("account", JStr "alex"); ("timestamp", JNum 200)];
  JObj [("type", JStr "playerjoin"); ("account", JStr "steve"); ("timestamp", JNum 100)];
  JObj [("type", JStr "chat"); ("message", JStr "second"); ("timestamp", JNum 100);
        ("source", JStr "web")]
].

Definition chatBatchResult : Locals :=
  Eval vm_compute in
    match buildUpdates (AsNumber 50) chatBatch with
    | Return l => l
    | Throw _ => initialLocals
    end.

(** A store with the one marker set [s1], which holds the marker [m1], and
    its pending queue. *)
Definition storeWithS1 : State :=
  mkState [] [] []
    [(JStr "s1",
      MarkerSet.make (JStr "s1") JUndef JUndef JUndef (JNum 0) (JStr "Set") (JBool false)
        [(JStr "m1", JObj [("label", JStr "spawn")])] [] [] [])]
    []
    [(JStr "s1", emptyPending)]
    [] None None (AsNumber 50).

(** The bucket of [{type: 'component', msg: 'setdeleted', id: 's1',
    ctype: 'markers'}]. *)
Definition removedS1 : DynmapMarkerSetUpdates :=
  SetUpdates.make [] [] [] [] (JBool true) JUndef.

(** A store with the players [p0] and [p1]. *)
Definition storeWithTwoPlayers : State :=
  mkState [] [] [(JStr "p0", snapshot 0); (JStr "p1", snapshot 1)]
    [] [] [] [] None None (AsNumber 50).

(** An update response that reports one player. *)
Definition sampleResponse : jsval :=
  JObj [
    ("timestamp", JNum 100);
    ("players", JArr [
       JObj [("account", JStr "steve"); ("name", JStr "Steve"); ("world", JStr "world");
             ("x", JNum 1); ("y", JNum 64); ("z", JNum 2); ("health", JNum 20)]])
  ].

Definition sampleRandom (n : nat) (k : Z) : Z := 5.

Definition sampleUpdate : DynmapUpdateResponse :=
  Eval vm_compute in
    match getUpdate sampleRandom (AsNumber 50) sampleResponse with
    | Return r => r
    | Throw _ => Response.make JUndef JUndef JUndef JUndef JUndef JUndef []
                   (Updates.make [] [] [])
    end.

(** * Further parts of the API module and of the store *)

(** The configuration builders and the response handlers of
    [getConfiguration] and [getMarkerSets] (the API module), and the
    mutations of the store that switch the elements of the interface.

    Further conventions:
    - [Infinity] is not an integer and has a constructor of its own
      ([Bound]);
    - [for (key in v)] runs over the own keys of [v] in the order of the
      language: array indices ascending, then the other keys in the order
      of the object ([forInEntries]);
    - the API module is strict code: an assignment to a property of a
      primitive throws. *)

(** ** The API module: configuration builders *)

(** [buildServerConfig] *)
Definition buildServerConfig (response : jsval) : Completion jsval :=
  if nullish response then Throw TypeError
  else Return (JObj [
    ("version", js_or (prop response "dynmapversion") (JStr ""));
    ("grayHiddenPlayers", js_or (prop response "grayplayerswhenhidden") (JBool false));
    ("defaultMap", js_or (prop response "defaultmap") JUndef);
    ("defaultWorld", js_or (prop response "defaultworld") JUndef);
    ("defaultZoom", js_or (prop response "defaultzoom") (JNum 0));
    ("followMap", js_or (prop response "followmap") JUndef);
    ("followZoom", js_or (prop response "followzoom") (JNum 0));
    ("updateInterval", js_or (prop response "updaterate") (JNum 3000));
    ("showLayerControl", js_or (prop response "showlayercontrol") (JBool true));
    ("title", js_or (prop response "title") (JStr "Dynmap"));
    ("loginEnabled", js_or (prop response "login-enabled") (JBool false));
    ("maxPlayers", js_or (prop response "maxcount") (JNum 0));
    ("hash", js_or (prop response "confighash") (JNum 0))
  ]).

(** A number, or [Infinity], which the integers do not hold. *)
Inductive Bound : Type :=
| Finite (v : jsval)
| Infinity.

(** [v || Infinity] *)
Definition orInfinity (v : jsval) : Bound :=
  if truthy v then Finite v else Infinity.

(** [DynmapComponentConfig]; an optional component that is not configured
    is [None].  [markers] is always [{showLabels: false}]. *)
Module Components.
Record t : Type := make {
  chatBox : option (jsval * jsval * Bound * Bound);
  chatBalloons : bool;
  playerMarkers : option jsval;
  coordinatesControl : option jsval;
  linkControl : bool;
  clockControl : option jsval;
  logoControls : list jsval;
  chatSending : option jsval
}.
End Components.
Definition DynmapComponentConfig : Type := Components.t.

Definition noComponents : DynmapComponentConfig :=
  Components.make None false None None false None [] None.

(** [s.replace(c, '')] for a one-character pattern: the string without the
    first [c]. *)
Fixpoint removeFirst (c : ascii) (s : string) : string :=
  match s with
  | EmptyString => EmptyString
  | String d rest => if Ascii.eqb d c then rest else String d (removeFirst c rest)
  end.

(** The object pushed by [case "logo"]. *)
Definition logoControl (component : jsval) : Completion jsval :=
  position <- receiver (prop component "position") ;;
  Return (JObj [
    ("text", js_or (prop component "text") (JStr ""));
    ("url", js_or (prop component "linkurl") JUndef);
    ("position", js_or (JStr (removeFirst "-" position)) (JStr "topleft"));
    ("image", js_or (prop component "logourl") JUndef)
  ]).

(** The callback of [(response.components || []).forEach]: the [switch] on
    [component.type || "unknown"]. *)
Definition buildComponent (response : jsval) (components : DynmapComponentConfig)
    (component : jsval) : Completion DynmapComponentConfig :=
  if nullish component then Throw TypeError
  else
    let '(Components.make chatBox chatBalloons playerMarkers coordinatesControl
            linkControl clockControl logoControls chatSending) := components in
    let type := js_or (prop component "type") (JStr "unknown") in
    if is_str type "playermarkers" then
      Return (Components.make chatBox chatBalloons
        (Some (JObj [
           ("hideByDefault", js_or (prop component "hidebydefault") (JBool false));
           ("layerName", js_or (prop component "label") (JStr "Players"));
           ("layerPriority", js_or (prop component "layerprio") (JNum 0));
           ("showBodies", js_or (prop component "showplayerbody") (JBool false));
           ("showSkinFaces", js_or (prop component "showplayerfaces") (JBool false));
           ("showHealth", js_or (prop component "showplayerhealth") (JBool false));
           ("smallFaces", js_or (prop component "smallplayerfaces") (JBool false))]))
        coordinatesControl linkControl clockControl logoControls chatSending)
    else if is_str type "coord" then
      Return (Components.make chatBox chatBalloons playerMarkers
        (Some (JObj [
           ("showY", JBool (negb (truthy (js_or (prop component "hidey") (JBool false)))));
           ("label", js_or (prop component "label") (JStr "Location: "));
           ("showRegion", js_or (prop component "show-mcr") (JBool false));
           ("showChunk", js_or (prop component "show-chunk") (JBool false))]))
        linkControl clockControl logoControls chatSending)
    else if is_str type "link" then
      Return (Components.make chatBox chatBalloons playerMarkers coordinatesControl
        true clockControl logoControls chatSending)
    else if is_str type "digitalclock" then
      Return (Components.make chatBox chatBalloons playerMarkers coordinatesControl
        linkControl
        (Some (JObj [("showDigitalClock", JBool true); ("showWeather", JBool false);
                     ("showTimeOfDay", JBool false)]))
        logoControls chatSending)
    else if is_str type "timeofdayclock" then
      Return (Components.make chatBox chatBalloons playerMarkers coordinatesControl
        linkControl
        (Some (JObj [
           ("showTimeOfDay", JBool true);
           ("showDigitalClock", js_or (prop component "showdigitalclock") (JBool false));
           ("showWeather", js_or (prop component "showweather") (JBool false))]))
        logoControls chatSending)
    else if is_str type "logo" then
      logo <- logoControl component ;;
      Return (Components.make chatBox chatBalloons playerMarkers coordinatesControl
        linkControl clockControl (logoControls ++ [logo]) chatSending)
    else if is_str type "chat" then
      if truthy (prop response "allowwebchat") then
        Return (Components.make chatBox chatBalloons playerMarkers coordinatesControl
          linkControl clockControl logoControls
          (Some (JObj [
             ("loginRequired", js_or (prop response "webchat-requires-login") (JBool false));
             ("maxLength", js_or (prop response "chatlengthlimit") (JNum 256));
             ("cooldown", js_or (prop response "webchat-interval") (JNum 5))])))
      else Return components
    else if is_str type "chatbox" then
      Return (Components.make
        (Some (js_or (prop component "allowurlname") (JBool false),
               js_or (prop component "showplayerfaces") (JBool false),
               orInfinity (prop component "messagettl"),
               orInfinity (prop component "scrollback")))
        chatBalloons playerMarkers coordinatesControl linkControl clockControl
        logoControls chatSending)
    else if is_str type "chatballoon" then
      Return (Components.make chatBox true playerMarkers coordinatesControl
        linkControl clockControl logoControls chatSending)
    else Return components.

Fixpoint buildComponentsFrom (response : jsval) (components : DynmapComponentConfig)
    (items : list jsval) : Completion DynmapComponentConfig :=
  match items with
  | [] => Return components
  | component :: rest =>
      components' <- buildComponent response components component ;;
      buildComponentsFrom response components' rest
  end.

(** [buildComponents] *)
Definition buildComponents (response : jsval) : Completion DynmapComponentConfig :=
  if nullish response then Throw TypeError
  else
    items <- arrayItems (js_or (prop response "components") (JArr [])) ;;
    buildComponentsFrom response noComponents items.

(** [DynmapWorld]; [center] and the maps are the objects the code builds. *)
Module World.
Record t : Type := make {
  seaLevel : jsval;
  name : jsval;
  protected : jsval;
  title : jsval;
  height : jsval;
  center : jsval;
  maps : JsMap jsval
}.
End World.
Definition DynmapWorld : Type := World.t.

(** The object that [maps.set(map.name, ...)] files for one map of
    [world]. *)
Definition buildWorldMap (world map : jsval) : jsval :=
  JObj [
    ("world", world);
    ("background", js_or (prop map "background") (JStr "#000000"));
    ("backgroundDay", js_or (prop map "backgroundday") (JStr "#000000"));
    ("backgroundNight", js_or (prop map "backgroundnight") (JStr "#000000"));
    ("compassView", js_or (prop map "compassview") (JStr "S"));
    ("icon", js_or (prop map "icon") JUndef);
    ("imageFormat", js_or (prop map "image-format") (JStr "png"));
    ("name", js_or (prop map "name") (JStr "(Unnamed map)"));
    ("nightAndDay", js_or (prop map "nightandday") (JBool false));
    ("prefix", js_or (prop map "prefix") (JStr ""));
    ("protected", js_or (prop map "protected") (JBool false));
    ("title", js_or (prop map "title") (JStr ""));
    ("type", js_or (prop map "type") (JStr "HDMapType"));
    ("mapToWorld", js_or (prop map "maptoworld")
       (JArr [JNum 0; JNum 0; JNum 0; JNum 0; JNum 0; JNum 0; JNum 0; JNum 0; JNum 0]));
    ("worldToMap", js_or (prop map "worldtomap")
       (JArr [JNum 0; JNum 0; JNum 0; JNum 0; JNum 0; JNum 0; JNum 0; JNum 0; JNum 0]));
    ("nativeZoomLevels", js_or (prop map "mapzoomout") (JNum 1));
    ("extraZoomLevels", js_or (prop map "mapzoomin") (JNum 0))
  ].

(** The inner loop [(world.maps || []).forEach]. *)
Fixpoint buildWorldMaps (world : jsval) (maps : JsMap jsval) (items : list jsval)
    : Completion (JsMap jsval) :=
  match items with
  | [] => Return maps
  | map :: rest =>
      if nullish map then Throw TypeError
      else buildWorldMaps world
             (JsMap.set (prop map "name") (buildWorldMap world map) maps) rest
  end.

(** The callback of [(response.worlds || []).forEach]. *)
Definition buildWorld (world : jsval) : Completion DynmapWorld :=
  if nullish world then Throw TypeError
  else
    items <- arrayItems (js_or (prop world "maps") (JArr [])) ;;
    maps <- buildWorldMaps world [] items ;;
    if nullish (prop world "center") then Throw TypeError
    else
      Return (World.make
        (js_or (prop world "sealevel") (JNum 64))
        (js_or (prop world "name") (JStr "(Unnamed world)"))
        (js_or (prop world "protected") (JBool false))
        (js_or (prop world "title") (JStr ""))
        (js_or (prop world "height") (JNum 256))
        (JObj [("x", js_or (prop (prop world "center") "x") (JNum 0));
               ("y", js_or (prop (prop world "center") "y") (JNum 0));
               ("z", js_or (prop (prop world "center") "z") (JNum 0))])
        maps).

Fixpoint buildWorldsFrom (items : list jsval) : Completion (list DynmapWorld) :=
  match items with
  | [] => Return []
  | world :: rest =>
      w <- buildWorld world ;;
      ws <- buildWorldsFrom rest ;;
      Return (w :: ws)
  end.

(** [buildWorlds] *)
Definition buildWorlds (response : jsval) : Completion (list DynmapWorld) :=
  if nullish response then Throw TypeError
  else
    items <- arrayItems (js_or (prop response "worlds") (JArr [])) ;;
    buildWorldsFrom items.


(** [buildMessagesConfig] *)
Definition buildMessagesConfig (response : jsval) : Completion jsval :=
  if nullish response then Throw TypeError
  else Return (JObj [
    ("chatNotAllowed", js_or (prop response "msg-chatnotallowed") (JStr ""));
    ("chatRequiresLogin", js_or (prop response "msg-chatrequireslogin") (JStr ""));
    ("chatCooldown", js_or (prop response "spammessage") (JStr ""));
    ("mapTypes", js_or (prop response "msg-maptypes") (JStr ""));
    ("players", js_or (prop response "msg-players") (JStr ""));
    ("playerJoin", js_or (prop response "joinmessage") (JStr ""));
    ("playerQuit", js_or (prop response "quitmessage") (JStr ""));
    ("anonymousJoin", js_or (prop response "msg-hiddennamejoin") (JStr ""));
    ("anonymousQuit", js_or (prop response "msg-hiddennamequit") (JStr ""))
  ]).

(** [DynmapConfigurationResponse] *)
Module Configuration.
Record t : Type := make {
  config : jsval;
  messages : jsval;
  worlds : list DynmapWorld;
  components : DynmapComponentConfig
}.
End Configuration.
Definition DynmapConfigurationResponse : Type := Configuration.t.

(** How the response handler of [getConfiguration] ends: with its result,
    with [throw new Error(message)], or with an error of the language. *)
Inductive Handled (A : Type) : Type :=
| Resolved (a : A)
| Rejected (message : string)
| Crashed (e : Error).

Arguments Resolved {A} a.
Arguments Rejected {A} message.
Arguments Crashed {A} e.

(** The second [then] of [getConfiguration]. *)
Definition getConfiguration (response : jsval) : Handled DynmapConfigurationResponse :=
  if nullish response then Crashed TypeError
  else if is_str (prop response "error") "login-required" then Rejected "Login required"
  else if truthy (prop response "error") then
    match toStringOf (prop response "error") with
    | Return message => Rejected message
    | Throw e => Crashed e
    end
  else
    match buildServerConfig response with
    | Throw e => Crashed e
    | Return config =>
        match buildMessagesConfig response with
        | Throw e => Crashed e
        | Return messages =>
            match buildWorlds response with
            | Throw e => Crashed e
            | Return worlds =>
                match buildComponents response with
                | Throw e => Crashed e
                | Return components =>
                    Resolved (Configuration.make config messages worlds components)
                end
            end
        end
    end.

(** ** The API module: the response handler of [getMarkerSets] *)

(** The array index that a property key spells: the canonical decimal
    spelling of an integer from 0 to 2^32 - 2. *)
Definition arrayIndex (key : string) : option Z :=
  match digits_value key 0 with
  | Some n =>
      if String.eqb (number_to_string n) key && (n <? 4294967295) then Some n else None
  | None => None
  end.

Definition isIndex (field : string * jsval) : bool :=
  match arrayIndex (fst field) with Some _ => true | None => false end.

Definition indexOf (field : string * jsval) : Z :=
  match arrayIndex (fst field) with Some n => n | None => 0 end.

(** The properties of an object, each key once with the value that a read
    of the key gives. *)
Fixpoint ownFields (fields : list (string * jsval)) : list (string * jsval) :=
  match fields with
  | [] => []
  | (k, v) :: rest =>
      (k, v) :: filter (fun field => negb (String.eqb (fst field) k)) (ownFields rest)
  end.

Fixpoint indexed (i : nat) (items : list jsval) : list (string * jsval) :=
  match items with
  | [] => []
  | item :: rest => (number_to_string (Z.of_nat i), item) :: indexed (S i) rest
  end.

(** What [for (const key in data)] runs over, after the [hasOwnProperty]
    guard, as pairs of [key] and [data[key]]: the properties of an object,
    array indices first in ascending order and then the other keys in the
    order of the object; the indices of an array or of a string; nothing for
    any other value. *)
Definition forInEntries (data : jsval) : list (string * jsval) :=
  match data with
  | JObj fields =>
      let own := ownFields fields in
      (sortWith (fun a b => Some (indexOf a - indexOf b)) (filter isIndex own)
       ++ filter (fun field => negb (isIndex field)) own)%list
  | JArr items => indexed 0 items
  | JStr s => indexed 0 (characters s)
  | _ => []
  end.

(** The loop [for (const key in data) { entities.set(key, build(data[key])) }]
    of the four builders below; [build] reads a property of its argument
    first, so it throws for [null]. *)
Fixpoint buildEntities (build : jsval -> Completion jsval)
    (entries : list (string * jsval)) (entities : JsMap jsval)
    : Completion (JsMap jsval) :=
  match entries with
  | [] => Return entities
  | (key, value) :: rest =>
      if nullish value then Throw TypeError
      else
        built <- build value ;;
        buildEntities build rest (JsMap.set (JStr key) built entities)
  end.

(** [buildMarkers], [buildAreas], [buildLines] and [buildCircles] *)
Definition buildMarkers (data : jsval) : Completion (JsMap jsval) :=
  buildEntities buildMarker (forInEntries data) [].

Definition buildAreas (data : jsval) : Completion (JsMap jsval) :=
  buildEntities buildArea (forInEntries data) [].

Definition buildLines (data : jsval) : Completion (JsMap jsval) :=
  buildEntities buildLine (forInEntries data) [].

Definition buildCircles (data : jsval) : Completion (JsMap jsval) :=
  buildEntities buildCircle (forInEntries data) [].

(** The object [{...buildMarkerSet(key, set), markers, circles, areas,
    lines}] that the loop of [getMarkerSets] files under [key]. *)
Definition responseMarkerSet (key : string) (set : jsval) : Completion DynmapMarkerSet :=
  if nullish set then Throw TypeError
  else
    markers <- buildMarkers (js_or (prop set "markers") (JObj [])) ;;
    circles <- buildCircles (js_or (prop set "circles") (JObj [])) ;;
    areas <- buildAreas (js_or (prop set "areas") (JObj [])) ;;
    lines <- buildLines (js_or (prop set "lines") (JObj [])) ;;
    base <- buildMarkerSet (JStr key) set ;;
    Return (MarkerSet.make (prop base "id") (prop base "showLabels")
              (prop base "minZoom") (prop base "maxZoom") (prop base "priority")
              (prop base "label") (prop base "hidden") markers areas circles lines).

Fixpoint responseMarkerSets (entries : list (string * jsval))
    (sets : JsMap DynmapMarkerSet) : Completion (JsMap DynmapMarkerSet) :=
  match entries with
  | [] => Return sets
  | (key, value) :: rest =>
      set <- responseMarkerSet key value ;;
      responseMarkerSets rest (JsMap.set (JStr key) set sets)
  end.

(** The second [then] of [getMarkerSets].  The module is strict code, so the
    assignment [response.sets = ...] throws for a response that is not an
    object. *)
Definition getMarkerSets (response : jsval) : Completion (JsMap DynmapMarkerSet) :=
  match response with
  | JObj _ | JArr _ | JFunction _ =>
      responseMarkerSets (forInEntries (js_or (prop response "sets") (JObj []))) []
  | _ => Throw TypeError
  end.

(** ** The store: what is shown on a small screen *)

(** An ECMAScript [Set], in insertion order. *)
Module JsSet.
Definition has (v : jsval) (s : list jsval) : bool := existsb (jsval_eqb v) s.

Definition add (v : jsval) (s : list jsval) : list jsval :=
  if has v s then s else (s ++ [v])%list.

Definition delete (v : jsval) (s : list jsval) : list jsval :=
  filter (fun w => negb (jsval_eqb v w)) s.

Definition size (s : list jsval) : Z := Z.of_nat (List.length s).
End JsSet.

(** [state.ui] *)
Module Ui.
Record t : Type := make {
  smallScreen : jsval;
  visibleElements : list jsval
}.
End Ui.

(** [state.ui] of the initial state. *)
Definition initialUi : Ui.t := Ui.make (JBool false) [].

(** [SET_SMALL_SCREEN] *)
Definition SET_SMALL_SCREEN (ui : Ui.t) (smallScreen : jsval) : Ui.t :=
  Ui.make smallScreen
    (if negb (truthy (Ui.smallScreen ui)) && truthy smallScreen
        && (1 <? JsSet.size (Ui.visibleElements ui))
     then [] else Ui.visibleElements ui).

(** [TOGGLE_UI_ELEMENT_VISIBILITY] *)
Definition TOGGLE_UI_ELEMENT_VISIBILITY (ui : Ui.t) (element : jsval) : Ui.t :=
  let newState := negb (JsSet.has element (Ui.visibleElements ui)) in
  let visible :=
    if newState && truthy (Ui.smallScreen ui) then [] else Ui.visibleElements ui in
  Ui.make (Ui.smallScreen ui)
    (if newState then JsSet.add element visible else JsSet.delete element visible).

(** [SET_UI_ELEMENT_VISIBILITY]; [shown] is [payload.state]. *)
Definition SET_UI_ELEMENT_VISIBILITY (ui : Ui.t) (element shown : jsval) : Ui.t :=
  let visible :=
    if truthy shown && truthy (Ui.smallScreen ui) then [] else Ui.visibleElements ui in
  Ui.make (Ui.smallScreen ui)
    (if truthy shown then JsSet.add element visible else JsSet.delete element visible).


(** ** Statements about the reconciliation of marker sets *)

(** The last update of [us] for the entity [id], if there is one. *)
Definition lastUpdateFor (id : jsval) (us : list DynmapUpdate) : option DynmapUpdate :=
  find (fun u => jsval_eqb (Update.id u) id) (rev us).

(** What the updates [us] leave of the entity [id] in a map that held
    [before] for it. *)
Definition settled (before : option jsval) (id : jsval) (us : list DynmapUpdate)
    : option jsval :=
  match lastUpdateFor id us with
  | None => before
  | Some u => if Update.removed u then None else Some (Update.payload u)
  end.

(** The list of a bucket or of a pending queue, and the map of a marker
    set, for one category of entity. *)
Definition queue (c : Category) (p : DynmapMarkerSetUpdates) : list DynmapUpdate :=
  match c with
  | Markers => SetUpdates.markerUpdates p
  | Areas => SetUpdates.areaUpdates p
  | Circles => SetUpdates.circleUpdates p
  | Lines => SetUpdates.lineUpdates p
  end.

Definition entities (c : Category) (set : DynmapMarkerSet) : JsMap jsval :=
  match c with
  | Markers => MarkerSet.markers set
  | Areas => MarkerSet.areas set
  | Circles => MarkerSet.circles set
  | Lines => MarkerSet.lines set
  end.

(** The entity [id] of category [c] in the marker set [key] of the store. *)
Definition entityOf (st : State) (key : jsval) (c : Category) (id : jsval)
    : option jsval :=
  match JsMap.get key (markerSets st) with
  | Some set => JsMap.get id (entities c set)
  | None => None
  end.

(** The pending updates of category [c] for the marker set [key]. *)
Definition pendingOf (st : State) (key : jsval) (c : Category) : list DynmapUpdate :=
  match JsMap.get key (pendingSetUpdates st) with
  | Some p => queue c p
  | None => []
  end.

(** The fields of the store other than [markerSets] and
    [pendingSetUpdates]. *)
Definition restOfStore (st : State)
    : JsMap Ref * JsMap Ref * JsMap DynmapPlayer * list DynmapChat
      * list DynmapTileUpdate * option Ref * option Ref * UpdateTimestamp :=
  (worlds st, maps st, players st, chatMessages st, pendingTileUpdates st,
   currentWorld st, currentMap st, updateTimestamp st).

(** ** Statements about what the classifier accepts *)

(** A delta names its entity, and carries a built payload unless it is a
    removal. *)
Definition soundUpdate (u : DynmapUpdate) : Prop :=
  truthy (Update.id u) = true /\
  if Update.removed u then Update.payload u = JUndef
  else exists fields, Update.payload u = JObj fields.

(** The bucket filed under [key]: its deltas are sound, and its set-level
    part is untouched, a removal without payload, or the payload built for
    [key]. *)
Definition soundBucket (key : jsval) (b : DynmapMarkerSetUpdates) : Prop :=
  truthy key = true /\
  (forall c, Forall soundUpdate (queue c b)) /\
  ((SetUpdates.removed b = JBool false /\ SetUpdates.payload b = JUndef) \/
   (SetUpdates.removed b = JBool true /\ SetUpdates.payload b = JUndef) \/
   (SetUpdates.removed b = JBool false /\
    exists entry, buildMarkerSet key entry = Return (SetUpdates.payload b))).

(** Every bucket of the map is sound for the key it is filed under. *)
Definition soundBuckets (m : JsMap DynmapMarkerSetUpdates) : Prop :=
  Forall (fun entry => soundBucket (fst entry) (snd entry)) m.

(** A chat event that the classifier may return under the watermark
    [lastUpdate]. *)
Definition freshChat (lastUpdate : UpdateTimestamp) (c : DynmapChat) : Prop :=
  truthy (chatTimestamp c) = true /\
  lt_number (chatTimestamp c) (timeValue lastUpdate) = false /\
  match c with
  | chat source _ _ message _ _ =>
      (source = JStr "player" \/ source = JStr "web") /\ truthy message = true
  | playerjoin account _ _ => truthy account = true
  | playerleave account _ _ => truthy account = true
  end.

(** A tile update that the classifier may return under the watermark
    [lastUpdate]. *)
Definition freshTile (lastUpdate : UpdateTimestamp) (t : DynmapTileUpdate) : Prop :=
  truthy (TileUpdate.name t) = true /\
  truthy (TileUpdate.timestamp t) = true /\
  (isSet lastUpdate = true ->
   lt_number (TileUpdate.timestamp t) (timeValue lastUpdate) = false).

(** A batch that updates the set [s1], adds and deletes markers of it, and
    then deletes the set [s2]. *)
Definition setBatch : list jsval := [
  JObj [("type", JStr "component"); ("msg", JStr "setupdated"); ("id", JStr "s1");
        ("ctype", JStr "markers"); ("label", JStr "Towns")];
  JObj [("type", JStr "component"); ("msg", JStr "markerupdated"); ("id", JStr "m1");
        ("set", JStr "s1"); ("ctype", JStr "markers"); ("x", JNum 4)];
  JObj [("type", JStr "component"); ("msg", JStr "markerdeleted"); ("id", JStr "m2");
        ("set", JStr "s1"); ("ctype", JStr "markers")];
  JObj [("type", JStr "component"); ("msg", JStr "setdeleted"); ("id", JStr "s2");
        ("ctype", JStr "markers")];
  JObj [("type", JStr "tile"); ("name", JStr "flat/0_0.png"); ("timestamp", JNum 120)]
].

Definition setBatchResult : Locals :=
  Eval vm_compute in
    match buildUpdates (AsNumber 50) setBatch with
    | Return l => l
    | Throw _ => initialLocals
    end.

(** ** Statements about the merge of a player snapshot *)

(** [calls] successive calls of [SET_PLAYERS_ASYNC], each on the set that
    the call before it returned. *)
Fixpoint setPlayersRepeatedly (calls : nat) (st : State) (incoming : list DynmapPlayer)
    : State * list DynmapPlayer :=
  match calls with
  | O => (st, incoming)
  | S n =>
      let (st', rest) := SET_PLAYERS_ASYNC st incoming in
      setPlayersRepeatedly n st' rest
  end.

(** Every entry of the registry is filed under its own account. *)
Definition keyedByAccount (registry : JsMap DynmapPlayer) : Prop :=
  forall k p, In (k, p) registry -> Player.account p = k.

(** ** Statements about the configuration builders *)

(** [component.type || "unknown"] *)
Definition componentType (component : jsval) : jsval :=
  js_or (prop component "type") (JStr "unknown").

Definition isLogo (component : jsval) : bool := is_str (componentType component) "logo".

Definition isChat (component : jsval) : bool := is_str (componentType component) "chat".

(** The items of [response.components || []] if that is an array. *)
Definition responseComponents (response : jsval) : option (list jsval) :=
  match js_or (prop response "components") (JArr []) with
  | JArr items => Some items
  | _ => None
  end.

(** A component that [buildComponents] can read: it is not [null] or
    [undefined], and if it is a logo its [position] is a string. *)
Definition readableComponent (component : jsval) : Prop :=
  nullish component = false /\
  (isLogo component = true -> exists position, prop component "position" = JStr position).

(** The items of [response.worlds || []] if that is an array. *)
Definition responseWorlds (response : jsval) : option (list jsval) :=
  match js_or (prop response "worlds") (JArr []) with
  | JArr items => Some items
  | _ => None
  end.

(** A world that [buildWorlds] can read: it is not [null] or [undefined],
    its [maps] are an array of such values or falsy, and it has a
    [center]. *)
Definition readableWorld (world : jsval) : Prop :=
  nullish world = false /\
  (exists maps, js_or (prop world "maps") (JArr []) = JArr maps /\
                Forall (fun map => nullish map = false) maps) /\
  nullish (prop world "center") = false.

(** The object that [case "chat"] assigns to [components.chatSending]. *)
Definition chatSendingOf (response : jsval) : jsval :=
  JObj [
    ("loginRequired", js_or (prop response "webchat-requires-login") (JBool false));
    ("maxLength", js_or (prop response "chatlengthlimit") (JNum 256));
    ("cooldown", js_or (prop response "webchat-interval") (JNum 5))
  ].

(** The items of [world.maps || []]. *)
Definition worldMaps (world : jsval) : list jsval :=
  match js_or (prop world "maps") (JArr []) with
  | JArr items => items
  | _ => []
  end.

(** [w] is a world as [buildWorlds] makes it from the entry [world]: it has
    a name, a sea level and a height, and one map for each map name of the
    entry. *)
Definition worldOf (world : jsval) (w : DynmapWorld) : Prop :=
  World.name w = js_or (prop world "name") (JStr "(Unnamed world)") /\
  truthy (World.name w) = true /\
  truthy (World.seaLevel w) = true /\
  truthy (World.height w) = true /\
  wellFormed (World.maps w) /\
  forall k,
    JsMap.has k (World.maps w)
    = existsb (fun map => jsval_eqb (prop map "name") k) (worldMaps world).

(** ** Statements about [getMarkerSets] *)

(** The response is a value that takes the assignment [response.sets =
    ...]. *)
Definition assignable (response : jsval) : bool :=
  match response with
  | JObj _ | JArr _ | JFunction _ => true
  | _ => false
  end.

(** What the loop of [getMarkerSets] runs over. *)
Definition responseSets (response : jsval) : list (string * jsval) :=
  forInEntries (js_or (prop response "sets") (JObj [])).

(** A collection of areas, lines or circles that the builders can read: no
    entity is [null], and the zoom bounds convert. *)
Definition readableEntities (data : jsval) : Prop :=
  Forall (fun field => nullish (snd field) = false /\ zoomsConvert (snd field))
    (forInEntries data).

(** A collection of markers that [buildMarkers] can read: no marker is
    [null], a [dim] is a string, and the zoom bounds convert. *)
Definition readableMarkers (data : jsval) : Prop :=
  Forall (fun field => nullish (snd field) = false /\
                       dimIsString (snd field) /\ zoomsConvert (snd field))
    (forInEntries data).

(** A marker set that [getMarkerSets] can read. *)
Definition readableSet (set : jsval) : Prop :=
  nullish set = false /\
  zoomsConvert set /\
  readableMarkers (js_or (prop set "markers") (JObj [])) /\
  readableEntities (js_or (prop set "circles") (JObj [])) /\
  readableEntities (js_or (prop set "areas") (JObj [])) /\
  readableEntities (js_or (prop set "lines") (JObj [])).

(** ** Statements about the visible elements *)

(** On a small screen at most one element is visible. *)
Definition fitsSmallScreen (ui : Ui.t) : Prop :=
  truthy (Ui.smallScreen ui) = true -> (List.length (Ui.visibleElements ui) <= 1)%nat.

(** A small screen that shows the chat. *)
Definition smallScreenWithChat : Ui.t := Ui.make (JBool true) [JStr "chat"].

(** A wide screen that shows the chat and the player list. *)
Definition wideScreenWithTwo : Ui.t :=
  Ui.make (JBool false) [JStr "chat"; JStr "players"].

(** The element [other] is visible once [element] has been switched on or
    off: switching an element on empties a small screen first. *)
Definition visibleBeside (ui : Ui.t) (switchedOn : bool) (other : jsval) : bool :=
  if switchedOn && truthy (Ui.smallScreen ui) then false
  else JsSet.has other (Ui.visibleElements ui).

(** ** Statements about the players of a response *)

(** A player as the handler of [getUpdate] makes it from a reported entry:
    it is hidden exactly when it has no world, and its world is never the
    placeholder that the server sends for a hidden player. *)
Definition reportedAs (player : jsval) (p : DynmapPlayer) : Prop :=
  Player.hidden p = JBool (negb (truthy (Location.world (Player.location p)))) /\
  (Location.world (Player.location p) = JUndef \/
   Location.world (Player.location p) = prop player "world" /\
   truthy (prop player "world") = true /\
   prop player "world" <> JStr "-some-other-bogus-world-") /\
  (Player.hidden p = JBool true <->
   truthy (prop player "world") = false \/
   prop player "world" = JStr "-some-other-bogus-world-").

(** ** Further sample inputs *)

(** A bucket for [s1] that updates the marker [m1], adds [m2] and then
    deletes [m1]. *)
Definition bucketS1 : DynmapMarkerSetUpdates :=
  SetUpdates.make []
    [Update.make (JStr "m1") false (JObj [("label", JStr "moved")]);
     Update.make (JStr "m2") false (JObj [("label", JStr "new")]);
     Update.make (JStr "m1") true JUndef]
    [] [] (JBool false) JUndef.

(** The store with [s1] after that bucket was queued. *)
Definition storeWithPending : State :=
  mkState [] [] []
    [(JStr "s1",
      MarkerSet.make (JStr "s1") JUndef JUndef JUndef (JNum 0) (JStr "Set") (JBool false)
        [(JStr "m2", JObj [("label", JStr "new")])] [] [] [])]
    []
    [(JStr "s1", bucketS1)]
    [TileUpdate.make (JStr "flat/0_0.png") (JNum 60);
     TileUpdate.make (JStr "flat/0_1.png") (JNum 70)]
    None None (AsNumber 50).

(** A store whose chat history holds one line from before the watermark. *)
Definition storeWithChat : State :=
  mkState [] [] [] []
    [chat (JStr "player") (JStr "alex") (JStr "Alex") (JStr "hello") (JNum 30) JUndef]
    [] [] None None (AsNumber 50).

(** A store with the marker set [s1], a chat history, a pending bucket and
    two pending tiles, whose watermark stands at 50. *)
Definition populatedStore : State :=
  mkState [] [] []
    [(JStr "s1",
      MarkerSet.make (JStr "s1") JUndef JUndef JUndef (JNum 0) (JStr "Set") (JBool false)
        [(JStr "m2", JObj [("label", JStr "new")])] [] [] [])]
    [chat (JStr "player") (JStr "alex") (JStr "Alex") (JStr "hello") (JNum 45) JUndef]
    [(JStr "s1", bucketS1)]
    [TileUpdate.make (JStr "flat/0_0.png") (JNum 60);
     TileUpdate.make (JStr "flat/0_1.png") (JNum 70)]
    None None (AsNumber 50).

(** A batch of complete records from before the time 50: a marker of [s1]
    moved at 40, a chat line at 45, a join at 30, a quit at 48 and a tile at
    40. *)
Definition redeliveredBatch : list jsval := [
  JObj [("type", JStr "component"); ("msg", JStr "markerupdated"); ("ctype", JStr "markers");
        ("set", JStr "s1"); ("id", JStr "m2"); ("label", JStr "moved");
        ("x", JNum 1); ("y", JNum 64); ("z", JNum 1); ("timestamp", JNum 40)];
  JObj [("type", JStr "chat"); ("message", JStr "hello"); ("timestamp", JNum 45);
        ("source", JStr "player"); ("account", JStr "alex"); ("playerName", JStr "Alex")];
  JObj [("type", JStr "playerjoin"); ("account", JStr "steve"); ("timestamp", JNum 30)];
  JObj [("type", JStr "playerquit"); ("account", JStr "steve"); ("timestamp", JNum 48)];
  JObj [("type", JStr "tile"); ("name", JStr "flat/0_0.png"); ("timestamp", JNum 40)]
].

(** A configuration response that switches the layer control off, with a
    world of two maps, two logos and a chat component. *)
Definition sampleConfiguration : jsval :=
  JObj [
    ("showlayercontrol", JBool false);
    ("allowwebchat", JBool true);
    ("worlds", JArr [
       JObj [("name", JStr "world");
             ("center", JObj [("x", JNum 0); ("y", JNum 64); ("z", JNum 0)]);
             ("maps", JArr [JObj [("name", JStr "flat")];
                            JObj [("name", JStr "surface")]])]]);
    ("components", JArr [
       JObj [("type", JStr "logo"); ("position", JStr "bottom-left");
             ("text", JStr "first")];
       JObj [("type", JStr "chat")];
       JObj [("type", JStr "logo"); ("position", JStr "top-right");
             ("text", JStr "second")]])
  ].

Definition sampleComponents : DynmapComponentConfig :=
  Eval vm_compute in
    match buildComponents sampleConfiguration with
    | Return components => components
    | Throw _ => noComponents
    end.

Definition sampleWorlds : list DynmapWorld :=
  Eval vm_compute in
    match buildWorlds sampleConfiguration with
    | Return ws => ws
    | Throw _ => []
    end.

(** A marker response with the sets [towns], which holds one marker, and
    [10] and [2], which are empty. *)
Definition sampleMarkers : jsval :=
  JObj [("sets", JObj [
    ("towns", JObj [("label", JStr "Towns");
                    ("markers", JObj [("spawn", JObj [("x", JNum 1); ("dim", JStr "16x16")])])]);
    ("10", JObj []);
    ("2", JObj [])])].

(** A marker response whose set [towns] has the [minzoom]
    [{toString: 1}]. *)
Definition unreadableMarkers : jsval :=
  JObj [("sets", JObj [
    ("towns", JObj [("label", JStr "Towns");
                    ("minzoom", JObj [("toString", JNum 1)])])])].

Definition sampleMarkerSets : JsMap DynmapMarkerSet :=
  Eval vm_compute in
    match getMarkerSets sampleMarkers with
    | Return sets => sets
    | Throw _ => []
    end.

Definition samplePlayers : list DynmapPlayer :=
  Eval vm_compute in
    match responsePlayers (reportedPlayers sampleResponse) with
    | Return ps => ps
    | Throw _ => []
    end.

(** ** The store: the worlds of the configuration *)

(** A world object as [SET_WORLDS] reads it: its identity, its [name], and
    the map objects of [world.maps] in the order of that [Map], each with
    its identity and its [name]. *)
Module WorldObject.
Record t : Type := make {
  ref : Ref;
  name : jsval;
  maps : list (Ref * jsval)
}.
End WorldObject.

(** [[worldName, mapName].join('_')] for names that are declared
    [string]. *)
Definition mapKey (worldName mapName : jsval) : jsval :=
  JStr (join "_" (map (fun v => if nullish v then "" else to_string v)
                    [worldName; mapName])).

(** [world.maps.forEach(map => state.maps.set([world.name, map.name].join('_'), map))] *)
Definition setWorldMaps (worldName : jsval) (objects : list (Ref * jsval))
    (maps : JsMap Ref) : JsMap Ref :=
  fold_left (fun maps map => JsMap.set (mapKey worldName (snd map)) (fst map) maps)
    objects maps.

(** The callback of [worlds.forEach] in [SET_WORLDS]. *)
Definition setWorld (st : State) (world : WorldObject.t) : State :=
  mkState (JsMap.set (WorldObject.name world) (WorldObject.ref world) (worlds st))
    (setWorldMaps (WorldObject.name world) (WorldObject.maps world) (maps st))
    (players st) (markerSets st) (chatMessages st) (pendingSetUpdates st)
    (pendingTileUpdates st) (currentWorld st) (currentMap st) (updateTimestamp st).

(** [SET_WORLDS]; the follow and pan targets and the world state, which it
    also resets, are not part of [State]. *)
Definition SET_WORLDS (st : State) (worlds' : list WorldObject.t) : State :=
  fold_left setWorld worlds'
    (mkState (JsMap.clear (worlds st)) (JsMap.clear (maps st)) (players st)
       (markerSets st) (chatMessages st) (pendingSetUpdates st)
       (pendingTileUpdates st) None None (updateTimestamp st)).

(** [ADD_WORLD] *)
Definition ADD_WORLD (st : State) (world : WorldObject.t) : State :=
  mkState (JsMap.set (WorldObject.name world) (WorldObject.ref world) (worlds st))
    (maps st) (players st) (markerSets st) (chatMessages st) (pendingSetUpdates st)
    (pendingTileUpdates st) (currentWorld st) (currentMap st) (updateTimestamp st).

(** The fields of the store that [SET_WORLDS] does not write. *)
Definition besideWorlds (st : State)
    : JsMap DynmapPlayer * JsMap DynmapMarkerSet * list DynmapChat
      * JsMap DynmapMarkerSetUpdates * list DynmapTileUpdate * UpdateTimestamp :=
  (players st, markerSets st, chatMessages st, pendingSetUpdates st,
   pendingTileUpdates st, updateTimestamp st).

(** What [SET_WORLDS] files, in the order in which it files it: every world
    under its name, and every map under the key made of the name of its
    world and its own name. *)
Definition filedWorlds (ws : list WorldObject.t) : list (jsval * Ref) :=
  map (fun w => (WorldObject.name w, WorldObject.ref w)) ws.

Definition filedMaps (ws : list WorldObject.t) : list (jsval * Ref) :=
  flat_map (fun w => map (fun m => (mapKey (WorldObject.name w) (snd m), fst m))
                         (WorldObject.maps w)) ws.

(** The object filed last under the key [k]: a later one replaces an
    earlier one. *)
Fixpoint lastFiled (k : jsval) (entries : list (jsval * Ref)) : option Ref :=
  match entries with
  | [] => None
  | (k', r) :: rest =>
      match lastFiled k rest with
      | Some later => Some later
      | None => if jsval_eqb k' k then Some r else None
      end
  end.

(** [SET_WORLDS] with the worlds [ws], then [SET_CURRENT_MAP] with the name
    of the world [w] and the name of the map [map]. *)
Definition makeCurrent (st : State) (ws : list WorldObject.t) (w : WorldObject.t)
    (map : Ref * jsval) : Outcome :=
  SET_CURRENT_MAP (SET_WORLDS st ws) (WorldObject.name w) (snd map).

(** Two worlds, the first with two maps. *)
Definition sampleWorldObjects : list WorldObject.t := [
  WorldObject.make 1%nat (JStr "world") [(10%nat, JStr "flat"); (11%nat, JStr "surface")];
  WorldObject.make 2%nat (JStr "world_nether") [(12%nat, JStr "flat")]
].

(** Two worlds whose maps [nether_flat] and [flat] get the same key,
    [world_nether_flat]. *)
Definition collidingWorldObjects : list WorldObject.t := [
  WorldObject.make 1%nat (JStr "world") [(10%nat, JStr "nether_flat")];
  WorldObject.make 2%nat (JStr "world_nether") [(11%nat, JStr "flat")]
].

(** * Properties *)

(** ** Equality of values *)

Section JsvalInduction.
Variable P : jsval -> Prop.
Hypothesis Hundef : P JUndef.
Hypothesis Hnull : P JNull.
Hypothesis Hbool : forall b, P (JBool b).
Hypothesis Hnum : forall n, P (JNum n).
Hypothesis Hstr : forall s, P (JStr s).
Hypothesis Harr : forall items, Forall P items -> P (JArr items).
Hypothesis Hobj : forall fields, Forall (fun kv => P (snd kv)) fields -> P (JObj fields).
Hypothesis Hfun : forall name, P (JFunction name).

Fixpoint jsval_nested_ind (v : jsval) : P v :=
  match v with
  | JUndef => Hundef
  | JNull => Hnull
  | JBool b => Hbool b
  | JNum n => Hnum n
  | JStr s => Hstr s
  | JArr items =>
      Harr items
        ((fix all (l : list jsval) : Forall P l :=
            match l with
            | [] => Forall_nil P
            | x :: l' => Forall_cons x (jsval_nested_ind x) (all l')
            end) items)
  | JObj fields =>
      Hobj fields
        ((fix all (l : list (string * jsval)) : Forall (fun kv => P (snd kv)) l :=
            match l with
            | [] => Forall_nil _
            | kv :: l' => Forall_cons kv (jsval_nested_ind (snd kv)) (all l')
            end) fields)
  | JFunction name => Hfun name
  end.
End JsvalInduction.

Lemma jsval_eqb_eq : forall a b, jsval_eqb a b = true <-> a = b.
Proof.
  intros a. induction a using jsval_nested_ind; intros c; destruct c; simpl;
    try (split; [discriminate | congruence]); try (split; reflexivity).
  - rewrite Bool.eqb_true_iff. split; congruence.
  - rewrite Z.eqb_eq. split; congruence.
  - rewrite String.eqb_eq. split; congruence.
  - rename items0 into others. revert others.
    induction H as [|x xs Hx Hxs IH]; intros [|y ys];
      try (split; [discriminate | congruence]); try (split; reflexivity).
    rewrite andb_true_iff, Hx. specialize (IH ys). split.
    + intros [-> Hrest]. apply IH in Hrest. congruence.
    + intros Heq. injection Heq as -> ->. split; [reflexivity|].
      apply IH. reflexivity.
  - rename fields0 into others. revert others.
    induction H as [|[k x] xs Hx Hxs IH]; intros [|[l y] ys];
      try (split; [discriminate | congruence]); try (split; reflexivity).
    rewrite !andb_true_iff, String.eqb_eq. simpl in Hx. rewrite Hx.
    specialize (IH ys). split.
    + intros [[-> ->] Hrest]. apply IH in Hrest. congruence.
    + intros Heq. injection Heq as -> -> ->. repeat split.
      apply IH. reflexivity.
  - rewrite String.eqb_eq. split; congruence.
Qed.

Lemma jsval_eqb_refl : forall a, jsval_eqb a a = true.
Proof. intros a. apply jsval_eqb_eq. reflexivity. Qed.

Lemma jsval_eqb_neq : forall a b, jsval_eqb a b = false <-> a <> b.
Proof.
  intros a b. rewrite <- jsval_eqb_eq. destruct (jsval_eqb a b); split; congruence.
Qed.

Lemma jsval_eqb_sym : forall a b, jsval_eqb a b = jsval_eqb b a.
Proof.
  intros a b. destruct (jsval_eqb b a) eqn:E.
  - apply jsval_eqb_eq in E. subst. apply jsval_eqb_refl.
  - apply jsval_eqb_neq. apply jsval_eqb_neq in E. congruence.
Qed.

Lemma jsval_eq_dec : forall a b : jsval, {a = b} + {a <> b}.
Proof.
  intros a b. destruct (jsval_eqb a b) eqn:E.
  - left. apply jsval_eqb_eq. exact E.
  - right. apply jsval_eqb_neq. exact E.
Qed.

(** ** Maps *)

Section MapFacts.
Context {V : Type}.
Implicit Types (m : JsMap V) (k : jsval) (v : V).

Lemma get_set_same : forall m k v, JsMap.get k (JsMap.set k v m) = Some v.
Proof.
  induction m as [|[k' v'] m IH]; intros k v; simpl.
  - rewrite jsval_eqb_refl. reflexivity.
  - destruct (jsval_eqb k' k) eqn:E; simpl; rewrite E; auto.
Qed.

Lemma get_set_other : forall m k k' v,
  k <> k' -> JsMap.get k' (JsMap.set k v m) = JsMap.get k' m.
Proof.
  induction m as [|[k0 v0] m IH]; intros k k' v Hne; simpl.
  - apply jsval_eqb_neq in Hne. rewrite Hne. reflexivity.
  - destruct (jsval_eqb k0 k) eqn:E; simpl.
    + apply jsval_eqb_eq in E. subst k0.
      apply jsval_eqb_neq in Hne. rewrite Hne. reflexivity.
    + destruct (jsval_eqb k0 k'); auto.
Qed.

Lemma get_delete_same : forall m k, JsMap.get k (JsMap.delete k m) = None.
Proof.
  induction m as [|[k0 v0] m IH]; intros k; simpl; auto.
  destruct (jsval_eqb k0 k) eqn:E; simpl; auto. rewrite E. auto.
Qed.

Lemma get_delete_other : forall m k k',
  k <> k' -> JsMap.get k' (JsMap.delete k m) = JsMap.get k' m.
Proof.
  induction m as [|[k0 v0] m IH]; intros k k' Hne; simpl; auto.
  destruct (jsval_eqb k0 k) eqn:E; simpl.
  - apply jsval_eqb_eq in E. subst k0.
    rewrite (proj2 (jsval_eqb_neq _ _) Hne). auto.
  - destruct (jsval_eqb k0 k'); auto.
Qed.

Lemma has_set_same : forall m k v, JsMap.has k (JsMap.set k v m) = true.
Proof. intros. unfold JsMap.has. rewrite get_set_same. reflexivity. Qed.

Lemma has_set_other : forall m k k' v,
  k <> k' -> JsMap.has k' (JsMap.set k v m) = JsMap.has k' m.
Proof. intros. unfold JsMap.has. rewrite get_set_other; auto. Qed.

Lemma has_delete_same : forall m k, JsMap.has k (JsMap.delete k m) = false.
Proof. intros. unfold JsMap.has. rewrite get_delete_same. reflexivity. Qed.

Lemma has_delete_other : forall m k k',
  k <> k' -> JsMap.has k' (JsMap.delete k m) = JsMap.has k' m.
Proof. intros. unfold JsMap.has. rewrite get_delete_other; auto. Qed.

Lemma has_keys : forall m k,
  JsMap.has k m = existsb (jsval_eqb k) (JsMap.keys m).
Proof.
  induction m as [|[k0 v0] m IH]; intros k; simpl; auto.
  unfold JsMap.has in *. simpl. rewrite (jsval_eqb_sym k k0).
  destruct (jsval_eqb k0 k); simpl; auto.
Qed.

Lemma has_In_keys : forall m k, JsMap.has k m = true <-> In k (JsMap.keys m).
Proof.
  intros m k. rewrite has_keys, existsb_exists. split.
  - intros [x [Hin Heq]]. apply jsval_eqb_eq in Heq. subst. exact Hin.
  - intros Hin. exists k. split; auto. apply jsval_eqb_refl.
Qed.

Lemma distinctKeys_NoDup : forall ks, distinctKeys ks = true <-> NoDup ks.
Proof.
  induction ks as [|k ks IH]; simpl.
  - split; auto. constructor.
  - rewrite andb_true_iff, negb_true_iff, IH. split.
    + intros [Hk Hks]. constructor; auto. intros Hin.
      assert (existsb (jsval_eqb k) ks = true) as Hex.
      { apply existsb_exists. exists k. split; auto. apply jsval_eqb_refl. }
      congruence.
    + intros Hnd. inversion Hnd as [|? ? Hk Hks]; subst. split; auto.
      destruct (existsb (jsval_eqb k) ks) eqn:E; auto.
      apply existsb_exists in E. destruct E as [x [Hin Heq]].
      apply jsval_eqb_eq in Heq. subst. contradiction.
Qed.

Lemma keys_set : forall m k v,
  JsMap.keys (JsMap.set k v m)
  = if JsMap.has k m then JsMap.keys m else (JsMap.keys m ++ [k])%list.
Proof.
  induction m as [|[k0 v0] m IH]; intros k v; simpl; auto.
  unfold JsMap.has in *. simpl.
  destruct (jsval_eqb k0 k) eqn:E; simpl; auto.
  rewrite IH. destruct (JsMap.get k m); reflexivity.
Qed.

Lemma wellFormed_set : forall m k v, wellFormed m -> wellFormed (JsMap.set k v m).
Proof.
  unfold wellFormed. intros m k v Hwf. rewrite keys_set.
  destruct (JsMap.has k m) eqn:Hhas; auto.
  apply distinctKeys_NoDup. apply distinctKeys_NoDup in Hwf.
  apply NoDup_app; auto.
  - constructor; [intros []|constructor].
  - intros x Hin [Hx|[]]. subst x.
    apply has_In_keys in Hin. congruence.
Qed.

Lemma keys_delete_incl : forall m k x,
  In x (JsMap.keys (JsMap.delete k m)) -> In x (JsMap.keys m).
Proof.
  induction m as [|[k0 v0] m IH]; intros k x; simpl; auto.
  destruct (jsval_eqb k0 k); simpl; intros Hin.
  - right. eapply IH; eauto.
  - destruct Hin as [Hin|Hin]; auto. right. eapply IH; eauto.
Qed.

Lemma wellFormed_delete : forall m k, wellFormed m -> wellFormed (JsMap.delete k m).
Proof.
  unfold wellFormed. intros m k Hwf.
  apply distinctKeys_NoDup. apply distinctKeys_NoDup in Hwf.
  induction m as [|[k0 v0] m IH]; simpl in *; auto.
  inversion Hwf as [|? ? Hk Hks]; subst.
  destruct (jsval_eqb k0 k); auto.
  simpl. constructor; auto. intros Hin. apply Hk.
  eapply keys_delete_incl; eauto.
Qed.

Lemma get_absent_tail : forall m k v,
  wellFormed ((k, v) :: m) -> JsMap.get k m = None.
Proof.
  unfold wellFormed. simpl. intros m k v Hwf.
  apply andb_true_iff in Hwf. destruct Hwf as [Hk _].
  apply negb_true_iff in Hk. rewrite <- has_keys in Hk.
  unfold JsMap.has in Hk. destruct (JsMap.get k m); congruence.
Qed.

Lemma wellFormed_tail : forall m kv, wellFormed (kv :: m) -> wellFormed m.
Proof.
  unfold wellFormed. simpl. intros m kv Hwf.
  apply andb_true_iff in Hwf. tauto.
Qed.
End MapFacts.

Section MapHas.
Context {V : Type}.

Lemma has_set : forall (m : JsMap V) k k' v,
  JsMap.has k' (JsMap.set k v m) = jsval_eqb k k' || JsMap.has k' m.
Proof.
  intros m k k' v. destruct (jsval_eqb k k') eqn:E; simpl.
  - apply jsval_eqb_eq in E. subst. apply has_set_same.
  - apply jsval_eqb_neq in E. apply has_set_other. exact E.
Qed.

Lemma has_delete : forall (m : JsMap V) k k',
  JsMap.has k' (JsMap.delete k m) = negb (jsval_eqb k k') && JsMap.has k' m.
Proof.
  intros m k k'. destruct (jsval_eqb k k') eqn:E; simpl.
  - apply jsval_eqb_eq in E. subst. apply has_delete_same.
  - apply jsval_eqb_neq in E. apply has_delete_other. exact E.
Qed.

Lemma has_get_Some : forall (m : JsMap V) k,
  JsMap.has k m = true -> exists v, JsMap.get k m = Some v.
Proof.
  intros m k. unfold JsMap.has. destruct (JsMap.get k m) as [v|]; [|discriminate].
  intros _. exists v. reflexivity.
Qed.

Lemma get_Some_has : forall (m : JsMap V) k v,
  JsMap.get k m = Some v -> JsMap.has k m = true.
Proof. intros m k v H. unfold JsMap.has. rewrite H. reflexivity. Qed.

Lemma get_None_has : forall (m : JsMap V) k,
  JsMap.get k m = None -> JsMap.has k m = false.
Proof. intros m k H. unfold JsMap.has. rewrite H. reflexivity. Qed.
End MapHas.

(** ** The classifier: drop counters *)

Lemma count_incr_same : forall r d,
  Dropped.count r (Dropped.incr r d) = S (Dropped.count r d).
Proof. intros [] []; reflexivity. Qed.

Lemma count_incr_other : forall r r' d,
  r' <> r -> Dropped.count r' (Dropped.incr r d) = Dropped.count r' d.
Proof. intros [] [] [] Hne; try reflexivity; congruence. Qed.

Lemma total_incr : forall r d, Dropped.total (Dropped.incr r d) = S (Dropped.total d).
Proof. intros [] []; unfold Dropped.total; simpl; lia. Qed.

Lemma drop_rejectedOnceAs : forall r l, rejectedOnceAs r l (drop r l).
Proof.
  intros r l. unfold rejectedOnceAs, drop. simpl. repeat split.
  - apply count_incr_same.
  - intros r' Hne. apply count_incr_other. exact Hne.
Qed.

Lemma rejectedOnceAs_reason : forall r r' l l',
  rejectedOnceAs r l l' -> rejectedOnceAs r' l l' -> r = r'.
Proof.
  intros r r' l l' (_ & _ & Hr & _) (_ & _ & _ & Hother).
  destruct r, r'; try reflexivity;
    (rewrite Hother in Hr by discriminate; lia).
Qed.

(** ** Conversions *)

Lemma mentions_app : forall c a b,
  mentions c (a ++ b) = mentions c a || mentions c b.
Proof.
  intros c a b. induction a as [|d a IH]; [reflexivity|].
  cbn [String.append mentions]. rewrite IH, orb_assoc. reflexivity.
Qed.

Lemma mentions_rev_onto : forall c s acc,
  mentions c (string_rev_onto s acc) = mentions c s || mentions c acc.
Proof.
  intros c s. induction s as [|d s IH]; intros acc; [reflexivity|].
  cbn [string_rev_onto]. rewrite IH. cbn [mentions].
  destruct (Ascii.eqb d c), (mentions c s), (mentions c acc); reflexivity.
Qed.

Lemma mentions_rev : forall c s, mentions c (string_rev s) = mentions c s.
Proof.
  intros c s. unfold string_rev. rewrite mentions_rev_onto. apply orb_false_r.
Qed.

Lemma mentions_trim_left : forall c s,
  is_space c = false -> mentions c (trim_left s) = mentions c s.
Proof.
  intros c s Hc. induction s as [|d s IH]; [reflexivity|].
  cbn [trim_left]. destruct (is_space d) eqn:Hd; [|reflexivity].
  rewrite IH. cbn [mentions]. destruct (Ascii.eqb d c) eqn:E; [|reflexivity].
  apply Ascii.eqb_eq in E. congruence.
Qed.

Lemma mentions_trim : forall c s,
  is_space c = false -> mentions c (trim s) = mentions c s.
Proof.
  intros c s Hc. unfold trim.
  rewrite mentions_rev, mentions_trim_left, mentions_rev, mentions_trim_left by exact Hc.
  reflexivity.
Qed.

Lemma digits_value_mentions : forall c s acc v,
  digit_of c = None -> digits_value s acc = Some v -> mentions c s = false.
Proof.
  intros c s. induction s as [|d s IH]; intros acc v Hc H; [reflexivity|].
  cbn [digits_value] in H. destruct (digit_of d) as [n|] eqn:Hd; [|discriminate].
  cbn [mentions]. rewrite (IH _ _ Hc H), orb_false_r.
  apply Ascii.eqb_neq. intros ->. congruence.
Qed.

(** A string that holds a bracket spells no number. *)
Lemma string_to_number_mentions : forall s t,
  string_to_number s = Some t -> mentions "[" s = false.
Proof.
  intros s t H. rewrite <- (mentions_trim "[" s) by reflexivity.
  unfold string_to_number in H.
  destruct (trim s) as [|c rest]; [reflexivity|].
  assert (forall text u, digits_value text 0 = Some u -> mentions "[" text = false)
    as Hdigits.
  { intros text u Hu. apply (digits_value_mentions "[" text 0 u); [reflexivity|exact Hu]. }
  destruct (Ascii.eqb c "-") eqn:Eminus.
  { apply Ascii.eqb_eq in Eminus. subst c. destruct rest as [|c' rest']; [discriminate|].
    destruct (digits_value (String c' rest') 0) as [u|] eqn:Hu; [|discriminate].
    cbn [mentions]. change (Ascii.eqb "-" "[") with false. cbn [orb].
    apply (Hdigits _ u Hu). }
  destruct (Ascii.eqb c "+") eqn:Eplus.
  { apply Ascii.eqb_eq in Eplus. subst c. destruct rest as [|c' rest']; [discriminate|].
    cbn [mentions]. change (Ascii.eqb "+" "[") with false. cbn [orb].
    apply (Hdigits _ t H). }
  assert (match digit_of c with
          | Some _ => digits_value (String c rest) 0
          | None => None
          end = Some t) as H'.
  { apply Ascii.eqb_neq in Eminus. apply Ascii.eqb_neq in Eplus.
    destruct c as [[] [] [] [] [] [] [] []]; try exact H; congruence. }
  destruct (digit_of c); [|discriminate]. apply (Hdigits _ t H').
Qed.

Lemma join_mentions : forall c sep parts p,
  In p parts -> mentions c p = true -> mentions c (join sep parts) = true.
Proof.
  intros c sep parts p. induction parts as [|q parts IH]; intros Hin Hp; [destruct Hin|].
  destruct parts as [|q' parts'].
  - destruct Hin as [->|[]]. exact Hp.
  - change (join sep (q :: q' :: parts')) with (q ++ sep ++ join sep (q' :: parts')).
    rewrite !mentions_app. destruct Hin as [->|Hin].
    + rewrite Hp. reflexivity.
    + rewrite (IH Hin Hp), !orb_true_r. reflexivity.
Qed.

(** The text of a value that does not convert holds a bracket. *)
Lemma to_string_mentions : forall v,
  convertible v = false -> mentions "[" (to_string v) = true.
Proof.
  intros v. induction v using jsval_nested_ind; try discriminate.
  - intros Hno. cbn [convertible] in Hno. cbn [to_string].
    assert (exists x, In x items /\ convertible x = false) as (x & Hx & Hcx).
    { clear H. induction items as [|y items IH]; [discriminate|].
      cbn [forallb] in Hno. destruct (convertible y) eqn:Hy.
      - destruct (IH Hno) as (x & Hx & Hcx). exists x. split; [right; exact Hx|exact Hcx].
      - exists y. split; [left; reflexivity|exact Hy]. }
    rewrite Forall_forall in H.
    apply join_mentions with (p := to_string x); [|apply H; assumption].
    apply in_map_iff. exists x. split; [|exact Hx].
    destruct x; try reflexivity; discriminate.
  - intros _. reflexivity.
Qed.

(** A value that has a number converts. *)
Lemma to_number_convertible : forall v t, to_number v = Some t -> convertible v = true.
Proof.
  intros v t H. destruct v; try reflexivity; [|discriminate].
  destruct (convertible (JArr items)) eqn:Hc; [reflexivity|].
  apply to_string_mentions in Hc. cbn [to_number] in H.
  apply string_to_number_mentions in H. congruence.
Qed.

Lemma lessThan_Return : forall v n b,
  lessThan v n = Return b -> b = lt_number v n /\ convertible v = true.
Proof.
  intros v n b H. unfold lessThan in H.
  destruct (convertible v); [|discriminate]. injection H as <-. auto.
Qed.

Lemma lessThan_Throw : forall v n e,
  lessThan v n = Throw e -> e = TypeError /\ convertible v = false.
Proof.
  intros v n e H. unfold lessThan in H.
  destruct (convertible v); [discriminate|]. injection H as <-. auto.
Qed.

Lemma lessThan_convertible : forall v n,
  convertible v = true -> lessThan v n = Return (lt_number v n).
Proof. intros v n H. unfold lessThan. rewrite H. reflexivity. Qed.

Lemma olderThanSet_Return : forall lastUpdate v b,
  olderThanSet lastUpdate v = Return b ->
  b = isSet lastUpdate && lt_number v (timeValue lastUpdate).
Proof.
  intros lastUpdate v b H. unfold olderThanSet in H.
  destruct (isSet lastUpdate); [|injection H as <-; reflexivity].
  apply lessThan_Return in H. tauto.
Qed.

Lemma olderThanSet_convertible : forall lastUpdate v,
  convertible v = true ->
  olderThanSet lastUpdate v
  = Return (isSet lastUpdate && lt_number v (timeValue lastUpdate)).
Proof.
  intros lastUpdate v H. unfold olderThanSet.
  destruct (isSet lastUpdate); [apply lessThan_convertible; exact H|reflexivity].
Qed.

Lemma zoomBound_convertible : forall v,
  convertible v = true -> exists bound, zoomBound v = Return bound.
Proof.
  intros v H. unfold zoomBound, greaterThan. rewrite H.
  destruct (defined v); eexists; reflexivity.
Qed.

Lemma zoomBound_Return : forall v bound,
  zoomBound v = Return bound -> convertible v = true.
Proof.
  intros v bound H. unfold zoomBound, greaterThan in H.
  destruct (defined v) eqn:Hd.
  - destruct (convertible v); [reflexivity|discriminate].
  - destruct v; try discriminate. reflexivity.
Qed.

(** ** The classifier: records below the watermark *)

Lemma belowWatermark_not_nullish : forall lastUpdate entry,
  belowWatermark lastUpdate entry -> nullish entry = false.
Proof.
  intros lastUpdate entry (_ & t & Hts & _).
  destruct entry; simpl in Hts; try discriminate; reflexivity.
Qed.

Lemma belowWatermark_lt : forall lastUpdate entry,
  belowWatermark lastUpdate entry ->
  lt_number (prop entry "timestamp") (timeValue lastUpdate) = true.
Proof.
  intros lastUpdate entry (_ & t & Hts & Hlt).
  unfold lt_number. rewrite Hts. apply Z.ltb_lt. exact Hlt.
Qed.

Lemma belowWatermark_lessThan : forall lastUpdate entry,
  belowWatermark lastUpdate entry ->
  lessThan (prop entry "timestamp") (timeValue lastUpdate) = Return true /\
  olderThanSet lastUpdate (prop entry "timestamp") = Return true.
Proof.
  intros lastUpdate entry Hbelow.
  pose proof (belowWatermark_lt _ _ Hbelow) as Hlt.
  destruct Hbelow as (Hset & t & Hts & _).
  apply to_number_convertible in Hts.
  unfold olderThanSet. rewrite Hset, lessThan_convertible, Hlt by exact Hts. auto.
Qed.

Lemma classifyEntry_belowWatermark : forall lastUpdate entry l,
  belowWatermark lastUpdate entry ->
  classifyEntry lastUpdate l entry = Return (drop (reasonBelowWatermark entry) l).
Proof.
  intros lastUpdate entry l Hbelow.
  pose proof (belowWatermark_not_nullish _ _ Hbelow) as Hobj.
  destruct (belowWatermark_lessThan _ _ Hbelow) as [Hlt Hold].
  unfold classifyEntry, reasonBelowWatermark, requiredPresent.
  rewrite Hobj. cbv zeta.
  destruct (is_str (prop entry "type") "component") eqn:Hc.
  { unfold classifyComponent. rewrite Hold. reflexivity. }
  destruct (is_str (prop entry "type") "chat") eqn:Hchat.
  { unfold classifyChat. simpl orb.
    destruct (truthy (prop entry "message")), (truthy (prop entry "timestamp"));
      simpl; try reflexivity. rewrite Hlt. reflexivity. }
  destruct (is_str (prop entry "type") "playerjoin") eqn:Hjoin.
  { unfold classifyPresence. simpl orb.
    destruct (truthy (prop entry "account")), (truthy (prop entry "timestamp"));
      simpl; try reflexivity. rewrite Hlt. reflexivity. }
  destruct (is_str (prop entry "type") "playerquit") eqn:Hquit.
  { unfold classifyPresence. simpl orb.
    destruct (truthy (prop entry "account")), (truthy (prop entry "timestamp"));
      simpl; try reflexivity. rewrite Hlt. reflexivity. }
  destruct (is_str (prop entry "type") "tile") eqn:Htile.
  { unfold classifyTile. simpl orb.
    destruct (truthy (prop entry "name")), (truthy (prop entry "timestamp"));
      simpl; try reflexivity. rewrite Hold. reflexivity. }
  reflexivity.
Qed.

Lemma knownType_is_str : forall entry,
  knownType entry ->
  is_str (prop entry "type") "component" || is_str (prop entry "type") "chat"
  || is_str (prop entry "type") "playerjoin" || is_str (prop entry "type") "playerquit"
  || is_str (prop entry "type") "tile" = true.
Proof.
  intros entry Hin. unfold knownType in Hin. simpl in Hin.
  destruct Hin as [H|[H|[H|[H|[H|[]]]]]]; rewrite <- H; reflexivity.
Qed.

(** C1.  A component record with an id and no [msg] makes [buildUpdates]
    throw, whatever the watermark is: the record is counted under no drop
    reason and no result is returned. *)
Theorem buildUpdates_throws_without_msg : forall lastUpdate,
  buildUpdates lastUpdate [componentWithoutMsg] = Throw TypeError.
Proof.
  intros lastUpdate. unfold buildUpdates. simpl classify.
  unfold classifyEntry, classifyComponent, olderThanSet. simpl.
  destruct (isSet lastUpdate); reflexivity.
Qed.

(** C2, as stated, fails: a chat record without a message whose timestamp 40
    is below the watermark 50 is of a known type, yet it is counted as
    incomplete and not as stale. *)
Lemma incomplete_chat_not_counted_stale :
  belowWatermark (AsNumber 50) chatWithoutMessage /\
  knownType chatWithoutMessage /\
  ~ droppedAsStale (AsNumber 50) chatWithoutMessage.
Proof.
  split; [|split].
  - split; [reflexivity|]. exists 40. split; [reflexivity|simpl; lia].
  - unfold knownType. simpl. auto.
  - intros Hstale. destruct (Hstale initialLocals) as (l' & Hrun & Hrej).
    vm_compute in Hrun. injection Hrun as <-.
    destruct Hrej as (_ & _ & Hcount & _). vm_compute in Hcount. discriminate.
Qed.

(** C2, amended.  A record of a known type whose timestamp is strictly below
    a watermark that is set leaves the delta buckets, the tile list and the
    chat list unchanged and moves exactly one drop counter, by one: [stale]
    for a component and for a chat, join, quit or tile record that has its
    required fields, [incomplete] for one that lacks them. *)
Theorem below_watermark_rejected_once : forall lastUpdate entry,
  belowWatermark lastUpdate entry ->
  knownType entry ->
  forall l, exists l',
    classifyEntry lastUpdate l entry = Return l' /\
    rejectedOnceAs (if requiredPresent entry then Reason.stale else Reason.incomplete)
      l l'.
Proof.
  intros lastUpdate entry Hbelow Hknown l.
  exists (drop (reasonBelowWatermark entry) l). split.
  - apply classifyEntry_belowWatermark. exact Hbelow.
  - unfold reasonBelowWatermark. cbv zeta.
    rewrite (knownType_is_str _ Hknown). apply drop_rejectedOnceAs.
Qed.

(** ** The classifier: the chat list *)

Section SortFacts.
Context {A : Type} (comparefn : A -> A -> option Z).

Lemma insert_perm : forall a l, Permutation (a :: l) (insert comparefn a l).
Proof.
  intros a l. induction l as [|b l IH]; simpl.
  - apply Permutation_refl.
  - destruct (before comparefn a b).
    + apply Permutation_refl.
    + eapply Permutation_trans; [apply perm_swap|].
      apply perm_skip. exact IH.
Qed.

Lemma sortWith_perm : forall l, Permutation l (sortWith comparefn l).
Proof.
  induction l as [|a l IH]; simpl.
  - apply perm_nil.
  - eapply Permutation_trans; [|apply insert_perm].
    apply perm_skip. exact IH.
Qed.

(** An element that is filed in front of none of its class leaves the
    class in its order: this is what makes the sort stable. *)
Lemma filter_insert : forall (p : A -> bool) a l,
  (forall b, In b l -> p a = true -> p b = true -> before comparefn a b = true) ->
  filter p (insert comparefn a l) = filter p (a :: l).
Proof.
  intros p a l. induction l as [|b l IH]; intros Hclass; simpl.
  - reflexivity.
  - destruct (before comparefn a b) eqn:Hab.
    + reflexivity.
    + simpl. rewrite IH by (intros c Hc; apply Hclass; right; exact Hc).
      simpl. destruct (p a) eqn:Hpa; [|reflexivity].
      destruct (p b) eqn:Hpb; [|reflexivity].
      rewrite (Hclass b (or_introl eq_refl) eq_refl Hpb) in Hab. discriminate.
Qed.

Lemma filter_sortWith : forall (p : A -> bool) l,
  (forall a b, In a l -> In b l -> p a = true -> p b = true ->
               before comparefn a b = true) ->
  filter p (sortWith comparefn l) = filter p l.
Proof.
  intros p l. induction l as [|a l IH]; intros Hclass; simpl.
  - reflexivity.
  - rewrite filter_insert.
    + simpl. rewrite IH; [reflexivity|].
      intros x y Hx Hy. apply Hclass; right; assumption.
    + intros b Hb. apply Hclass; [left; reflexivity|right].
      eapply Permutation_in; [apply Permutation_sym, sortWith_perm|exact Hb].
Qed.

Lemma insert_sorted : forall (R : A -> A -> Prop) a l,
  (forall x y z, R x y -> R y z -> R x z) ->
  (forall b, In b l -> before comparefn a b = true -> R a b) ->
  (forall b, In b l -> before comparefn a b = false -> R b a) ->
  StronglySorted R l -> StronglySorted R (insert comparefn a l).
Proof.
  intros R a l Htrans. induction l as [|b l IH]; intros Hyes Hno Hsorted; simpl.
  - constructor; constructor.
  - inversion Hsorted as [|? ? Hl Hb]; subst.
    destruct (before comparefn a b) eqn:Hab.
    + constructor; [exact Hsorted|]. constructor.
      * apply Hyes; [left; reflexivity|exact Hab].
      * rewrite Forall_forall in *. intros c Hc.
        eapply Htrans; [apply Hyes; [left; reflexivity|exact Hab]|].
        apply Hb. exact Hc.
    + constructor.
      * apply IH; auto.
        -- intros c Hc. apply Hyes. right. exact Hc.
        -- intros c Hc. apply Hno. right. exact Hc.
      * rewrite Forall_forall in *. intros c Hc.
        apply Permutation_in with (l' := a :: l) in Hc;
          [|apply Permutation_sym, insert_perm].
        destruct Hc as [<-|Hc]; [|apply Hb; exact Hc].
        apply Hno; [left; reflexivity|exact Hab].
Qed.
End SortFacts.

Lemma timeOf_numeric : forall c t,
  to_number (chatTimestamp c) = Some t -> timeOf c = t.
Proof. intros c t H. unfold timeOf. rewrite H. reflexivity. Qed.

Lemma before_newestFirst : forall a b,
  numericTimestamp a -> numericTimestamp b ->
  before newestFirst a b = (timeOf b <=? timeOf a).
Proof.
  intros a b [ta Ha] [tb Hb]. unfold before, newestFirst.
  rewrite (timeOf_numeric _ _ Ha), (timeOf_numeric _ _ Hb), Ha, Hb.
  destruct (tb - ta <=? 0) eqn:E1, (tb <=? ta) eqn:E2; try reflexivity;
    rewrite ?Z.leb_le, ?Z.leb_gt in *; lia.
Qed.

Lemma sortWith_newestFirst_sorted : forall l,
  Forall numericTimestamp l -> StronglySorted notOlder (sortWith newestFirst l).
Proof.
  induction l as [|a l IH]; intros Hnum; simpl.
  - constructor.
  - inversion Hnum as [|? ? Ha Hl]; subst.
    assert (forall b, In b (sortWith newestFirst l) -> numericTimestamp b) as Hin.
    { intros b Hb. rewrite Forall_forall in Hl. apply Hl.
      eapply Permutation_in; [apply Permutation_sym, sortWith_perm|exact Hb]. }
    apply insert_sorted; auto.
    + unfold notOlder. intros x y z Hxy Hyz. lia.
    + intros b Hb Hbefore. rewrite before_newestFirst in Hbefore by auto.
      apply Z.leb_le in Hbefore. exact Hbefore.
    + intros b Hb Hbefore. rewrite before_newestFirst in Hbefore by auto.
      apply Z.leb_gt in Hbefore. unfold notOlder. lia.
Qed.

Lemma sortWith_newestFirst_stable : forall l t,
  Forall numericTimestamp l ->
  at_time t (sortWith newestFirst l) = at_time t l.
Proof.
  intros l t Hnum. unfold at_time. apply filter_sortWith.
  intros a b Ha Hb Hta Htb. rewrite Forall_forall in Hnum.
  rewrite before_newestFirst by auto.
  apply Z.eqb_eq in Hta, Htb. apply Z.leb_le. lia.
Qed.

(** Two lists that are newest first and hold, for every timestamp, the same
    events in the same order are the same list: being sorted and stable
    fixes the result of the sort. *)
Lemma at_time_cons_same : forall a l,
  at_time (timeOf a) (a :: l) = a :: at_time (timeOf a) l.
Proof. intros a l. unfold at_time. simpl. rewrite Z.eqb_refl. reflexivity. Qed.

Lemma at_time_cons_other : forall a l t,
  timeOf a <> t -> at_time t (a :: l) = at_time t l.
Proof.
  intros a l t Hne. unfold at_time. simpl.
  apply Z.eqb_neq in Hne. rewrite Hne. reflexivity.
Qed.

Lemma at_time_In : forall a l t, In a (at_time t l) -> In a l.
Proof. intros a l t H. unfold at_time in H. apply filter_In in H. tauto. Qed.

Lemma newest_first_stable_unique : forall l1 l2,
  StronglySorted notOlder l1 ->
  StronglySorted notOlder l2 ->
  (forall t, at_time t l1 = at_time t l2) ->
  l1 = l2.
Proof.
  induction l1 as [|a l1 IH]; intros l2 Hs1 Hs2 Hsame.
  - destruct l2 as [|b l2]; [reflexivity|].
    specialize (Hsame (timeOf b)). rewrite at_time_cons_same in Hsame.
    discriminate.
  - destruct l2 as [|b l2].
    { specialize (Hsame (timeOf a)). rewrite at_time_cons_same in Hsame.
      discriminate. }
    inversion Hs1 as [|? ? Hs1' Ha]; subst.
    inversion Hs2 as [|? ? Hs2' Hb]; subst.
    rewrite Forall_forall in Ha, Hb.
    assert (timeOf a = timeOf b) as Htime.
    { assert (timeOf a <= timeOf b) as Hle.
      { assert (In a (b :: l2)) as Hin.
        { apply at_time_In with (t := timeOf a). rewrite <- Hsame.
          rewrite at_time_cons_same. left. reflexivity. }
        destruct Hin as [->|Hin]; [lia|]. apply Hb. exact Hin. }
      assert (timeOf b <= timeOf a) as Hge.
      { assert (In b (a :: l1)) as Hin.
        { apply at_time_In with (t := timeOf b). rewrite Hsame.
          rewrite at_time_cons_same. left. reflexivity. }
        destruct Hin as [->|Hin]; [lia|]. apply Ha. exact Hin. }
      lia. }
    pose proof (Hsame (timeOf a)) as Hhead.
    rewrite at_time_cons_same, Htime, at_time_cons_same in Hhead.
    injection Hhead as -> Htail. f_equal.
    apply IH; auto. intros t.
    destruct (Z.eq_dec (timeOf b) t) as [<-|Hne]; [exact Htail|].
    specialize (Hsame t).
    rewrite !at_time_cons_other in Hsame by exact Hne. exact Hsame.
Qed.

(** Case analysis on every test of a goal, outermost first. *)
Ltac by_branches :=
  repeat (cbn [bind];
          match goal with
          | |- context [if ?c then _ else _] => destruct c
          end);
  cbn [bind].

(** A branch that ends in [dropped.r++; continue]. *)
Ltac dropped_here :=
  let H := fresh in
  intros H; injection H as <-; simpl; rewrite ?total_incr; auto.

(** What one record does to the chat list, the tile list and the counts
    does not depend on what was classified before it. *)
Lemma classifyComponent_effect : forall lastUpdate l entry l',
  classifyComponent lastUpdate l entry = Return l' ->
  Updates.chat (updates l') = Updates.chat (updates l) /\
  Updates.tiles (updates l') = Updates.tiles (updates l) /\
  (accepted l' + Dropped.total (dropped l')
   = S (accepted l + Dropped.total (dropped l)))%nat.
Proof.
  intros lastUpdate l entry l'. unfold classifyComponent.
  destruct (olderThanSet lastUpdate _) as [[|]|]; cbn [bind];
    [dropped_here| |discriminate].
  destruct (negb (truthy (prop entry "id"))); [dropped_here|].
  destruct (receiver (prop entry "msg")) as [msg|]; simpl; [|discriminate].
  destruct (negb (truthy _)); [dropped_here|].
  destruct (negb (is_str _ _)); [dropped_here|].
  destruct (JsMap.get _ _) as [b|]; [|discriminate].
  destruct (fileUpdate _ _ _ _ _) as [b'|]; simpl; [|discriminate].
  intros H. injection H as <-. simpl. auto.
Qed.

Lemma classifyComponent_chatOf : forall lastUpdate entry,
  match classifyComponent lastUpdate initialLocals entry with
  | Return l => Updates.chat (updates l)
  | Throw _ => []
  end = [].
Proof.
  intros lastUpdate entry.
  destruct (classifyComponent lastUpdate initialLocals entry) as [l|] eqn:E; auto.
  apply classifyComponent_effect in E. destruct E as [-> _]. reflexivity.
Qed.

Lemma classifyEntry_chat : forall lastUpdate l entry l',
  classifyEntry lastUpdate l entry = Return l' ->
  Updates.chat (updates l')
  = (Updates.chat (updates l) ++ chatOf lastUpdate entry)%list.
Proof.
  intros lastUpdate l entry l'. unfold chatOf, classifyEntry.
  destruct (nullish entry); [discriminate|]. cbv zeta.
  destruct (is_str (prop entry "type") "component").
  { intros H. rewrite classifyComponent_chatOf, app_nil_r.
    apply classifyComponent_effect in H. tauto. }
  unfold classifyChat, classifyPresence, classifyTile, olderThanSet, lessThan.
  by_branches; intros H; try discriminate; injection H as <-; simpl;
    rewrite ?app_nil_r; reflexivity.
Qed.

Lemma classify_chat : forall lastUpdate data l l',
  classify lastUpdate l data = Return l' ->
  Updates.chat (updates l')
  = (Updates.chat (updates l) ++ arrivedChat lastUpdate data)%list.
Proof.
  intros lastUpdate data. unfold arrivedChat.
  induction data as [|entry data IH]; intros l l'; simpl.
  - intros H. injection H as <-. rewrite app_nil_r. reflexivity.
  - destruct (classifyEntry lastUpdate l entry) as [l1|] eqn:E; simpl; [|discriminate].
    intros H. apply IH in H. rewrite H.
    rewrite (classifyEntry_chat _ _ _ _ E), app_assoc. reflexivity.
Qed.

(** Whenever a record is classified without an error it is counted exactly
    once: as accepted, as a chat event, or under one drop reason. *)
Lemma classifyEntry_counts_once : forall lastUpdate l entry l',
  classifyEntry lastUpdate l entry = Return l' ->
  (accepted l' + Dropped.total (dropped l') + List.length (Updates.chat (updates l'))
   = S (accepted l + Dropped.total (dropped l) + List.length (Updates.chat (updates l))))%nat.
Proof.
  intros lastUpdate l entry l'. unfold classifyEntry.
  destruct (nullish entry); [discriminate|]. cbv zeta.
  destruct (is_str (prop entry "type") "component").
  { intros H. apply classifyComponent_effect in H.
    destruct H as (-> & _ & H). lia. }
  unfold classifyChat, classifyPresence, classifyTile, olderThanSet, lessThan.
  by_branches; intros H; try discriminate; injection H as <-; simpl;
    rewrite ?total_incr, ?length_app; simpl; lia.
Qed.

Lemma classify_counts_once : forall lastUpdate data l l',
  classify lastUpdate l data = Return l' ->
  (accepted l' + Dropped.total (dropped l') + List.length (Updates.chat (updates l'))
   = List.length data
     + (accepted l + Dropped.total (dropped l) + List.length (Updates.chat (updates l))))%nat.
Proof.
  intros lastUpdate data. induction data as [|entry data IH]; intros l l'; simpl.
  - intros H. injection H as <-. reflexivity.
  - destruct (classifyEntry lastUpdate l entry) as [l1|] eqn:E; simpl; [|discriminate].
    intros H. apply IH in H. apply classifyEntry_counts_once in E. lia.
Qed.

(** The classifier throws on nothing but a record that is [null] or
    [undefined], a string method called on a field that is not a string,
    and a comparison of a value that does not convert: on records with
    [stringFields] it returns, and every record of the batch is counted
    exactly once. *)
Lemma markerDimensions_returns : forall entry,
  dimIsString entry -> exists d, markerDimensions (prop entry "dim") = Return d.
Proof.
  intros entry [Hdim|[dim Hdim]]; unfold markerDimensions.
  - rewrite Hdim. eexists. reflexivity.
  - rewrite Hdim. destruct (truthy (JStr dim)); eexists; reflexivity.
Qed.

Lemma zoomBounds_return : forall entry,
  zoomsConvert entry ->
  exists minZoom maxZoom,
    zoomBound (prop entry "minzoom") = Return minZoom /\
    zoomBound (prop entry "maxzoom") = Return maxZoom.
Proof.
  intros entry [Hmin Hmax].
  destruct (zoomBound_convertible _ Hmin) as [minZoom ->].
  destruct (zoomBound_convertible _ Hmax) as [maxZoom ->].
  eexists. eexists. split; reflexivity.
Qed.

Lemma builders_return : forall entry,
  zoomsConvert entry ->
  (forall id, exists payload, buildMarkerSet id entry = Return payload) /\
  (exists payload, buildArea entry = Return payload) /\
  (exists payload, buildLine entry = Return payload) /\
  (exists payload, buildCircle entry = Return payload) /\
  (dimIsString entry -> exists payload, buildMarker entry = Return payload).
Proof.
  intros entry Hzoom.
  destruct (zoomBounds_return entry Hzoom) as (minZoom & maxZoom & Hmin & Hmax).
  unfold buildMarkerSet, buildArea, buildLine, buildCircle, buildMarker.
  rewrite Hmin, Hmax. cbn [bind].
  repeat split; try (intros; eexists; reflexivity).
  intros Hdim. destruct (markerDimensions_returns entry Hdim) as [d ->].
  cbn [bind]. eexists. reflexivity.
Qed.

Lemma fileUpdate_returns : forall set entry msg removed b,
  dimIsString entry -> zoomsConvert entry ->
  exists b', fileUpdate set entry msg removed b = Return b'.
Proof.
  intros set entry msg removed [areaU markerU lineU circleU r pl] Hfields Hzoom.
  destruct (builders_return entry Hzoom)
    as (Hset & [area Harea] & [line Hline] & [circle Hcircle] & Hmarker).
  destruct (Hset set) as [payload Hpayload].
  destruct (Hmarker Hfields) as [marker Hmarker'].
  unfold fileUpdate. rewrite Hpayload, Harea, Hline, Hcircle, Hmarker'.
  by_branches; eexists; reflexivity.
Qed.

Lemma classifyEntry_returns : forall lastUpdate l entry,
  stringFields entry -> exists l', classifyEntry lastUpdate l entry = Return l'.
Proof.
  intros lastUpdate l entry (Hobj & Hts & Hcomponent).
  unfold classifyEntry. rewrite Hobj. cbv zeta.
  destruct (is_str (prop entry "type") "component").
  2: { unfold classifyChat, classifyPresence, classifyTile.
       rewrite !olderThanSet_convertible, !lessThan_convertible by exact Hts.
       by_branches; eexists; reflexivity. }
  destruct (Hcomponent eq_refl) as ([msg Hmsg] & Hfields & Hzoom).
  unfold classifyComponent.
  rewrite olderThanSet_convertible, Hmsg by exact Hts. cbn [receiver bind].
  destruct (isSet lastUpdate && _); [eexists; reflexivity|].
  destruct (negb (truthy (prop entry "id"))); [eexists; reflexivity|].
  destruct (negb (truthy _)); [eexists; reflexivity|].
  destruct (negb (is_str _ _)); [eexists; reflexivity|].
  match goal with
  | |- context [JsMap.get ?k ?m] =>
      assert (exists b, JsMap.get k m = Some b) as [b ->]
  end.
  { destruct (JsMap.has _ _) eqn:Hhas.
    - apply has_get_Some. exact Hhas.
    - rewrite get_set_same. eexists. reflexivity. }
  match goal with
  | |- context [fileUpdate ?s ?e ?m ?r ?b] =>
      destruct (fileUpdate_returns s e m r b Hfields Hzoom) as [b' ->]
  end.
  eexists. reflexivity.
Qed.

Lemma buildUpdates_returns : forall lastUpdate data,
  Forall stringFields data ->
  exists l,
    buildUpdates lastUpdate data = Return l /\
    (accepted l + Dropped.total (dropped l) + List.length (Updates.chat (updates l))
     = List.length data)%nat.
Proof.
  intros lastUpdate data Hall.
  assert (forall l, exists l', classify lastUpdate l data = Return l') as Hruns.
  { induction Hall as [|entry data Hentry _ IH]; intros l; simpl.
    - eexists. reflexivity.
    - destruct (classifyEntry_returns lastUpdate l entry Hentry) as [l1 ->].
      apply IH. }
  destruct (Hruns initialLocals) as [l Hrun].
  unfold buildUpdates. rewrite Hrun. cbn [bind]. eexists. split; [reflexivity|].
  cbn [updates dropped accepted Updates.chat].
  apply classify_counts_once in Hrun. simpl in Hrun.
  rewrite <- (Permutation_length (sortWith_perm newestFirst _)). lia.
Qed.

(** The buckets that the classifier returns list each set once. *)
Lemma classifyEntry_wellFormed : forall lastUpdate l entry l',
  classifyEntry lastUpdate l entry = Return l' ->
  wellFormed (Updates.markerSets (updates l)) ->
  wellFormed (Updates.markerSets (updates l')).
Proof.
  intros lastUpdate l entry l'. unfold classifyEntry.
  destruct (nullish entry); [discriminate|]. cbv zeta.
  destruct (is_str (prop entry "type") "component").
  - unfold classifyComponent.
    destruct (olderThanSet lastUpdate _) as [[|]|]; cbn [bind];
      [intros H; injection H as <-; auto| |discriminate].
    destruct (negb (truthy (prop entry "id"))); [intros H; injection H as <-; auto|].
    destruct (receiver (prop entry "msg")) as [msg|]; cbn [bind]; [|discriminate].
    destruct (negb (truthy _)); [intros H; injection H as <-; auto|].
    destruct (negb (is_str _ _)); [intros H; injection H as <-; auto|].
    destruct (JsMap.get _ _) as [b|]; [|discriminate].
    destruct (fileUpdate _ _ _ _ _) as [b'|]; cbn [bind]; [|discriminate].
    intros H Hwf. injection H as <-. cbn [updates withMarkerSets Updates.markerSets].
    apply wellFormed_set.
    destruct (JsMap.has _ _); [exact Hwf|apply wellFormed_set; exact Hwf].
  - unfold classifyChat, classifyPresence, classifyTile, olderThanSet, lessThan.
    by_branches; intros H; try discriminate; injection H as <-; auto.
Qed.

Lemma buildUpdates_wellFormed : forall lastUpdate data l,
  buildUpdates lastUpdate data = Return l ->
  wellFormed (Updates.markerSets (updates l)).
Proof.
  intros lastUpdate data l. unfold buildUpdates.
  destruct (classify lastUpdate initialLocals data) as [l0|] eqn:Hrun;
    cbn [bind]; [|discriminate].
  intros H. injection H as <-. cbn [updates Updates.markerSets].
  assert (forall data l l', classify lastUpdate l data = Return l' ->
            wellFormed (Updates.markerSets (updates l)) ->
            wellFormed (Updates.markerSets (updates l'))) as Hkeep.
  { clear. induction data as [|entry data IH]; intros l l'; simpl.
    - intros H. injection H as <-. auto.
    - destruct (classifyEntry lastUpdate l entry) as [l1|] eqn:E;
        cbn [bind]; [|discriminate].
      intros H Hwf. eapply IH; [exact H|].
      eapply classifyEntry_wellFormed; eauto. }
  eapply Hkeep; [exact Hrun|reflexivity].
Qed.

(** Whenever a record is classified without an error, the chat list grows
    by the event specified for the record, if there is one. *)
Lemma classifyEntry_specified : forall lastUpdate l entry l',
  classifyEntry lastUpdate l entry = Return l' ->
  Updates.chat (updates l')
  = (Updates.chat (updates l)
     ++ match specifiedEvent lastUpdate entry with
        | Some event => [event]
        | None => []
        end)%list.
Proof.
  intros lastUpdate l entry l'. unfold classifyEntry, specifiedEvent.
  destruct (nullish entry); [discriminate|]. cbv zeta.
  destruct (is_str (prop entry "type") "component") eqn:Hc.
  { intros H. unfold is_str in Hc.
    destruct (prop entry "type") as [| | | |type| | |]; try discriminate.
    apply String.eqb_eq in Hc. subst type. cbn. rewrite app_nil_r.
    apply classifyComponent_effect in H. tauto. }
  clear Hc. unfold is_str. destruct (prop entry "type") as [| | | |type| | |];
    try (intros H; injection H as <-; cbn; rewrite app_nil_r; reflexivity).
  destruct (String.eqb type "chat").
  { unfold classifyChat, lessThan, hasField, olderThanWatermark, lt_number,
      fromPlayerOrWeb, optionalField, hasField, js_or, is_str.
    destruct (truthy (prop entry "message")); cbn [negb orb andb];
      [|intros H; injection H as <-; cbn; rewrite app_nil_r; reflexivity].
    destruct (truthy (prop entry "timestamp")); cbn [negb orb andb];
      [|intros H; injection H as <-; cbn; rewrite app_nil_r; reflexivity].
    destruct (convertible (prop entry "timestamp")); cbn [bind]; [|discriminate].
    destruct (to_number (prop entry "timestamp")) as [t|];
      [destruct (t <? timeValue lastUpdate)|]; cbn [negb andb];
      try (intros H; injection H as <-; cbn; rewrite app_nil_r; reflexivity);
      (destruct (prop entry "source") as [| | | |source| | |]; cbn [negb andb];
       try (intros H; injection H as <-; cbn; rewrite app_nil_r; reflexivity));
      (destruct (String.eqb source "player") eqn:Hp;
       [|destruct (String.eqb source "web") eqn:Hw]; cbn [negb andb orb];
       try (intros H; injection H as <-; cbn; rewrite app_nil_r; reflexivity));
      intros H; injection H as <-; cbn [updates pushChat Updates.chat truthy];
      [apply String.eqb_eq in Hp|apply String.eqb_eq in Hw|
       apply String.eqb_eq in Hp|apply String.eqb_eq in Hw]; subst source;
      reflexivity. }
  assert (forall tag,
            classifyPresence tag lastUpdate l entry = Return l' ->
            Updates.chat (updates l')
            = (Updates.chat (updates l)
               ++ (if hasField entry "account" && hasField entry "timestamp"
                      && negb (olderThanWatermark lastUpdate entry)
                   then [tag (prop entry "account") (nameField entry)
                             (prop entry "timestamp")]
                   else []))%list) as Hpresence.
  { intros tag. unfold classifyPresence, lessThan, hasField, olderThanWatermark,
      lt_number, nameField, hasField, js_or.
    destruct (truthy (prop entry "account")); cbn [negb orb andb];
      [|intros H; injection H as <-; cbn; rewrite app_nil_r; reflexivity].
    destruct (truthy (prop entry "timestamp")); cbn [negb orb andb];
      [|intros H; injection H as <-; cbn; rewrite app_nil_r; reflexivity].
    destruct (convertible (prop entry "timestamp")); cbn [bind]; [|discriminate].
    destruct (to_number (prop entry "timestamp")) as [t|];
      [destruct (t <? timeValue lastUpdate)|]; cbn [negb andb];
      intros H; injection H as <-; cbn; rewrite ?app_nil_r; reflexivity. }
  destruct (String.eqb type "playerjoin"); cbn [orb].
  { intros H. rewrite (Hpresence _ H). destruct (_ && _); reflexivity. }
  destruct (String.eqb type "playerquit").
  { intros H. rewrite (Hpresence _ H). destruct (_ && _); reflexivity. }
  unfold classifyTile, olderThanSet, lessThan.
  by_branches; intros H; try discriminate; injection H as <-; cbn;
    rewrite ?app_nil_r; reflexivity.
Qed.

Lemma classify_specified : forall lastUpdate data l l',
  classify lastUpdate l data = Return l' ->
  Updates.chat (updates l')
  = (Updates.chat (updates l) ++ specifiedEvents lastUpdate data)%list.
Proof.
  intros lastUpdate data. unfold specifiedEvents.
  induction data as [|entry data IH]; intros l l'; simpl.
  - intros H. injection H as <-. rewrite app_nil_r. reflexivity.
  - destruct (classifyEntry lastUpdate l entry) as [l1|] eqn:E; simpl; [|discriminate].
    intros H. apply IH in H. rewrite H.
    rewrite (classifyEntry_specified _ _ _ _ E), app_assoc. reflexivity.
Qed.

(** The timestamps of the events that the classifier hands to the sort were
    compared with the watermark, so the subtraction of the comparator
    converts them without an error. *)
Lemma sorted_timestamps_convert : forall lastUpdate data l,
  classify lastUpdate initialLocals data = Return l ->
  Forall (fun event => convertible (chatTimestamp event) = true)
         (Updates.chat (updates l)).
Proof.
  intros lastUpdate data.
  assert (forall entry l l',
            classifyEntry lastUpdate l entry = Return l' ->
            Forall (fun event => convertible (chatTimestamp event) = true)
                   (Updates.chat (updates l)) ->
            Forall (fun event => convertible (chatTimestamp event) = true)
                   (Updates.chat (updates l'))) as Hstep.
  { intros entry l l'. unfold classifyEntry.
    destruct (nullish entry); [discriminate|]. cbv zeta.
    destruct (is_str (prop entry "type") "component").
    { intros H. apply classifyComponent_effect in H. destruct H as [-> _]. auto. }
    unfold classifyChat, classifyPresence, classifyTile, olderThanSet, lessThan.
    destruct (convertible (prop entry "timestamp")) eqn:Hts;
      by_branches; intros H; try discriminate; injection H as <-;
      cbn [updates drop pushChat pushTile Updates.chat]; intros Hall;
      try exact Hall; apply Forall_app; (split; [exact Hall|]);
      (apply Forall_cons; [|apply Forall_nil]); cbn [chatTimestamp];
      try exact Hts; unfold js_or; (destruct (truthy _); [exact Hts|reflexivity]). }
  assert (forall l l',
            classify lastUpdate l data = Return l' ->
            Forall (fun event => convertible (chatTimestamp event) = true)
                   (Updates.chat (updates l)) ->
            Forall (fun event => convertible (chatTimestamp event) = true)
                   (Updates.chat (updates l'))) as Hall.
  { induction data as [|entry data IH]; intros l l'; simpl.
    - intros H. injection H as <-. auto.
    - destruct (classifyEntry lastUpdate l entry) as [l1|] eqn:E; simpl;
        [|discriminate].
      intros H Hl. eapply IH; [exact H|]. eapply Hstep; eauto. }
  intros l H. eapply Hall; [exact H|]. constructor.
Qed.

(** C8, as stated, fails: of three chat lines with the timestamps 100,
    ['abc'] and 200, all accepted under the watermark 50, the list comes
    back in the order of arrival, the line at 100 before the line at 200.
    The difference of ['abc'] and a number is [NaN], which the sort reads as
    a tie. *)
Lemma unnumbered_timestamp_leaves_chat_unsorted :
  exists r,
    buildUpdates (AsNumber 50) unnumberedChatBatch = Return r /\
    Updates.chat (updates r) = specifiedEvents (AsNumber 50) unnumberedChatBatch /\
    map chatTimestamp (Updates.chat (updates r)) = [JNum 100; JStr "abc"; JNum 200] /\
    ~ StronglySorted notOlder (Updates.chat (updates r)).
Proof.
  eexists. split; [vm_compute; reflexivity|].
  split; [vm_compute; reflexivity|]. split; [vm_compute; reflexivity|].
  intros Hsorted. cbn [updates Updates.chat] in Hsorted.
  apply StronglySorted_inv in Hsorted. destruct Hsorted as [_ Hhead].
  apply Forall_inv_tail, Forall_inv in Hhead.
  unfold notOlder in Hhead. vm_compute in Hhead. apply Hhead. reflexivity.
Qed.

(** C8, amended.  For a batch whose specified events all have timestamps with
    a numeric value, the chat list that [buildUpdates] returns holds exactly
    the events specified for the chat, join and quit records of the batch,
    newest first, and events with equal timestamps stand in the order in
    which their records arrived. *)
Theorem chat_newest_first_stable : forall lastUpdate data r,
  buildUpdates lastUpdate data = Return r ->
  Forall numericTimestamp (specifiedEvents lastUpdate data) ->
  Permutation (specifiedEvents lastUpdate data) (Updates.chat (updates r)) /\
  StronglySorted notOlder (Updates.chat (updates r)) /\
  forall t, at_time t (Updates.chat (updates r))
            = at_time t (specifiedEvents lastUpdate data).
Proof.
  intros lastUpdate data r. unfold buildUpdates.
  destruct (classify lastUpdate initialLocals data) as [l|] eqn:E; simpl; [|discriminate].
  intros H. injection H as <-. simpl.
  apply classify_specified in E. simpl in E. rewrite E.
  intros Hnum.
  split; [apply sortWith_perm|]. split.
  - apply sortWith_newestFirst_sorted. exact Hnum.
  - intros t. apply sortWith_newestFirst_stable. exact Hnum.
Qed.

(** ** The store: marker sets and their pending queues *)

Section ForOf.
Context {A : Type} (body : State -> A -> Outcome).

(** A property of the store that every iteration keeps is kept by the
    loop, also when the loop is cut short by an error. *)
Lemma forOf_preserves : forall (P : State -> Prop) (Q : A -> Prop),
  (forall st a, Q a -> P st -> P (after (body st a))) ->
  forall l st, Forall Q l -> P st -> P (after (forOf body st l)).
Proof.
  intros P Q Hstep. induction l as [|a l IH]; intros st Hall HP; simpl.
  - exact HP.
  - inversion Hall as [|? ? Ha Hl]; subst. unfold andThen.
    destruct (thrown (body st a)); simpl.
    + apply Hstep; assumption.
    + apply IH; [exact Hl|]. apply Hstep; assumption.
Qed.

(** If moreover no iteration throws where the property holds, neither
    does the loop. *)
Lemma forOf_no_throw : forall (P : State -> Prop) (Q : A -> Prop),
  (forall st a, Q a -> P st -> P (after (body st a)) /\ thrown (body st a) = None) ->
  forall l st, Forall Q l -> P st ->
    P (after (forOf body st l)) /\ thrown (forOf body st l) = None.
Proof.
  intros P Q Hstep. induction l as [|a l IH]; intros st Hall HP; simpl.
  - split; [exact HP|reflexivity].
  - inversion Hall as [|? ? Ha Hl]; subst. unfold andThen.
    destruct (Hstep st a Ha HP) as [HP' Hok]. rewrite Hok. simpl.
    apply IH; assumption.
Qed.
End ForOf.

(** A bucket for one set does not touch the presence of another. *)
Lemma addMarkerSetUpdate_other : forall st entry key,
  fst entry <> key ->
  JsMap.has key (markerSets (after (addMarkerSetUpdate st entry)))
  = JsMap.has key (markerSets st) /\
  JsMap.has key (pendingSetUpdates (after (addMarkerSetUpdate st entry)))
  = JsMap.has key (pendingSetUpdates st).
Proof.
  intros st [k u] key Hne. simpl in Hne.
  apply jsval_eqb_neq in Hne.
  unfold addMarkerSetUpdate, updateExistingSet. simpl fst. simpl snd.
  destruct (JsMap.get k (markerSets st)) as [set|].
  - destruct (truthy (SetUpdates.removed u)); simpl.
    + rewrite !has_delete, Hne. auto.
    + destruct (JsMap.get k (pendingSetUpdates st)); simpl;
        rewrite ?has_set, ?Hne; auto.
  - destruct (truthy (SetUpdates.payload u)); simpl; [|auto].
    destruct (truthy (SetUpdates.removed u)); simpl.
    + rewrite !has_delete, !has_set, Hne. auto.
    + rewrite get_set_same. simpl. rewrite !has_set, Hne. auto.
Qed.

(** A bucket without a set-level payload for a set that does not exist is
    skipped with a warning. *)
Lemma addMarkerSetUpdate_anomaly : forall st key u,
  JsMap.has key (markerSets st) = false ->
  truthy (SetUpdates.payload u) = false ->
  addMarkerSetUpdate st (key, u)
  = warn ("ADD_MARKER_SET_UPDATES: Marker set " ++ to_string key ++ " doesn't exist") st.
Proof.
  intros st key u Habsent Hpayload. unfold addMarkerSetUpdate. simpl fst. simpl snd.
  unfold JsMap.has in Habsent.
  destruct (JsMap.get key (markerSets st)); [discriminate|].
  rewrite Hpayload. reflexivity.
Qed.

Lemma no_set_from_entity_updates : forall st key updates,
  JsMap.has key (markerSets st) = false ->
  (forall u, In (key, u) updates -> truthy (SetUpdates.payload u) = false) ->
  JsMap.has key (markerSets (after (ADD_MARKER_SET_UPDATES st updates))) = false.
Proof.
  intros st key updates Habsent Hpayload. unfold ADD_MARKER_SET_UPDATES.
  apply forOf_preserves with
    (P := fun st => JsMap.has key (markerSets st) = false)
    (Q := fun entry => In entry updates); auto.
  - intros st' [k u] Hin HP.
    destruct (jsval_eq_dec k key) as [->|Hne].
    + rewrite addMarkerSetUpdate_anomaly; auto.
    + destruct (addMarkerSetUpdate_other st' (k, u) key Hne) as [-> _]. exact HP.
  - apply Forall_forall. auto.
Qed.

(** Under [inSync] a bucket is applied without an error and leaves the
    store [inSync]. *)
Lemma addMarkerSetUpdate_inSync : forall st entry,
  inSync st ->
  inSync (after (addMarkerSetUpdate st entry)) /\
  thrown (addMarkerSetUpdate st entry) = None.
Proof.
  intros st [k u] Hsync.
  unfold addMarkerSetUpdate, updateExistingSet. simpl fst. simpl snd.
  destruct (JsMap.get k (markerSets st)) as [set|] eqn:Hget.
  - destruct (truthy (SetUpdates.removed u)); simpl.
    + split; [|reflexivity]. intros k'. simpl. rewrite !has_delete, Hsync. reflexivity.
    + destruct (has_get_Some (pendingSetUpdates st) k) as [q Hq].
      { rewrite Hsync. eapply get_Some_has; eauto. }
      rewrite Hq. simpl. split; [|reflexivity].
      intros k'. simpl. rewrite !has_set, Hsync. reflexivity.
  - destruct (truthy (SetUpdates.payload u)); simpl.
    + destruct (truthy (SetUpdates.removed u)); simpl.
      * split; [|reflexivity]. intros k'. simpl.
        rewrite !has_delete, !has_set, Hsync. reflexivity.
      * rewrite get_set_same. simpl. split; [|reflexivity].
        intros k'. simpl. rewrite !has_set, Hsync. reflexivity.
    + split; [exact Hsync|reflexivity].
Qed.

Lemma ADD_MARKER_SET_UPDATES_inSync : forall updates st,
  inSync st ->
  inSync (after (ADD_MARKER_SET_UPDATES st updates)) /\
  thrown (ADD_MARKER_SET_UPDATES st updates) = None.
Proof.
  intros updates st Hsync. unfold ADD_MARKER_SET_UPDATES.
  apply forOf_no_throw with (P := inSync) (Q := fun _ => True); auto.
  - intros st' entry _ H. apply addMarkerSetUpdate_inSync. exact H.
  - apply Forall_forall. auto.
Qed.

(** C3, as stated, fails: on the store before the first fetch the record
    [{type: 'component', msg: 'setupdated', id: 's1'}] is dropped without
    any anomaly being written, because the classifier rejects it and no
    bucket reaches the store. *)
Lemma setUpdatedS1_logs_no_anomaly :
  JsMap.has (JStr "s1") (markerSets (freshState (AsNumber 0))) = false /\
  ~ droppedWithAnomaly (freshState (AsNumber 0)) setUpdatedS1 (JStr "s1").
Proof.
  split; [reflexivity|].
  intros (l & Hrun & Hwarn & _). vm_compute in Hrun. injection Hrun as <-.
  apply Hwarn. reflexivity.
Qed.

(** The same record with [ctype: 'markers'] does reach the store, with the
    payload that [buildMarkerSet] fills with defaults, and creates [s1]. *)
Lemma setUpdatedS1Markers_creates_set :
  exists l,
    buildUpdates (AsNumber 0) [setUpdatedS1Markers] = Return l /\
    JsMap.has (JStr "s1")
      (markerSets (after (ADD_MARKER_SET_UPDATES (freshState (AsNumber 0))
                            (Updates.markerSets (updates l))))) = true.
Proof. eexists. split; vm_compute; reflexivity. Qed.

(** C3, amended.  While the set [s1] does not exist: the record
    [{type: 'component', msg: 'setupdated', id: 's1'}], which has no
    [ctype], is rejected by the classifier under [unknownCType] and yields
    no bucket, so committing its buckets changes nothing, writes nothing and
    leaves [s1] absent; a bucket for [s1] that has no set-level payload is
    skipped with a warning and the store is left as it was; and no batch of
    buckets whose bucket for [s1] has no set-level payload creates [s1]. *)
Theorem set_not_created_without_payload : forall st,
  JsMap.has (JStr "s1") (markerSets st) = false ->
  (exists l,
     buildUpdates (updateTimestamp st) [setUpdatedS1] = Return l /\
     rejectedOnceAs Reason.unknownCType initialLocals l /\
     ADD_MARKER_SET_UPDATES st (Updates.markerSets (updates l)) = done st /\
     JsMap.has (JStr "s1")
       (markerSets (after (ADD_MARKER_SET_UPDATES st (Updates.markerSets (updates l)))))
     = false) /\
  (forall u, truthy (SetUpdates.payload u) = false ->
     addMarkerSetUpdate st (JStr "s1", u)
     = warn "ADD_MARKER_SET_UPDATES: Marker set s1 doesn't exist" st) /\
  (forall updates,
     (forall u, In (JStr "s1", u) updates -> truthy (SetUpdates.payload u) = false) ->
     JsMap.has (JStr "s1") (markerSets (after (ADD_MARKER_SET_UPDATES st updates)))
     = false).
Proof.
  intros st Habsent. split; [|split].
  - exists (drop Reason.unknownCType initialLocals). split; [|split; [|split]].
    + unfold buildUpdates. simpl classify.
      unfold classifyEntry, classifyComponent, olderThanSet. simpl.
      destruct (isSet (updateTimestamp st)); reflexivity.
    + apply drop_rejectedOnceAs.
    + reflexivity.
    + exact Habsent.
  - intros u Hpayload. apply (addMarkerSetUpdate_anomaly st (JStr "s1") u); assumption.
  - intros updates Hpayload. apply no_set_from_entity_updates; assumption.
Qed.

(** On the store before the first fetch a bucket for [s1] without a
    set-level payload does not create [s1]. *)
Lemma set_not_created_without_payload_witness :
  JsMap.has (JStr "s1") (markerSets (freshState (AsNumber 0))) = false /\
  JsMap.has (JStr "s1")
    (markerSets (after (ADD_MARKER_SET_UPDATES (freshState (AsNumber 0))
                          [(JStr "s1", emptySetUpdates)]))) = false.
Proof.
  split; [reflexivity|].
  apply (set_not_created_without_payload (freshState (AsNumber 0))).
  - reflexivity.
  - intros u [Hu|[]]. injection Hu as <-. reflexivity.
Defined.

(** ** Redelivery of a batch below the watermark *)

Lemma classify_belowWatermark : forall lastUpdate data l,
  Forall (belowWatermark lastUpdate) data ->
  exists l',
    classify lastUpdate l data = Return l' /\
    updates l' = updates l /\
    accepted l' = accepted l /\
    Dropped.total (dropped l') = (List.length data + Dropped.total (dropped l))%nat.
Proof.
  intros lastUpdate data. induction data as [|entry data IH]; intros l Hall; simpl.
  - exists l. auto.
  - inversion Hall as [|? ? Hentry Hdata]; subst.
    rewrite (classifyEntry_belowWatermark _ _ l Hentry). simpl.
    destruct (IH (drop (reasonBelowWatermark entry) l) Hdata)
      as (l' & Hrun & Hupd & Hacc & Htotal).
    exists l'. repeat split; auto.
    rewrite Htotal. simpl. rewrite total_incr. lia.
Qed.

Lemma ADD_TILE_UPDATES_nil : forall st, ADD_TILE_UPDATES st [] = st.
Proof. intros []. unfold ADD_TILE_UPDATES. simpl. rewrite app_nil_r. reflexivity. Qed.

Lemma ADD_CHAT_nil : forall st, ADD_CHAT st [] = st.
Proof. intros []. reflexivity. Qed.

(** C4.  When every record of a batch carries a timestamp strictly below
    the watermark of the store, classification rejects every record and
    returns empty delta buckets, an empty tile list and an empty chat list,
    and committing them leaves the store (marker sets with their entity
    maps, pending queues, pending tiles, chat history) exactly as it was. *)
Theorem redelivered_batch_mutates_nothing : forall st data,
  Forall (belowWatermark (updateTimestamp st)) data ->
  exists l,
    buildUpdates (updateTimestamp st) data = Return l /\
    updates l = Updates.make [] [] [] /\
    accepted l = 0%nat /\
    Dropped.total (dropped l) = List.length data /\
    ADD_MARKER_SET_UPDATES st (Updates.markerSets (updates l)) = done st /\
    ADD_TILE_UPDATES st (Updates.tiles (updates l)) = st /\
    ADD_CHAT st (Updates.chat (updates l)) = st.
Proof.
  intros st data Hall.
  destruct (classify_belowWatermark _ _ initialLocals Hall)
    as (l' & Hrun & Hupd & Hacc & Htotal).
  unfold buildUpdates. rewrite Hrun. simpl. rewrite Hupd. simpl.
  eexists. split; [reflexivity|]. simpl.
  repeat split; auto.
  - rewrite Htotal. change (Dropped.total (dropped initialLocals)) with 0%nat. lia.
  - apply ADD_TILE_UPDATES_nil.
  - apply ADD_CHAT_nil.
Qed.

(** The batch of complete records from before the time 50 is delivered
    again to the populated store, whose watermark stands at 50: all five
    records are rejected and the store stays as it is. *)
Lemma redelivered_batch_mutates_nothing_witness :
  Forall (belowWatermark (updateTimestamp populatedStore)) redeliveredBatch /\
  exists l,
    buildUpdates (updateTimestamp populatedStore) redeliveredBatch = Return l /\
    updates l = Updates.make [] [] [] /\
    accepted l = 0%nat /\
    Dropped.total (dropped l) = List.length redeliveredBatch /\
    ADD_MARKER_SET_UPDATES populatedStore (Updates.markerSets (updates l))
    = done populatedStore /\
    ADD_TILE_UPDATES populatedStore (Updates.tiles (updates l)) = populatedStore /\
    ADD_CHAT populatedStore (Updates.chat (updates l)) = populatedStore.
Proof.
  assert (Forall (belowWatermark (updateTimestamp populatedStore)) redeliveredBatch)
    as Hall.
  { repeat constructor; eexists; (split; [reflexivity|simpl; lia]). }
  split; [exact Hall|].
  exact (redelivered_batch_mutates_nothing populatedStore redeliveredBatch Hall).
Defined.

(** The same batch is not empty of content: while the watermark stood at 20
    the classifier accepted the marker and the tile, returned the three chat
    events, and committing them changed the marker set, the tile list and
    the chat history of the store; under the watermark 50 all five records
    are counted as stale. *)
Example redelivered_batch_was_applied_before :
  (exists l,
     buildUpdates (AsNumber 20) redeliveredBatch = Return l /\
     accepted l = 2%nat /\
     Dropped.total (dropped l) = 0%nat /\
     List.length (Updates.chat (updates l)) = 3%nat /\
     after (ADD_MARKER_SET_UPDATES populatedStore (Updates.markerSets (updates l)))
     <> populatedStore /\
     ADD_TILE_UPDATES populatedStore (Updates.tiles (updates l)) <> populatedStore /\
     ADD_CHAT populatedStore (Updates.chat (updates l)) <> populatedStore) /\
  (exists l,
     buildUpdates (AsNumber 50) redeliveredBatch = Return l /\
     Dropped.stale (dropped l) = 5%nat).
Proof.
  split.
  - eexists. split; [vm_compute; reflexivity|].
    repeat split; try (vm_compute; reflexivity); vm_compute; discriminate.
  - eexists. split; vm_compute; reflexivity.
Qed.

(** ** Removal of a marker set *)

Lemma addMarkerSetUpdate_removed : forall st key u,
  inSync st ->
  truthy (SetUpdates.removed u) = true ->
  JsMap.has key (markerSets (after (addMarkerSetUpdate st (key, u)))) = false /\
  JsMap.has key (pendingSetUpdates (after (addMarkerSetUpdate st (key, u)))) = false.
Proof.
  intros st key u Hsync Hremoved.
  unfold addMarkerSetUpdate, updateExistingSet. simpl fst. simpl snd.
  rewrite Hremoved.
  destruct (JsMap.get key (markerSets st)) as [set|] eqn:Hget; simpl.
  - rewrite !has_delete_same. auto.
  - destruct (truthy (SetUpdates.payload u)); simpl.
    + rewrite !has_delete_same. auto.
    + rewrite Hsync. apply get_None_has in Hget. auto.
Qed.

Lemma wellFormed_head : forall {V : Type} (m : JsMap V) k v k' v',
  wellFormed ((k, v) :: m) -> In (k', v') m -> k <> k'.
Proof.
  intros V m k v k' v' Hwf Hin Heq. subst k'.
  apply get_absent_tail in Hwf. apply get_None_has in Hwf.
  assert (JsMap.has k m = true) as Hhas.
  { apply has_In_keys. unfold JsMap.keys.
    change k with (fst (k, v')). apply in_map. exact Hin. }
  congruence.
Qed.

Lemma removed_bucket_deletes_set : forall updates st key u,
  wellFormed updates ->
  In (key, u) updates ->
  truthy (SetUpdates.removed u) = true ->
  inSync st ->
  thrown (ADD_MARKER_SET_UPDATES st updates) = None /\
  JsMap.has key (markerSets (after (ADD_MARKER_SET_UPDATES st updates))) = false /\
  JsMap.has key (pendingSetUpdates (after (ADD_MARKER_SET_UPDATES st updates))) = false.
Proof.
  intros updates st key u Hwf Hin Hremoved Hsync.
  split; [apply ADD_MARKER_SET_UPDATES_inSync; exact Hsync|].
  unfold ADD_MARKER_SET_UPDATES. revert st Hsync Hwf Hin.
  induction updates as [|[k0 u0] rest IH]; intros st Hsync Hwf Hin; [destruct Hin|].
  simpl. unfold andThen.
  destruct (addMarkerSetUpdate_inSync st (k0, u0) Hsync) as [Hsync1 Hok].
  rewrite Hok. simpl.
  destruct Hin as [Heq|Hin].
  - injection Heq as -> ->.
    apply forOf_preserves with
      (P := fun st => JsMap.has key (markerSets st) = false /\
                      JsMap.has key (pendingSetUpdates st) = false)
      (Q := fun entry => In entry rest).
    + intros st' [k' u'] Hin' [Hm Hp].
      assert (k' <> key) as Hne.
      { intros ->. eapply (wellFormed_head rest key u key u'); eauto. }
      destruct (addMarkerSetUpdate_other st' (k', u') key Hne) as [-> ->]. auto.
    + apply Forall_forall. auto.
    + apply addMarkerSetUpdate_removed; assumption.
  - apply IH; auto. eapply wellFormed_tail; eauto.
Qed.

(** C6.  When the bucket of a set that exists marks it as removed, the step
    that applies the bucket deletes the set from the marker sets and its
    entry from the pending queues and does nothing else: no entity update
    of the bucket is applied and no other set or queue changes.  After the
    whole batch the store holds neither the set nor a pending queue for
    it. *)
Theorem removed_set_leaves_no_queue : forall st key u set,
  JsMap.get key (markerSets st) = Some set ->
  truthy (SetUpdates.removed u) = true ->
  addMarkerSetUpdate st (key, u)
  = done (withMarkerSetsAndPending (JsMap.delete key (markerSets st))
            (JsMap.delete key (pendingSetUpdates st)) st) /\
  JsMap.get key (JsMap.delete key (markerSets st)) = None /\
  JsMap.get key (JsMap.delete key (pendingSetUpdates st)) = None /\
  (forall k, key <> k ->
     JsMap.get k (JsMap.delete key (markerSets st)) = JsMap.get k (markerSets st) /\
     JsMap.get k (JsMap.delete key (pendingSetUpdates st))
     = JsMap.get k (pendingSetUpdates st)) /\
  (forall updates,
     inSync st -> wellFormed updates -> In (key, u) updates ->
     thrown (ADD_MARKER_SET_UPDATES st updates) = None /\
     JsMap.has key (markerSets (after (ADD_MARKER_SET_UPDATES st updates))) = false /\
     JsMap.has key (pendingSetUpdates (after (ADD_MARKER_SET_UPDATES st updates)))
     = false).
Proof.
  intros st key u set Hget Hremoved. split; [|split; [|split; [|split]]].
  - unfold addMarkerSetUpdate, updateExistingSet. simpl fst. simpl snd.
    rewrite Hget, Hremoved. reflexivity.
  - apply get_delete_same.
  - apply get_delete_same.
  - intros k Hne. split; apply get_delete_other; assumption.
  - intros updates Hsync Hwf Hin.
    eapply removed_bucket_deletes_set; eauto.
Qed.

(** ** The pending queues follow the marker sets *)

Lemma freshState_inSync : forall lastUpdate, inSync (freshState lastUpdate).
Proof. intros lastUpdate k. reflexivity. Qed.

Lemma has_cons : forall {V : Type} (m : JsMap V) k0 v0 k,
  JsMap.has k ((k0, v0) :: m) = jsval_eqb k0 k || JsMap.has k m.
Proof.
  intros V m k0 v0 k. unfold JsMap.has. simpl.
  destruct (jsval_eqb k0 k); reflexivity.
Qed.

Lemma has_fold_set : forall {V W : Type} (sets : JsMap V) (w : W) (acc : JsMap W) k,
  JsMap.has k (fold_left (fun pending entry => JsMap.set (fst entry) w pending) sets acc)
  = JsMap.has k acc || JsMap.has k sets.
Proof.
  intros V W sets w. induction sets as [|[k0 v0] sets IH]; intros acc k; simpl.
  - rewrite orb_false_r. reflexivity.
  - rewrite IH, has_set, has_cons.
    destruct (jsval_eqb k0 k), (JsMap.has k acc); reflexivity.
Qed.

Lemma SET_MARKER_SETS_inSync : forall st sets, inSync (SET_MARKER_SETS st sets).
Proof.
  intros st sets k. unfold SET_MARKER_SETS. simpl. rewrite has_fold_set. reflexivity.
Qed.

Lemma SET_CURRENT_MAP_inSync : forall st worldName mapName,
  inSync st -> inSync (after (SET_CURRENT_MAP st worldName mapName)).
Proof.
  intros st worldName mapName Hsync. unfold SET_CURRENT_MAP. cbv zeta.
  destruct (JsMap.get worldName (worlds st)) as [newWorld|]; [|exact Hsync].
  destruct (negb (JsMap.has _ (maps st))); [exact Hsync|].
  match goal with |- context [if ?c then _ else _] => destruct c end.
  - intros k. reflexivity.
  - exact Hsync.
Qed.

Lemma POP_UPDATES_inSync : forall c st markerSet amount,
  inSync st ->
  thrown (POP_UPDATES c st markerSet amount) = None /\
  inSync (after (POP_UPDATES c st markerSet amount)).
Proof.
  intros c st markerSet amount Hsync. unfold POP_UPDATES.
  destruct (JsMap.has markerSet (markerSets st)) eqn:Hhas; simpl; [|auto].
  destruct (has_get_Some (pendingSetUpdates st) markerSet) as [q Hq].
  { rewrite Hsync. exact Hhas. }
  rewrite Hq. simpl. split; [reflexivity|].
  intros k. simpl. rewrite has_set.
  destruct (jsval_eqb markerSet k) eqn:E; simpl; [|apply Hsync].
  apply jsval_eqb_eq in E. subst k. symmetry. exact Hhas.
Qed.

(** The mutations that do not write the marker sets or their queues. *)
Lemma other_mutations_inSync : forall st,
  inSync st ->
  (forall tiles, inSync (ADD_TILE_UPDATES st tiles)) /\
  (forall chat, inSync (ADD_CHAT st chat)) /\
  (forall amount, inSync (POP_TILE_UPDATES st amount)) /\
  (forall incoming, inSync (fst (SET_PLAYERS_ASYNC st incoming))) /\
  (forall keep, inSync (SYNC_PLAYERS st keep)).
Proof.
  intros st Hsync. repeat split; intros; intros k; try apply Hsync.
  unfold SET_PLAYERS_ASYNC. destruct (setPlayersLoop 0 (players st) incoming).
  apply Hsync.
Qed.

(** C9.  The pending queues and the marker sets have the same keys in the
    store before the first fetch, and from a store in which they have,
    [SET_MARKER_SETS], [ADD_MARKER_SET_UPDATES] and [SET_CURRENT_MAP] lead to
    a store in which they still have, the first two without an error; so
    does every other mutation of the update engine.  In such a store every
    marker set has its queue, so the pop mutations find the queue they read
    and end without an error. *)
Theorem pending_queues_follow_marker_sets : forall st,
  inSync st ->
  (forall lastUpdate, inSync (freshState lastUpdate)) /\
  (forall sets, inSync (SET_MARKER_SETS st sets)) /\
  (forall updates,
     inSync (after (ADD_MARKER_SET_UPDATES st updates)) /\
     thrown (ADD_MARKER_SET_UPDATES st updates) = None) /\
  (forall worldName mapName, inSync (after (SET_CURRENT_MAP st worldName mapName))) /\
  (forall c markerSet amount,
     thrown (POP_UPDATES c st markerSet amount) = None /\
     inSync (after (POP_UPDATES c st markerSet amount))) /\
  (forall k, JsMap.has k (markerSets st) = true ->
     exists queue, JsMap.get k (pendingSetUpdates st) = Some queue) /\
  (forall tiles, inSync (ADD_TILE_UPDATES st tiles)) /\
  (forall chat, inSync (ADD_CHAT st chat)) /\
  (forall amount, inSync (POP_TILE_UPDATES st amount)) /\
  (forall incoming, inSync (fst (SET_PLAYERS_ASYNC st incoming))) /\
  (forall keep, inSync (SYNC_PLAYERS st keep)).
Proof.
  intros st Hsync. split; [|split; [|split; [|split; [|split; [|split]]]]].
  - apply freshState_inSync.
  - intros sets. apply SET_MARKER_SETS_inSync.
  - intros updates. apply ADD_MARKER_SET_UPDATES_inSync. exact Hsync.
  - intros worldName mapName. apply SET_CURRENT_MAP_inSync. exact Hsync.
  - intros c markerSet amount. apply POP_UPDATES_inSync. exact Hsync.
  - intros k Hhas. apply has_get_Some. rewrite Hsync. exact Hhas.
  - apply other_mutations_inSync. exact Hsync.
Qed.

(** ** The player registry: [SYNC_PLAYERS] *)

Lemma delete_filter : forall {V : Type} (m : JsMap V) k,
  JsMap.delete k m = filter (fun entry => negb (jsval_eqb (fst entry) k)) m.
Proof.
  intros V m k. induction m as [|[k0 v0] m IH]; simpl; auto.
  destruct (jsval_eqb k0 k); simpl; rewrite IH; reflexivity.
Qed.

Lemma filter_filter : forall {A : Type} (f g : A -> bool) l,
  filter f (filter g l) = filter (fun a => g a && f a) l.
Proof.
  intros A f g l. induction l as [|a l IH]; simpl; auto.
  destruct (g a); simpl; [destruct (f a)|]; rewrite IH; reflexivity.
Qed.

Lemma sync_fold_filter : forall keep entries registry,
  fold_left
    (fun (registry : JsMap DynmapPlayer) (entry : jsval * DynmapPlayer) =>
       if negb (existsb (jsval_eqb (Player.account (snd entry))) keep)
       then JsMap.delete (fst entry) registry else registry)
    entries registry
  = filter (fun entry => negb (doomed keep entries (fst entry))) registry.
Proof.
  intros keep entries. induction entries as [|[k0 p0] entries IH]; intros registry; simpl.
  - symmetry. apply forallb_filter_id. apply forallb_forall. auto.
  - rewrite IH. unfold kept at 1. simpl.
    destruct (existsb (jsval_eqb (Player.account p0)) keep); simpl.
    + apply filter_ext. intros [k p]. simpl. rewrite andb_false_r. reflexivity.
    + rewrite delete_filter, filter_filter. apply filter_ext. intros [k p]. simpl.
      rewrite andb_true_r, negb_orb, (jsval_eqb_sym k0 k). reflexivity.
Qed.

Lemma wellFormed_unique : forall {V : Type} (m : JsMap V) k v v',
  wellFormed m -> In (k, v) m -> In (k, v') m -> v = v'.
Proof.
  intros V m k v v'. induction m as [|[k0 v0] m IH]; intros Hwf Hin Hin'; [destruct Hin|].
  destruct Hin as [Heq|Hin], Hin' as [Heq'|Hin'].
  - congruence.
  - injection Heq as -> ->. exfalso.
    eapply (wellFormed_head m k v k v'); eauto.
  - injection Heq' as -> ->. exfalso.
    eapply (wellFormed_head m k v' k v); eauto.
  - apply IH; auto. eapply wellFormed_tail; eauto.
Qed.

Lemma doomed_self : forall keep registry entry,
  wellFormed registry -> In entry registry ->
  doomed keep registry (fst entry) = negb (kept keep entry).
Proof.
  intros keep registry [k p] Hwf Hin. simpl. unfold doomed.
  destruct (kept keep (k, p)) eqn:Hkept; simpl.
  - destruct (existsb _ registry) eqn:E; auto.
    apply existsb_exists in E. destruct E as [[k' p'] [Hin' Hcond]]. simpl in Hcond.
    apply andb_true_iff in Hcond. destruct Hcond as [Hk Hdoomed].
    apply jsval_eqb_eq in Hk. subst k'.
    rewrite (wellFormed_unique registry k p' p Hwf Hin' Hin) in Hdoomed.
    rewrite Hkept in Hdoomed. discriminate.
  - apply existsb_exists. exists (k, p). split; auto. simpl.
    rewrite jsval_eqb_refl, Hkept. reflexivity.
Qed.

Lemma SYNC_PLAYERS_filter : forall st keep,
  wellFormed (players st) ->
  players (SYNC_PLAYERS st keep) = filter (kept keep) (players st) /\
  SYNC_PLAYERS st keep = withPlayers (filter (kept keep) (players st)) st.
Proof.
  intros st keep Hwf.
  assert (players (SYNC_PLAYERS st keep) = filter (kept keep) (players st)) as Heq.
  { unfold SYNC_PLAYERS. simpl. rewrite sync_fold_filter.
    apply filter_ext_in. intros entry Hin.
    rewrite doomed_self by assumption. apply negb_involutive. }
  split; [exact Heq|].
  unfold SYNC_PLAYERS in *. simpl in Heq. rewrite Heq. reflexivity.
Qed.

(** C7.  [SYNC_PLAYERS] leaves in the registry the entries whose account is
    in the keep-set, each as it was and in the order they had, and nothing
    else; the rest of the store is not touched. *)
Theorem SYNC_PLAYERS_prunes_exactly : forall st keep,
  wellFormed (players st) ->
  players (SYNC_PLAYERS st keep) = filter (kept keep) (players st) /\
  (forall k p,
     In (k, p) (players (SYNC_PLAYERS st keep))
     <-> In (k, p) (players st)
         /\ existsb (jsval_eqb (Player.account p)) keep = true) /\
  SYNC_PLAYERS st keep = withPlayers (filter (kept keep) (players st)) st.
Proof.
  intros st keep Hwf.
  destruct (SYNC_PLAYERS_filter st keep Hwf) as [Heq Hst].
  split; [exact Heq|]. split; [|exact Hst].
  intros k p. rewrite Heq, filter_In. reflexivity.
Qed.

(** ** The player registry: [SET_PLAYERS_ASYNC] *)

Lemma setPlayersLoop_firstn : forall incoming count registry,
  (count < 10)%nat ->
  setPlayersLoop count registry incoming
  = (fold_left setPlayer (firstn (10 - count) incoming) registry,
     skipn (10 - count) incoming).
Proof.
  induction incoming as [|p rest IH]; intros count registry Hcount;
    cbn [setPlayersLoop].
  - rewrite firstn_nil, skipn_nil. reflexivity.
  - destruct (Nat.leb_spec 10 (S count)) as [Hlast|Hmore].
    + replace (10 - count)%nat with 1%nat by lia. reflexivity.
    + rewrite IH by lia.
      replace (10 - count)%nat with (S (10 - S count)) by lia. reflexivity.
Qed.

Lemma SET_PLAYERS_ASYNC_firstn : forall st incoming,
  SET_PLAYERS_ASYNC st incoming
  = (withPlayers (fold_left setPlayer (firstn 10 incoming) (players st)) st,
     skipn 10 incoming).
Proof.
  intros st incoming. unfold SET_PLAYERS_ASYNC.
  rewrite setPlayersLoop_firstn by lia. reflexivity.
Qed.

Lemma setPlayer_get : forall registry p,
  exists e, JsMap.get (Player.account p) (setPlayer registry p) = Some e /\ carries e p.
Proof.
  intros registry p. unfold setPlayer.
  destruct (JsMap.get (Player.account p) registry) as [existing|];
    rewrite get_set_same; eexists; (split; [reflexivity|]);
    unfold carries; simpl; repeat split.
  destruct p as [a h ar n s hd [x y z w]]. reflexivity.
Qed.

Lemma setPlayer_get_other : forall registry p k,
  Player.account p <> k -> JsMap.get k (setPlayer registry p) = JsMap.get k registry.
Proof.
  intros registry p k Hne. unfold setPlayer.
  destruct (JsMap.get (Player.account p) registry); apply get_set_other; exact Hne.
Qed.

Lemma setPlayer_has : forall registry p k,
  JsMap.has k (setPlayer registry p)
  = jsval_eqb (Player.account p) k || JsMap.has k registry.
Proof.
  intros registry p k. unfold setPlayer.
  destruct (JsMap.get (Player.account p) registry); apply has_set.
Qed.

Lemma setPlayer_wellFormed : forall registry p,
  wellFormed registry -> wellFormed (setPlayer registry p).
Proof.
  intros registry p Hwf. unfold setPlayer.
  destruct (JsMap.get (Player.account p) registry); apply wellFormed_set; exact Hwf.
Qed.

Lemma fold_setPlayer_get_other : forall ps registry k,
  ~ In k (map Player.account ps) ->
  JsMap.get k (fold_left setPlayer ps registry) = JsMap.get k registry.
Proof.
  induction ps as [|p ps IH]; intros registry k Hnot; simpl; auto.
  simpl in Hnot. rewrite IH by tauto.
  apply setPlayer_get_other. tauto.
Qed.

Lemma fold_setPlayer_get : forall ps registry p,
  NoDup (map Player.account ps) -> In p ps ->
  exists e,
    JsMap.get (Player.account p) (fold_left setPlayer ps registry) = Some e /\
    carries e p.
Proof.
  induction ps as [|q ps IH]; intros registry p Hnd Hin; [destruct Hin|].
  simpl in *. inversion Hnd as [|? ? Hq Hps]; subst.
  destruct Hin as [->|Hin].
  - rewrite fold_setPlayer_get_other by exact Hq. apply setPlayer_get.
  - apply IH; assumption.
Qed.

Lemma fold_setPlayer_has : forall ps registry k,
  JsMap.has k (fold_left setPlayer ps registry)
  = JsMap.has k registry || existsb (jsval_eqb k) (map Player.account ps).
Proof.
  induction ps as [|p ps IH]; intros registry k; simpl.
  - rewrite orb_false_r. reflexivity.
  - rewrite IH, setPlayer_has, (jsval_eqb_sym k (Player.account p)).
    destruct (jsval_eqb (Player.account p) k), (JsMap.has k registry); reflexivity.
Qed.

Lemma fold_setPlayer_wellFormed : forall ps registry,
  wellFormed registry -> wellFormed (fold_left setPlayer ps registry).
Proof.
  induction ps as [|p ps IH]; intros registry Hwf; simpl; auto.
  apply IH. apply setPlayer_wellFormed. exact Hwf.
Qed.

Lemma fold_setPlayer_size : forall ps registry,
  NoDup (map Player.account ps) ->
  wellFormed registry ->
  (forall k, JsMap.has k registry = true -> In k (map Player.account ps)) ->
  JsMap.size (fold_left setPlayer ps registry) = List.length ps.
Proof.
  intros ps registry Hnd Hwf Hsub.
  unfold JsMap.size.
  rewrite <- (length_map fst), <- (length_map Player.account ps).
  apply Permutation_length. apply NoDup_Permutation.
  - apply distinctKeys_NoDup. apply (fold_setPlayer_wellFormed ps registry Hwf).
  - exact Hnd.
  - intros k. fold (JsMap.keys (fold_left setPlayer ps registry)).
    rewrite <- has_In_keys, fold_setPlayer_has, orb_true_iff. split.
    + intros [Hreg|Hnew]; [apply Hsub; exact Hreg|].
      apply existsb_exists in Hnew. destruct Hnew as [x [Hx Heq]].
      apply jsval_eqb_eq in Heq. subst. exact Hx.
    + intros Hin. right. apply existsb_exists. exists k.
      split; [exact Hin|apply jsval_eqb_refl].
Qed.

Lemma three_batches : forall {A : Type} (l : list A),
  List.length l = 25%nat ->
  (firstn 10 l ++ firstn 10 (skipn 10 l) ++ firstn 10 (skipn 10 (skipn 10 l)))%list = l.
Proof.
  intros A l Hlen.
  rewrite (@firstn_all2 A 10 (skipn 10 (skipn 10 l))).
  - rewrite firstn_skipn. apply firstn_skipn.
  - rewrite !length_skipn. lia.
Qed.

(** The registry stays a map with one entry per key. *)
Lemma filter_wellFormed : forall {V : Type} (f : jsval * V -> bool) (m : JsMap V),
  wellFormed m -> wellFormed (filter f m).
Proof.
  intros V f m. unfold wellFormed. rewrite !distinctKeys_NoDup.
  induction m as [|[k v] m IH]; simpl; auto.
  intros Hnd. inversion Hnd as [|? ? Hk Hm]; subst.
  destruct (f (k, v)); simpl; auto.
  constructor; auto. intros Hin. apply Hk.
  unfold JsMap.keys in *. apply in_map_iff in Hin.
  destruct Hin as [[k' v'] [Heq Hin]]. simpl in Heq. subst k'.
  apply filter_In in Hin. apply in_map_iff. exists (k, v'). tauto.
Qed.

Lemma registry_stays_wellFormed : forall st,
  wellFormed (players st) ->
  (forall incoming, wellFormed (players (fst (SET_PLAYERS_ASYNC st incoming)))) /\
  (forall keep, wellFormed (players (SYNC_PLAYERS st keep))).
Proof.
  intros st Hwf. split.
  - intros incoming. rewrite SET_PLAYERS_ASYNC_firstn. cbn [fst players withPlayers].
    apply fold_setPlayer_wellFormed. exact Hwf.
  - intros keep.
    destruct (SYNC_PLAYERS_filter st keep Hwf) as [-> _].
    apply filter_wellFormed. exact Hwf.
Qed.

(** C5.  One call of [SET_PLAYERS_ASYNC] sets the first ten snapshots of its
    input (all of them if there are fewer) in the registry, each under its
    account and with its fields, and returns the input without them.  On
    twenty-five snapshots with distinct accounts, and a registry that holds
    no other account, three calls take 10, 10 and 5 snapshots and leave a
    registry of exactly 25 entries, each carrying the fields of its
    snapshot. *)
Theorem SET_PLAYERS_ASYNC_in_tens : forall st (incoming : list DynmapPlayer),
  List.length incoming = 25%nat ->
  NoDup (map Player.account incoming) ->
  wellFormed (players st) ->
  (forall k, JsMap.has k (players st) = true -> In k (map Player.account incoming)) ->
  let first := SET_PLAYERS_ASYNC st incoming in
  let second := SET_PLAYERS_ASYNC (fst first) (snd first) in
  let third := SET_PLAYERS_ASYNC (fst second) (snd second) in
  (forall st' input,
     snd (SET_PLAYERS_ASYNC st' input) = skipn 10 input /\
     players (fst (SET_PLAYERS_ASYNC st' input))
     = fold_left setPlayer (firstn 10 input) (players st') /\
     (List.length (firstn 10 input) <= 10)%nat /\
     (forall registry p, exists e,
        JsMap.get (Player.account p) (setPlayer registry p) = Some e /\ carries e p)) /\
  List.length (snd first) = 15%nat /\
  List.length (snd second) = 5%nat /\
  snd third = [] /\
  JsMap.size (players (fst third)) = 25%nat /\
  forall p, In p incoming ->
    exists e, JsMap.get (Player.account p) (players (fst third)) = Some e /\ carries e p.
Proof.
  intros st incoming Hlen Hnd Hwf Hsub first second third.
  subst first second third.
  rewrite !SET_PLAYERS_ASYNC_firstn. cbn [fst snd players withPlayers].
  assert (fold_left setPlayer (firstn 10 (skipn 10 (skipn 10 incoming)))
            (fold_left setPlayer (firstn 10 (skipn 10 incoming))
               (fold_left setPlayer (firstn 10 incoming) (players st)))
          = fold_left setPlayer incoming (players st)) as Hall.
  { rewrite <- !fold_left_app, <- ?app_assoc, three_batches by exact Hlen.
    reflexivity. }
  rewrite Hall. split; [|split; [|split; [|split; [|split]]]].
  - intros st' input. rewrite SET_PLAYERS_ASYNC_firstn.
    cbn [fst snd players withPlayers].
    split; [reflexivity|]. split; [reflexivity|]. split.
    + rewrite length_firstn. lia.
    + apply setPlayer_get.
  - rewrite length_skipn. lia.
  - rewrite !length_skipn. lia.
  - apply length_zero_iff_nil. rewrite !length_skipn. lia.
  - rewrite fold_setPlayer_size; assumption.
  - intros p Hin. apply fold_setPlayer_get; assumption.
Qed.

(** ** [getUpdate]: the players of a response *)

Lemma responsePlayers_length : forall items reported,
  responsePlayers items = Return reported -> List.length reported = List.length items.
Proof.
  induction items as [|player items IH]; intros reported; simpl.
  - intros H. injection H as <-. reflexivity.
  - destruct (responsePlayer player); simpl; [|discriminate].
    destruct (responsePlayers items) as [ps|]; simpl; [|discriminate].
    intros H. injection H as <-. simpl. rewrite (IH ps); reflexivity.
Qed.

Lemma fakePlayersFrom_length : forall random count i,
  List.length (fakePlayersFrom random i count) = count.
Proof.
  intros random. induction count as [|count IH]; intros i; simpl; auto.
Qed.

Lemma fakePlayersFrom_nth : forall random count i j,
  (j < count)%nat ->
  nth_error (fakePlayersFrom random i count) j = Some (fakePlayer random (i + j)).
Proof.
  intros random. induction count as [|count IH]; intros i j Hj; [lia|].
  destruct j as [|j]; simpl.
  - rewrite Nat.add_0_r. reflexivity.
  - rewrite IH by lia. f_equal. f_equal. lia.
Qed.

(** C10.  Whenever [getUpdate] returns, its player set is the players
    reported by the response, in their order, followed by 150 players
    [VIDEO GAMES 0] to [VIDEO GAMES 149] in the world [world] and without a
    hidden flag; it holds 150 members more than the response reports. *)
Theorem getUpdate_adds_150_players : forall random lastUpdate response r,
  getUpdate random lastUpdate response = Return r ->
  exists reported,
    responsePlayers (reportedPlayers response) = Return reported /\
    List.length reported = List.length (reportedPlayers response) /\
    Response.players r = (reported ++ fakePlayersFrom random 0 150)%list /\
    List.length (Response.players r)
    = (List.length (reportedPlayers response) + 150)%nat /\
    forall i, (i < 150)%nat ->
      exists fake,
        nth_error (Response.players r) (List.length (reportedPlayers response) + i)
        = Some fake /\
        fake = fakePlayer random i /\
        Player.account fake = JStr ("VIDEO GAMES " ++ number_to_string (Z.of_nat i)) /\
        Location.world (Player.location fake) = JStr "world" /\
        Player.hidden fake = JUndef.
Proof.
  intros random lastUpdate response r. unfold getUpdate, reportedPlayers.
  destruct (nullish response); [discriminate|].
  destruct (js_or (prop response "players") (JArr [])) as [| | | | |items| |];
    cbn [arrayItems bind]; try discriminate.
  destruct (responsePlayers items) as [reported|] eqn:Hreported;
    cbn [bind]; [|discriminate].
  destruct (iterate _) as [data|]; cbn [bind]; [|discriminate].
  destruct (buildUpdates lastUpdate data) as [l|]; cbn [bind]; [|discriminate].
  intros H. injection H as <-. cbn [Response.players].
  pose proof (responsePlayers_length _ _ Hreported) as Hlen.
  exists reported. split; [reflexivity|]. split; [exact Hlen|].
  split; [reflexivity|]. split.
  - rewrite length_app, fakePlayersFrom_length, Hlen. reflexivity.
  - intros i Hi. exists (fakePlayer random i). split; [|repeat split].
    rewrite <- Hlen, nth_error_app2 by lia.
    replace (List.length reported + i - List.length reported)%nat with i by lia.
    apply fakePlayersFrom_nth. exact Hi.
Qed.

(** ** Instances *)

(** A complete tile record at the time 40 under the watermark 50 is counted
    as stale. *)
Lemma below_watermark_rejected_once_witness :
  belowWatermark (AsNumber 50) tileAt40 /\
  knownType tileAt40 /\
  exists l',
    classifyEntry (AsNumber 50) initialLocals tileAt40 = Return l' /\
    rejectedOnceAs Reason.stale initialLocals l'.
Proof.
  assert (belowWatermark (AsNumber 50) tileAt40) as Hbelow.
  { split; [reflexivity|]. exists 40. split; [reflexivity|simpl; lia]. }
  assert (knownType tileAt40) as Hknown.
  { unfold knownType. simpl. tauto. }
  split; [exact Hbelow|]. split; [exact Hknown|].
  exact (below_watermark_rejected_once (AsNumber 50) tileAt40 Hbelow Hknown initialLocals).
Defined.

(** The quit at 200 comes first; the chat line, the join and the second
    chat line at 100 follow in the order they arrived. *)
Lemma chat_newest_first_stable_witness :
  buildUpdates (AsNumber 50) chatBatch = Return chatBatchResult /\
  Forall numericTimestamp (specifiedEvents (AsNumber 50) chatBatch) /\
  Permutation (specifiedEvents (AsNumber 50) chatBatch)
              (Updates.chat (updates chatBatchResult)) /\
  StronglySorted notOlder (Updates.chat (updates chatBatchResult)) /\
  at_time 100 (Updates.chat (updates chatBatchResult))
  = at_time 100 (specifiedEvents (AsNumber 50) chatBatch).
Proof.
  assert (buildUpdates (AsNumber 50) chatBatch = Return chatBatchResult) as Hrun.
  { vm_compute. reflexivity. }
  assert (Forall numericTimestamp (specifiedEvents (AsNumber 50) chatBatch)) as Hnum.
  { repeat constructor; eexists; reflexivity. }
  split; [exact Hrun|]. split; [exact Hnum|].
  destruct (chat_newest_first_stable (AsNumber 50) chatBatch chatBatchResult Hrun Hnum)
    as (Hperm & Hsorted & Hstable).
  split; [exact Hperm|]. split; [exact Hsorted|apply Hstable].
Defined.

(** Removing [s1] from the store that holds it. *)
Lemma removed_set_leaves_no_queue_witness :
  JsMap.get (JStr "s1") (markerSets storeWithS1) <> None /\
  truthy (SetUpdates.removed removedS1) = true /\
  addMarkerSetUpdate storeWithS1 (JStr "s1", removedS1)
  = done (withMarkerSetsAndPending
            (JsMap.delete (JStr "s1") (markerSets storeWithS1))
            (JsMap.delete (JStr "s1") (pendingSetUpdates storeWithS1)) storeWithS1).
Proof.
  split; [discriminate|]. split; [reflexivity|].
  eapply (removed_set_leaves_no_queue storeWithS1 (JStr "s1") removedS1);
    reflexivity.
Defined.

(** Popping marker updates of [s1] finds its queue. *)
Lemma pending_queues_follow_marker_sets_witness :
  inSync storeWithS1 /\
  thrown (POP_MARKER_UPDATES storeWithS1 (JStr "s1") 3) = None.
Proof.
  assert (inSync storeWithS1) as Hsync.
  { intros k. unfold storeWithS1. cbn [pendingSetUpdates markerSets].
    rewrite !has_cons. reflexivity. }
  split; [exact Hsync|].
  apply (pending_queues_follow_marker_sets storeWithS1 Hsync).
Defined.

(** Keeping [p1] of the players [p0] and [p1]. *)
Lemma SYNC_PLAYERS_prunes_exactly_witness :
  wellFormed (players storeWithTwoPlayers) /\
  players (SYNC_PLAYERS storeWithTwoPlayers [JStr "p1"])
  = filter (kept [JStr "p1"]) (players storeWithTwoPlayers).
Proof.
  split; [reflexivity|].
  apply (SYNC_PLAYERS_prunes_exactly storeWithTwoPlayers [JStr "p1"]). reflexivity.
Defined.

(** Three calls on the twenty-five snapshots, from an empty registry. *)
Lemma SET_PLAYERS_ASYNC_in_tens_witness :
  List.length twentyFive = 25%nat /\
  NoDup (map Player.account twentyFive) /\
  JsMap.size
    (players
       (fst (SET_PLAYERS_ASYNC
               (fst (SET_PLAYERS_ASYNC
                       (fst (SET_PLAYERS_ASYNC (freshState (AsNumber 0)) twentyFive))
                       (snd (SET_PLAYERS_ASYNC (freshState (AsNumber 0)) twentyFive))))
               (snd (SET_PLAYERS_ASYNC
                       (fst (SET_PLAYERS_ASYNC (freshState (AsNumber 0)) twentyFive))
                       (snd (SET_PLAYERS_ASYNC (freshState (AsNumber 0)) twentyFive)))))))
  = 25%nat.
Proof.
  assert (NoDup (map Player.account twentyFive)) as Hnd.
  { apply distinctKeys_NoDup. vm_compute. reflexivity. }
  split; [reflexivity|]. split; [exact Hnd|].
  apply (SET_PLAYERS_ASYNC_in_tens (freshState (AsNumber 0)) twentyFive).
  - reflexivity.
  - exact Hnd.
  - reflexivity.
  - intros k Hk. discriminate Hk.
Defined.

(** A response that reports one player gives a set of 151. *)
Lemma getUpdate_adds_150_players_witness :
  getUpdate sampleRandom (AsNumber 50) sampleResponse = Return sampleUpdate /\
  List.length (Response.players sampleUpdate) = 151%nat.
Proof.
  assert (getUpdate sampleRandom (AsNumber 50) sampleResponse = Return sampleUpdate)
    as Hrun.
  { vm_compute. reflexivity. }
  split; [exact Hrun|].
  destruct (getUpdate_adds_150_players sampleRandom (AsNumber 50) sampleResponse
              sampleUpdate Hrun) as (reported & _ & _ & _ & Hlen & _).
  exact Hlen.
Defined.

(** * Further properties *)

(** ** Reconciliation: what a bucket does to its marker set *)

Lemma applyUpdates_get : forall us m id,
  JsMap.get id (applyUpdates us m) = settled (JsMap.get id m) id us.
Proof.
  induction us as [|u us IH] using rev_ind; intros m id.
  - reflexivity.
  - unfold settled, lastUpdateFor, applyUpdates.
    rewrite fold_left_app, rev_unit. cbn [fold_left find].
    fold (applyUpdates us m).
    destruct (jsval_eqb (Update.id u) id) eqn:E.
    + apply jsval_eqb_eq in E. subst id. unfold applyUpdate.
      destruct (Update.removed u).
      * apply get_delete_same.
      * apply get_set_same.
    + apply jsval_eqb_neq in E. unfold applyUpdate.
      destruct (Update.removed u).
      * rewrite get_delete_other by exact E. apply IH.
      * rewrite get_set_other by exact E. apply IH.
Qed.

Lemma entities_applyEntityUpdates : forall c u set,
  entities c (applyEntityUpdates u set) = applyUpdates (queue c u) (entities c set).
Proof. intros [] u set; reflexivity. Qed.

Lemma entities_overwriteSet : forall c payload set,
  entities c (overwriteSet payload set) = entities c set.
Proof. intros [] payload set; reflexivity. Qed.

Lemma queue_enqueue : forall c u p,
  queue c (enqueue u p) = (queue c p ++ queue c u)%list.
Proof. intros [] u p; reflexivity. Qed.

Lemma updateExistingSet_kept : forall st key u set pending,
  JsMap.get key (pendingSetUpdates st) = Some pending ->
  truthy (SetUpdates.removed u) = false ->
  updateExistingSet st key u set
  = done (withMarkerSetsAndPending
            (JsMap.set key
               (applyEntityUpdates u
                  (if truthy (SetUpdates.payload u)
                   then overwriteSet (SetUpdates.payload u) set else set))
               (markerSets st))
            (JsMap.set key (enqueue u pending) (pendingSetUpdates st)) st).
Proof.
  intros st key u set pending Hq Hr. unfold updateExistingSet.
  rewrite Hr, Hq. reflexivity.
Qed.

(** A bucket that is not a removal, for a set that exists or that the
    bucket can create: what the set and its queue are afterwards. *)
Lemma addMarkerSetUpdate_kept : forall st key u,
  inSync st ->
  truthy (SetUpdates.removed u) = false ->
  JsMap.has key (markerSets st) = true \/ truthy (SetUpdates.payload u) = true ->
  exists set',
    JsMap.get key (markerSets (after (addMarkerSetUpdate st (key, u)))) = Some set' /\
    (forall c id,
       JsMap.get id (entities c set') = settled (entityOf st key c id) id (queue c u)) /\
    (forall c,
       pendingOf (after (addMarkerSetUpdate st (key, u))) key c
       = (pendingOf st key c ++ queue c u)%list) /\
    warnings (addMarkerSetUpdate st (key, u)) = [] /\
    thrown (addMarkerSetUpdate st (key, u)) = None.
Proof.
  intros st key u Hsync Hr Hex.
  unfold addMarkerSetUpdate, entityOf, pendingOf. cbn [fst snd].
  destruct (JsMap.get key (markerSets st)) as [set|] eqn:Hset.
  - destruct (has_get_Some (pendingSetUpdates st) key) as [pending Hq].
    { rewrite Hsync. eapply get_Some_has; eauto. }
    rewrite (updateExistingSet_kept st key u set pending Hq Hr).
    cbn [after done withMarkerSetsAndPending markerSets pendingSetUpdates warnings thrown].
    rewrite !get_set_same, Hq. eexists. split; [reflexivity|].
    split; [|split; [|split]]; try reflexivity.
    + intros c id. rewrite entities_applyEntityUpdates, applyUpdates_get.
      destruct (truthy (SetUpdates.payload u)); rewrite ?entities_overwriteSet; reflexivity.
    + intros c. apply queue_enqueue.
  - destruct Hex as [Hhas|Hp].
    { apply get_None_has in Hset. congruence. }
    rewrite Hp.
    assert (JsMap.get key (pendingSetUpdates st) = None) as Hq.
    { destruct (JsMap.get key (pendingSetUpdates st)) eqn:E; [|reflexivity].
      apply get_Some_has in E. rewrite Hsync in E.
      apply get_None_has in Hset. congruence. }
    rewrite (updateExistingSet_kept _ key u _ emptyPending).
    + cbn [after done withMarkerSetsAndPending markerSets pendingSetUpdates warnings thrown].
      rewrite !get_set_same, Hq, Hp. eexists. split; [reflexivity|].
      split; [|split; [|split]]; try reflexivity.
      intros c id. rewrite entities_applyEntityUpdates, applyUpdates_get,
        entities_overwriteSet.
      destruct c; reflexivity.
    + cbn [withMarkerSetsAndPending pendingSetUpdates]. apply get_set_same.
    + exact Hr.
Qed.

(** A bucket for one set leaves every other set and queue as it is, and
    touches nothing of the store but the two maps. *)
Lemma addMarkerSetUpdate_get_other : forall st entry key,
  fst entry <> key ->
  JsMap.get key (markerSets (after (addMarkerSetUpdate st entry)))
  = JsMap.get key (markerSets st) /\
  JsMap.get key (pendingSetUpdates (after (addMarkerSetUpdate st entry)))
  = JsMap.get key (pendingSetUpdates st).
Proof.
  intros st [k u] key Hne. simpl in Hne.
  unfold addMarkerSetUpdate, updateExistingSet. simpl fst. simpl snd.
  destruct (JsMap.get k (markerSets st)) as [set|].
  - destruct (truthy (SetUpdates.removed u)); simpl.
    + rewrite !get_delete_other by exact Hne. auto.
    + destruct (JsMap.get k (pendingSetUpdates st)); simpl;
        rewrite ?get_set_other by exact Hne; auto.
  - destruct (truthy (SetUpdates.payload u)); simpl; [|auto].
    destruct (truthy (SetUpdates.removed u)); simpl.
    + rewrite !get_delete_other, !get_set_other by exact Hne. auto.
    + rewrite get_set_same. simpl. rewrite !get_set_other by exact Hne. auto.
Qed.

Lemma addMarkerSetUpdate_rest : forall st entry,
  restOfStore (after (addMarkerSetUpdate st entry)) = restOfStore st.
Proof.
  intros st [k u].
  unfold addMarkerSetUpdate, updateExistingSet. simpl fst. simpl snd.
  destruct (JsMap.get k (markerSets st)) as [set|].
  - destruct (truthy (SetUpdates.removed u)); simpl; [reflexivity|].
    destruct (JsMap.get k (pendingSetUpdates st)); reflexivity.
  - destruct (truthy (SetUpdates.payload u)); simpl; [|reflexivity].
    destruct (truthy (SetUpdates.removed u)); simpl; [reflexivity|].
    rewrite get_set_same. reflexivity.
Qed.

Lemma has_false_fst : forall {V : Type} (m : JsMap V) key,
  JsMap.has key m = false -> Forall (fun entry => fst entry <> key) m.
Proof.
  intros V m key H. apply Forall_forall. intros [k v] Hin Heq. simpl in Heq. subst k.
  assert (JsMap.has key m = true) as Ht.
  { apply has_In_keys. unfold JsMap.keys. apply in_map_iff. exists (key, v). auto. }
  congruence.
Qed.

Lemma ADD_MARKER_SET_UPDATES_get_other : forall updates st key,
  JsMap.has key updates = false ->
  JsMap.get key (markerSets (after (ADD_MARKER_SET_UPDATES st updates)))
  = JsMap.get key (markerSets st) /\
  JsMap.get key (pendingSetUpdates (after (ADD_MARKER_SET_UPDATES st updates)))
  = JsMap.get key (pendingSetUpdates st).
Proof.
  intros updates st key Hno. unfold ADD_MARKER_SET_UPDATES.
  apply forOf_preserves with
    (P := fun st' =>
            JsMap.get key (markerSets st') = JsMap.get key (markerSets st) /\
            JsMap.get key (pendingSetUpdates st') = JsMap.get key (pendingSetUpdates st))
    (Q := fun entry : jsval * DynmapMarkerSetUpdates => fst entry <> key).
  - intros st' entry Hne [Hm Hp].
    destruct (addMarkerSetUpdate_get_other st' entry key Hne) as [-> ->]. auto.
  - apply has_false_fst. exact Hno.
  - auto.
Qed.

Lemma entityOf_pendingOf_other : forall st entry key,
  fst entry <> key ->
  (forall c id, entityOf (after (addMarkerSetUpdate st entry)) key c id
                = entityOf st key c id) /\
  (forall c, pendingOf (after (addMarkerSetUpdate st entry)) key c = pendingOf st key c) /\
  JsMap.has key (markerSets (after (addMarkerSetUpdate st entry)))
  = JsMap.has key (markerSets st).
Proof.
  intros st entry key Hne. unfold entityOf, pendingOf, JsMap.has.
  destruct (addMarkerSetUpdate_get_other st entry key Hne) as [-> ->]. auto.
Qed.

(** X1.  The bucket of a batch for a set that stays decides each entity of
    the set by its last update, and is queued behind what was pending. *)
Theorem bucket_settles_its_set : forall updates st key u,
  inSync st ->
  wellFormed updates ->
  In (key, u) updates ->
  truthy (SetUpdates.removed u) = false ->
  JsMap.has key (markerSets st) = true \/ truthy (SetUpdates.payload u) = true ->
  JsMap.has key (markerSets (after (ADD_MARKER_SET_UPDATES st updates))) = true /\
  (forall c id,
     entityOf (after (ADD_MARKER_SET_UPDATES st updates)) key c id
     = settled (entityOf st key c id) id (queue c u)) /\
  (forall c,
     pendingOf (after (ADD_MARKER_SET_UPDATES st updates)) key c
     = (pendingOf st key c ++ queue c u)%list).
Proof.
  intros updates st key u Hsync Hwf Hin Hr Hex.
  unfold ADD_MARKER_SET_UPDATES. revert st Hsync Hwf Hin Hex.
  induction updates as [|[k0 u0] rest IH]; intros st Hsync Hwf Hin Hex; [destruct Hin|].
  simpl. unfold andThen.
  destruct (addMarkerSetUpdate_inSync st (k0, u0) Hsync) as [Hsync1 Hok].
  rewrite Hok. cbn [after].
  destruct Hin as [Heq|Hin].
  - injection Heq as -> ->.
    destruct (ADD_MARKER_SET_UPDATES_get_other rest
                (after (addMarkerSetUpdate st (key, u))) key) as [Hm Hp].
    { apply get_None_has. eapply get_absent_tail; eauto. }
    unfold ADD_MARKER_SET_UPDATES in Hm, Hp.
    destruct (addMarkerSetUpdate_kept st key u Hsync Hr Hex)
      as (set' & Hset' & Hent & Hpend & _).
    unfold entityOf at 1. unfold pendingOf at 1. unfold JsMap.has.
    rewrite Hm, Hp, Hset'. split; [reflexivity|]. split.
    + exact Hent.
    + intros c. rewrite <- Hpend. reflexivity.
  - assert (k0 <> key) as Hne.
    { eapply (wellFormed_head rest k0 u0 key u); eauto. }
    destruct (entityOf_pendingOf_other st (k0, u0) key Hne) as (He & Hp & Hh).
    destruct (IH (after (addMarkerSetUpdate st (k0, u0)))) as (H1 & H2 & H3); auto.
    + eapply wellFormed_tail; eauto.
    + rewrite Hh. exact Hex.
    + split; [exact H1|]. split.
      * intros c id. rewrite H2, He. reflexivity.
      * intros c. rewrite H3, Hp. reflexivity.
Qed.

(** X2.  A set for which a batch has no bucket keeps its properties, its
    entities and its queue, and no other part of the store is written,
    also when the mutation ends early. *)
Theorem ADD_MARKER_SET_UPDATES_frame : forall updates st,
  restOfStore (after (ADD_MARKER_SET_UPDATES st updates)) = restOfStore st /\
  forall key,
    JsMap.has key updates = false ->
    JsMap.get key (markerSets (after (ADD_MARKER_SET_UPDATES st updates)))
    = JsMap.get key (markerSets st) /\
    JsMap.get key (pendingSetUpdates (after (ADD_MARKER_SET_UPDATES st updates)))
    = JsMap.get key (pendingSetUpdates st).
Proof.
  intros updates st. split.
  - unfold ADD_MARKER_SET_UPDATES.
    apply forOf_preserves with
      (P := fun st' => restOfStore st' = restOfStore st)
      (Q := fun _ : jsval * DynmapMarkerSetUpdates => True).
    + intros st' entry _ H. rewrite addMarkerSetUpdate_rest. exact H.
    + apply Forall_forall. auto.
    + reflexivity.
  - intros key Hno. apply ADD_MARKER_SET_UPDATES_get_other. exact Hno.
Qed.

(** ** The pending queues *)

Lemma queue_popFrom_same : forall c amount p,
  queue c (popFrom c amount p) = skipn (Z.to_nat amount) (queue c p).
Proof. intros [] amount []; reflexivity. Qed.

Lemma queue_popFrom_other : forall c c' amount p,
  c' <> c -> queue c' (popFrom c amount p) = queue c' p.
Proof. intros [] [] amount [] Hne; try reflexivity; congruence. Qed.

(** X3.  A pop mutation drops the first [amount] pending updates of one
    category of one marker set, and nothing else of the store changes. *)
Theorem POP_UPDATES_trims_one_queue : forall c st markerSet amount,
  inSync st ->
  markerSets (after (POP_UPDATES c st markerSet amount)) = markerSets st /\
  restOfStore (after (POP_UPDATES c st markerSet amount)) = restOfStore st /\
  pendingOf (after (POP_UPDATES c st markerSet amount)) markerSet c
  = skipn (Z.to_nat amount) (pendingOf st markerSet c) /\
  (forall key c', key <> markerSet \/ c' <> c ->
     pendingOf (after (POP_UPDATES c st markerSet amount)) key c' = pendingOf st key c') /\
  (JsMap.has markerSet (markerSets st) = false ->
   after (POP_UPDATES c st markerSet amount) = st /\
   warnings (POP_UPDATES c st markerSet amount) <> []).
Proof.
  intros c st markerSet amount Hsync. unfold POP_UPDATES, pendingOf.
  destruct (JsMap.has markerSet (markerSets st)) eqn:Hhas; cbn [negb].
  - destruct (has_get_Some (pendingSetUpdates st) markerSet) as [p Hp].
    { rewrite Hsync. exact Hhas. }
    rewrite Hp.
    cbn [after done withMarkerSetsAndPending markerSets pendingSetUpdates restOfStore
         worlds maps players chatMessages pendingTileUpdates currentWorld currentMap
         updateTimestamp].
    split; [reflexivity|]. split; [reflexivity|]. split; [|split].
    + rewrite get_set_same. apply queue_popFrom_same.
    + intros key c' Hother.
      destruct (jsval_eq_dec markerSet key) as [<-|Hne].
      * rewrite get_set_same, Hp. apply queue_popFrom_other.
        destruct Hother as [H|H]; [congruence|exact H].
      * rewrite get_set_other by exact Hne. reflexivity.
    + discriminate.
  - cbn [after warn].
    split; [reflexivity|]. split; [reflexivity|]. split; [|split].
    + assert (JsMap.get markerSet (pendingSetUpdates st) = None) as ->.
      { destruct (JsMap.get markerSet (pendingSetUpdates st)) eqn:E; [|reflexivity].
        apply get_Some_has in E. rewrite Hsync in E. congruence. }
      destruct (Z.to_nat amount); reflexivity.
    + reflexivity.
    + intros _. split; [reflexivity|]. simpl. discriminate.
Qed.

Lemma skipn_app_le : forall {A : Type} (n : nat) (l1 l2 : list A),
  (n <= List.length l1)%nat -> skipn n (l1 ++ l2)%list = (skipn n l1 ++ l2)%list.
Proof.
  intros A n. induction n as [|n IH]; intros l1 l2 Hle; [reflexivity|].
  destruct l1 as [|a l1]; simpl in *; [lia|]. apply IH. lia.
Qed.

(** X4.  Tile updates are consumed in the order they arrived: popping what
    is pending commutes with the arrival of more, and popping all that was
    pending leaves exactly the new arrivals. *)
Theorem tile_queue_first_in_first_out : forall st tiles amount,
  (Z.to_nat amount <= List.length (pendingTileUpdates st))%nat ->
  POP_TILE_UPDATES (ADD_TILE_UPDATES st tiles) amount
  = ADD_TILE_UPDATES (POP_TILE_UPDATES st amount) tiles /\
  (Z.to_nat amount = List.length (pendingTileUpdates st) ->
   pendingTileUpdates (POP_TILE_UPDATES (ADD_TILE_UPDATES st tiles) amount) = tiles).
Proof.
  intros st tiles amount Hle.
  unfold POP_TILE_UPDATES, ADD_TILE_UPDATES, splice0.
  cbn [worlds maps players markerSets chatMessages pendingSetUpdates pendingTileUpdates
       currentWorld currentMap updateTimestamp].
  rewrite skipn_app_le by exact Hle. split; [reflexivity|].
  intros Hall. rewrite Hall, skipn_all. reflexivity.
Qed.

Lemma get_fold_set : forall {V W : Type} (sets : JsMap V) (w : W) (acc : JsMap W) k,
  JsMap.get k (fold_left (fun pending entry => JsMap.set (fst entry) w pending) sets acc)
  = if JsMap.has k sets then Some w else JsMap.get k acc.
Proof.
  intros V W sets w. induction sets as [|[k0 v0] rest IH]; intros acc k.
  - reflexivity.
  - cbn [fold_left fst]. rewrite IH, has_cons.
    destruct (JsMap.has k rest); [rewrite orb_true_r; reflexivity|].
    rewrite orb_false_r. destruct (jsval_eqb k0 k) eqn:E.
    + apply jsval_eqb_eq in E. subst k0. apply get_set_same.
    + apply jsval_eqb_neq in E. apply get_set_other. exact E.
Qed.

(** X5.  After [SET_MARKER_SETS] every marker set of the fetch has an empty
    queue and no other queue is left, whatever was pending before. *)
Theorem SET_MARKER_SETS_resets_queues : forall st sets,
  markerSets (SET_MARKER_SETS st sets) = sets /\
  restOfStore (SET_MARKER_SETS st sets) = restOfStore st /\
  (forall key,
     JsMap.get key (pendingSetUpdates (SET_MARKER_SETS st sets))
     = if JsMap.has key sets then Some emptyPending else None) /\
  (forall key c, pendingOf (SET_MARKER_SETS st sets) key c = []).
Proof.
  intros st sets.
  assert (forall key,
            JsMap.get key (pendingSetUpdates (SET_MARKER_SETS st sets))
            = if JsMap.has key sets then Some emptyPending else None) as Hget.
  { intros key. unfold SET_MARKER_SETS.
    cbn [withMarkerSetsAndPending pendingSetUpdates]. rewrite get_fold_set. reflexivity. }
  split; [reflexivity|]. split; [reflexivity|]. split; [exact Hget|].
  intros key c. unfold pendingOf. rewrite Hget.
  destruct (JsMap.has key sets); destruct c; reflexivity.
Qed.

(** X6.  [SET_CURRENT_MAP] is idempotent, and a call that throws leaves the
    store as it was. *)
Theorem SET_CURRENT_MAP_idempotent : forall st worldName mapName,
  after (SET_CURRENT_MAP (after (SET_CURRENT_MAP st worldName mapName)) worldName mapName)
  = after (SET_CURRENT_MAP st worldName mapName) /\
  thrown (SET_CURRENT_MAP (after (SET_CURRENT_MAP st worldName mapName)) worldName mapName)
  = thrown (SET_CURRENT_MAP st worldName mapName) /\
  (thrown (SET_CURRENT_MAP st worldName mapName) <> None ->
   after (SET_CURRENT_MAP st worldName mapName) = st).
Proof.
  intros st worldName mapName. unfold SET_CURRENT_MAP.
  set (mapName' := JStr (join "_" (map (fun v => if nullish v then "" else to_string v)
                                      [worldName; mapName]))).
  destruct (JsMap.get worldName (worlds st)) as [newWorld|] eqn:Hw.
  - destruct (JsMap.has mapName' (maps st)) eqn:Hm; cbn [negb].
    + destruct (match currentWorld st with
                | Some w => negb (Nat.eqb w newWorld)
                | None => true
                end) eqn:Hc;
        cbn [after done thrown worlds maps currentWorld]; rewrite Hw, Hm; cbn [negb].
      * rewrite Nat.eqb_refl. cbn [negb after done thrown]. 
        split; [reflexivity|]. split; [reflexivity|]. congruence.
      * rewrite Hc. cbn [after done thrown].
        split; [reflexivity|]. split; [reflexivity|]. congruence.
    + cbn [after throw thrown]. rewrite Hw, Hm. cbn [negb after throw thrown]. auto.
  - cbn [after throw thrown]. rewrite Hw. cbn [after throw thrown]. auto.
Qed.

(** ** The classifier and the watermark *)

Lemma lt_number_mono : forall v a b,
  a <= b -> lt_number v a = true -> lt_number v b = true.
Proof.
  intros v a b Hle. unfold lt_number. destruct (to_number v); [|discriminate].
  intros H. apply Z.ltb_lt in H. apply Z.ltb_lt. lia.
Qed.

Lemma lt_number_anti : forall v a b,
  a <= b -> lt_number v b = false -> lt_number v a = false.
Proof.
  intros v a b Hle H. destruct (lt_number v a) eqn:E; [|reflexivity].
  rewrite (lt_number_mono v a b Hle E) in H. discriminate.
Qed.

Lemma stale_check_anti : forall w w' v,
  timeValue w <= timeValue w' ->
  (isSet w = true -> isSet w' = true) ->
  isSet w' && lt_number v (timeValue w') = false ->
  isSet w && lt_number v (timeValue w) = false.
Proof.
  intros w w' v Hle Hset H.
  destruct (isSet w) eqn:Ew; [|reflexivity].
  rewrite Hset in H by reflexivity. simpl in *.
  eapply lt_number_anti; eauto.
Qed.

(** X7.  Raising the watermark changes the verdict on a record in two ways
    only: the record may become stale, and a component or tile whose
    timestamp does not convert, which an unset watermark lets pass without
    a comparison, makes the classifier throw once the watermark is set;
    every other record is classified as before, with the same payload,
    counter or error. *)
Theorem raising_watermark_only_adds_stale : forall w w' l entry,
  timeValue w <= timeValue w' ->
  (isSet w = true -> isSet w' = true) ->
  classifyEntry w' l entry = Return (drop Reason.stale l) \/
  classifyEntry w' l entry = classifyEntry w l entry \/
  (isSet w = false /\ isSet w' = true /\
   convertible (prop entry "timestamp") = false /\
   classifyEntry w' l entry = Throw TypeError).
Proof.
  intros w w' l entry Hle Hset. unfold classifyEntry.
  destruct (nullish entry); [right; left; reflexivity|]. cbv zeta.
  assert (forall k : bool -> Completion Locals,
            k true = Return (drop Reason.stale l) ->
            (stale <- olderThanSet w' (prop entry "timestamp") ;; k stale)
            = Return (drop Reason.stale l) \/
            (stale <- olderThanSet w' (prop entry "timestamp") ;; k stale)
            = (stale <- olderThanSet w (prop entry "timestamp") ;; k stale) \/
            (isSet w = false /\ isSet w' = true /\
             convertible (prop entry "timestamp") = false /\
             (stale <- olderThanSet w' (prop entry "timestamp") ;; k stale)
             = Throw TypeError)) as Hguarded.
  { intros k Hk. destruct (convertible (prop entry "timestamp")) eqn:Hc.
    - rewrite !olderThanSet_convertible by exact Hc. cbn [bind].
      destruct (isSet w' && lt_number (prop entry "timestamp") (timeValue w')) eqn:E;
        [left; exact Hk|].
      rewrite (stale_check_anti w w' _ Hle Hset E). right. left. reflexivity.
    - unfold olderThanSet, lessThan. rewrite Hc.
      destruct (isSet w') eqn:Ew', (isSet w) eqn:Ew; cbn [bind].
      + right. left. reflexivity.
      + right. right. auto.
      + specialize (Hset eq_refl). discriminate.
      + right. left. reflexivity. }
  assert (forall k : bool -> Completion Locals,
            k true = Return (drop Reason.stale l) ->
            (stale <- lessThan (prop entry "timestamp") (timeValue w') ;; k stale)
            = Return (drop Reason.stale l) \/
            (stale <- lessThan (prop entry "timestamp") (timeValue w') ;; k stale)
            = (stale <- lessThan (prop entry "timestamp") (timeValue w) ;; k stale))
    as Hcompared.
  { intros k Hk. unfold lessThan.
    destruct (convertible (prop entry "timestamp")); cbn [bind]; [|right; reflexivity].
    destruct (lt_number (prop entry "timestamp") (timeValue w')) eqn:E; [left; exact Hk|].
    rewrite (lt_number_anti _ _ _ Hle E). right. reflexivity. }
  destruct (is_str (prop entry "type") "component").
  { unfold classifyComponent. apply Hguarded. reflexivity. }
  destruct (is_str (prop entry "type") "chat").
  { unfold classifyChat.
    destruct (negb (truthy (prop entry "message"))
              || negb (truthy (prop entry "timestamp"))); [right; left; reflexivity|].
    destruct (Hcompared
                (fun stale : bool =>
                   if stale then Return (drop Reason.stale l)
                   else if negb (is_str (prop entry "source") "player")
                           && negb (is_str (prop entry "source") "web")
                   then Return (drop Reason.notImplemented l)
                   else
                     Return (mkLocals
                       (pushChat (chat (js_or (prop entry "source") JUndef)
                                       (js_or (prop entry "account") JUndef)
                                       (js_or (prop entry "playerName") JUndef)
                                       (js_or (prop entry "message") (JStr ""))
                                       (prop entry "timestamp")
                                       (js_or (prop entry "channel") JUndef))
                                 (updates l))
                       (dropped l) (accepted l))) eq_refl) as [H|H]; auto. }
  assert (forall tag,
            classifyPresence tag w' l entry = Return (drop Reason.stale l) \/
            classifyPresence tag w' l entry = classifyPresence tag w l entry)
    as Hpresence.
  { intros tag. unfold classifyPresence.
    destruct (negb (truthy (prop entry "account"))
              || negb (truthy (prop entry "timestamp"))); [right; reflexivity|].
    apply (Hcompared
             (fun stale : bool =>
                if stale then Return (drop Reason.stale l)
                else
                  Return (mkLocals
                    (pushChat (tag (prop entry "account")
                                   (js_or (prop entry "playerName") (JStr ""))
                                   (js_or (prop entry "timestamp") JUndef))
                              (updates l))
                    (dropped l) (accepted l)))).
    reflexivity. }
  destruct (is_str (prop entry "type") "playerjoin").
  { destruct (Hpresence playerjoin); auto. }
  destruct (is_str (prop entry "type") "playerquit").
  { destruct (Hpresence playerleave); auto. }
  destruct (is_str (prop entry "type") "tile"); [|right; left; reflexivity].
  unfold classifyTile.
  destruct (negb (truthy (prop entry "name"))
            || negb (truthy (prop entry "timestamp"))); [right; left; reflexivity|].
  apply Hguarded. reflexivity.
Qed.

Lemma is_str_eq : forall v s, is_str v s = true -> v = JStr s.
Proof.
  intros v s H. destruct v; try discriminate.
  simpl in H. apply String.eqb_eq in H. congruence.
Qed.

Lemma js_or_truthy : forall a b, truthy a = true -> js_or a b = a.
Proof. intros a b H. unfold js_or. rewrite H. reflexivity. Qed.

Lemma chatOf_fresh : forall lastUpdate entry,
  Forall (freshChat lastUpdate) (chatOf lastUpdate entry).
Proof.
  intros lastUpdate entry. unfold chatOf, classifyEntry.
  destruct (nullish entry); [constructor|].
  destruct (is_str (prop entry "type") "component").
  { rewrite classifyComponent_chatOf. constructor. }
  destruct (is_str (prop entry "type") "chat").
  { unfold classifyChat.
    destruct (truthy (prop entry "message")) eqn:Hm; [|constructor].
    destruct (truthy (prop entry "timestamp")) eqn:Ht; [|constructor].
    cbn [negb orb]. unfold lessThan.
    destruct (convertible (prop entry "timestamp")); cbn [bind]; [|constructor].
    destruct (lt_number (prop entry "timestamp") (timeValue lastUpdate)) eqn:Hlt;
      [constructor|].
    destruct (is_str (prop entry "source") "player") eqn:Hp.
    - cbn [negb andb updates pushChat Updates.chat initialLocals app].
      constructor; [|constructor]. unfold freshChat. cbn [chatTimestamp].
      apply is_str_eq in Hp. rewrite Hp, (js_or_truthy _ _ Hm). cbn [js_or truthy].
      auto.
    - destruct (is_str (prop entry "source") "web") eqn:Hw; [|constructor].
      cbn [negb andb updates pushChat Updates.chat initialLocals app].
      constructor; [|constructor]. unfold freshChat. cbn [chatTimestamp].
      apply is_str_eq in Hw. rewrite Hw, (js_or_truthy _ _ Hm). cbn [js_or truthy].
      auto. }
  assert (forall tag,
            (tag = playerjoin \/ tag = playerleave) ->
            Forall (freshChat lastUpdate)
              match classifyPresence tag lastUpdate initialLocals entry with
              | Return l => Updates.chat (updates l)
              | Throw _ => []
              end)
    as Hpresence.
  { intros tag Htag. unfold classifyPresence.
    destruct (truthy (prop entry "account")) eqn:Ha; [|constructor].
    destruct (truthy (prop entry "timestamp")) eqn:Ht; [|constructor].
    cbn [negb orb]. unfold lessThan.
    destruct (convertible (prop entry "timestamp")); cbn [bind]; [|constructor].
    destruct (lt_number (prop entry "timestamp") (timeValue lastUpdate)) eqn:Hlt;
      [constructor|].
    cbn [updates pushChat Updates.chat initialLocals app].
    constructor; [|constructor]. rewrite (js_or_truthy _ _ Ht).
    destruct Htag as [-> | ->]; unfold freshChat; cbn [chatTimestamp]; auto. }
  destruct (is_str (prop entry "type") "playerjoin"); [apply Hpresence; auto|].
  destruct (is_str (prop entry "type") "playerquit"); [apply Hpresence; auto|].
  destruct (is_str (prop entry "type") "tile"); [|constructor].
  unfold classifyTile, olderThanSet, lessThan. by_branches; constructor.
Qed.

Lemma classifyEntry_tiles_fresh : forall lastUpdate l entry l',
  classifyEntry lastUpdate l entry = Return l' ->
  Forall (freshTile lastUpdate) (Updates.tiles (updates l)) ->
  Forall (freshTile lastUpdate) (Updates.tiles (updates l')).
Proof.
  intros lastUpdate l entry l' H Hall. unfold classifyEntry in H.
  destruct (nullish entry); [discriminate|].
  destruct (is_str (prop entry "type") "component").
  { apply classifyComponent_effect in H. destruct H as (_ & -> & _). exact Hall. }
  destruct (is_str (prop entry "type") "chat").
  { revert H. unfold classifyChat, lessThan.
    by_branches; intros H; try discriminate; injection H as <-; exact Hall. }
  destruct (is_str (prop entry "type") "playerjoin").
  { revert H. unfold classifyPresence, lessThan.
    by_branches; intros H; try discriminate; injection H as <-; exact Hall. }
  destruct (is_str (prop entry "type") "playerquit").
  { revert H. unfold classifyPresence, lessThan.
    by_branches; intros H; try discriminate; injection H as <-; exact Hall. }
  destruct (is_str (prop entry "type") "tile"); [|injection H as <-; exact Hall].
  unfold classifyTile in H.
  destruct (truthy (prop entry "name")) eqn:Hn; cbn [negb orb] in H;
    [|injection H as <-; exact Hall].
  destruct (truthy (prop entry "timestamp")) eqn:Ht; cbn [negb orb] in H;
    [|injection H as <-; exact Hall].
  destruct (olderThanSet lastUpdate (prop entry "timestamp")) as [stale|] eqn:Hs;
    cbn [bind] in H; [|discriminate].
  apply olderThanSet_Return in Hs.
  destruct stale; injection H as <-; [exact Hall|].
  cbn [updates pushTile Updates.tiles]. apply Forall_app. split; [exact Hall|].
  constructor; [|constructor]. unfold freshTile. cbn [TileUpdate.name TileUpdate.timestamp].
  split; [exact Hn|]. split; [exact Ht|].
  intros Hset. rewrite Hset in Hs. symmetry. exact Hs.
Qed.

Lemma classify_tiles_fresh : forall lastUpdate data l l',
  classify lastUpdate l data = Return l' ->
  Forall (freshTile lastUpdate) (Updates.tiles (updates l)) ->
  Forall (freshTile lastUpdate) (Updates.tiles (updates l')).
Proof.
  intros lastUpdate data. induction data as [|entry rest IH]; intros l l' H Hall.
  - injection H as <-. exact Hall.
  - cbn [classify] in H.
    destruct (classifyEntry lastUpdate l entry) as [l1|e] eqn:E; [|discriminate].
    cbn [bind] in H. eapply IH; eauto. eapply classifyEntry_tiles_fresh; eauto.
Qed.

Lemma arrivedChat_fresh : forall lastUpdate data,
  Forall (freshChat lastUpdate) (arrivedChat lastUpdate data).
Proof.
  intros lastUpdate data. unfold arrivedChat. induction data as [|entry rest IH].
  - constructor.
  - cbn [flat_map]. apply Forall_app. split; [apply chatOf_fresh|exact IH].
Qed.

Lemma buildUpdates_chat_fresh : forall lastUpdate data r,
  buildUpdates lastUpdate data = Return r ->
  Forall (freshChat lastUpdate) (Updates.chat (updates r)).
Proof.
  intros lastUpdate data r H. unfold buildUpdates in H.
  destruct (classify lastUpdate initialLocals data) as [l|e] eqn:E; [|discriminate].
  cbn [bind] in H. injection H as <-. cbn [updates Updates.chat].
  apply (Permutation_Forall (sortWith_perm newestFirst (Updates.chat (updates l)))).
  rewrite (classify_chat _ _ _ _ E). cbn [initialLocals updates Updates.chat app].
  apply arrivedChat_fresh.
Qed.

(** X8.  What the classifier returns is fresh and complete: no returned
    chat event or tile update lacks its timestamp or lies below the
    watermark, a chat line has a message and comes from a player or the web,
    and a join or quit names its account. *)
Theorem buildUpdates_returns_fresh_only : forall lastUpdate data r,
  buildUpdates lastUpdate data = Return r ->
  Forall (freshChat lastUpdate) (Updates.chat (updates r)) /\
  Forall (freshTile lastUpdate) (Updates.tiles (updates r)).
Proof.
  intros lastUpdate data r H. split; [eapply buildUpdates_chat_fresh; eauto|].
  unfold buildUpdates in H.
  destruct (classify lastUpdate initialLocals data) as [l|e] eqn:E; [|discriminate].
  cbn [bind] in H. injection H as <-. cbn [updates Updates.tiles].
  eapply classify_tiles_fresh; eauto.
Qed.

Lemma StronglySorted_append : forall {A : Type} (R : A -> A -> Prop) (l1 l2 : list A),
  StronglySorted R l1 -> StronglySorted R l2 ->
  (forall a b, In a l1 -> In b l2 -> R a b) ->
  StronglySorted R (l1 ++ l2)%list.
Proof.
  intros A R l1 l2 H1 H2 Hcross. induction H1 as [|a l1 Hs IH Hall].
  - exact H2.
  - cbn [app]. constructor.
    + apply IH. intros x y Hx Hy. apply Hcross; [right; exact Hx|exact Hy].
    + apply Forall_app. split; [exact Hall|].
      apply Forall_forall. intros y Hy. apply Hcross; [left; reflexivity|exact Hy].
Qed.

Lemma freshChat_timeOf : forall lastUpdate c,
  freshChat lastUpdate c -> numericTimestamp c -> timeValue lastUpdate <= timeOf c.
Proof.
  intros lastUpdate c (_ & Hlt & _) [t Ht]. unfold timeOf. unfold lt_number in Hlt.
  rewrite Ht in *. apply Z.ltb_ge in Hlt. exact Hlt.
Qed.

(** X9.  A chat history that is newest first and holds nothing newer than
    the watermark is still newest first after [ADD_CHAT] has put the chat of
    the next fetch in front of it. *)
Theorem ADD_CHAT_keeps_newest_first : forall st data r,
  buildUpdates (updateTimestamp st) data = Return r ->
  Forall numericTimestamp (Updates.chat (updates r)) ->
  StronglySorted notOlder (chatMessages st) ->
  Forall (fun c => timeOf c <= timeValue (updateTimestamp st)) (chatMessages st) ->
  StronglySorted notOlder (chatMessages (ADD_CHAT st (Updates.chat (updates r)))).
Proof.
  intros st data r Hrun Hnum Hsorted Hold.
  pose proof (buildUpdates_chat_fresh _ _ _ Hrun) as Hfresh.
  unfold ADD_CHAT. cbn [chatMessages].
  apply StronglySorted_append.
  - unfold buildUpdates in Hrun.
    destruct (classify (updateTimestamp st) initialLocals data) as [l|e]; [|discriminate].
    cbn [bind] in Hrun. injection Hrun as <-. cbn [updates Updates.chat] in *.
    apply sortWith_newestFirst_sorted.
    apply (Permutation_Forall
             (Permutation_sym (sortWith_perm newestFirst (Updates.chat (updates l))))).
    exact Hnum.
  - exact Hsorted.
  - intros a b Ha Hb. unfold notOlder.
    rewrite Forall_forall in Hfresh, Hnum, Hold.
    pose proof (freshChat_timeOf _ _ (Hfresh a Ha) (Hnum a Ha)).
    pose proof (Hold b Hb). lia.
Qed.

(** ** The classifier: the buckets it fills *)

Lemma Forall_JsMap_set : forall {V : Type} (P : jsval * V -> Prop) (m : JsMap V) k v,
  Forall P m -> P (k, v) -> Forall P (JsMap.set k v m).
Proof.
  intros V P m k v Hall Hnew. induction Hall as [|[k' v'] rest Hhead Hall IH].
  - constructor; [exact Hnew|constructor].
  - cbn [JsMap.set]. destruct (jsval_eqb k' k) eqn:E.
    + apply jsval_eqb_eq in E. subst k'. constructor; assumption.
    + constructor; assumption.
Qed.

Lemma get_Some_In : forall {V : Type} (m : JsMap V) k v,
  JsMap.get k m = Some v -> In (k, v) m.
Proof.
  intros V m k v. induction m as [|[k' v'] rest IH]; [discriminate|].
  cbn [JsMap.get]. destruct (jsval_eqb k' k) eqn:E.
  - apply jsval_eqb_eq in E. subst k'. intros H. injection H as <-. left. reflexivity.
  - intros H. right. apply IH. exact H.
Qed.

Lemma builders_object : forall entry payload,
  (forall id, buildMarkerSet id entry = Return payload -> exists fields, payload = JObj fields)
  /\ (buildMarker entry = Return payload -> exists fields, payload = JObj fields)
  /\ (buildArea entry = Return payload -> exists fields, payload = JObj fields)
  /\ (buildLine entry = Return payload -> exists fields, payload = JObj fields)
  /\ (buildCircle entry = Return payload -> exists fields, payload = JObj fields).
Proof.
  intros entry payload.
  unfold buildMarkerSet, buildMarker, buildArea, buildLine, buildCircle.
  destruct (markerDimensions (prop entry "dim"));
    destruct (zoomBound (prop entry "minzoom"));
    destruct (zoomBound (prop entry "maxzoom")); cbn [bind];
    repeat split; intros; try discriminate;
    match goal with
    | H : Return _ = Return _ |- _ => injection H as <-; eexists; reflexivity
    end.
Qed.

Lemma soundBucket_empty : forall key,
  truthy key = true -> soundBucket key emptySetUpdates.
Proof.
  intros key Hkey. split; [exact Hkey|]. split.
  - intros []; constructor.
  - left. split; reflexivity.
Qed.

Lemma fileUpdate_sound : forall set entry msg removed b b',
  truthy (prop entry "id") = true ->
  soundBucket set b ->
  fileUpdate set entry msg removed b = Return b' ->
  soundBucket set b'.
Proof.
  intros set entry msg removed [areaU markerU lineU circleU bRemoved bPayload] b'
    Hid (Hkey & Hqueues & Hlevel) H.
  pose proof (Hqueues Markers) as Hm. pose proof (Hqueues Areas) as Ha.
  pose proof (Hqueues Circles) as Hc. pose proof (Hqueues Lines) as Hl.
  cbn [queue SetUpdates.markerUpdates SetUpdates.areaUpdates SetUpdates.circleUpdates
       SetUpdates.lineUpdates] in Hm, Ha, Hc, Hl.
  cbn [SetUpdates.removed SetUpdates.payload] in Hlevel.
  assert (forall (build : Completion jsval) payload,
            (build = Return payload -> exists fields, payload = JObj fields) ->
            (if removed then Return JUndef else build) = Return payload ->
            soundUpdate (Update.make (prop entry "id") removed payload)) as Hnew.
  { intros build payload Hobj Hp. split; [exact Hid|]. cbn [Update.removed Update.payload].
    destruct removed; [injection Hp as <-; reflexivity|apply Hobj; exact Hp]. }
  unfold fileUpdate in H.
  destruct (startsWith "set" msg).
  { destruct (if removed then Return JUndef else buildMarkerSet set entry)
      as [payload|] eqn:E; cbn [bind] in H; [|discriminate].
    injection H as <-. split; [exact Hkey|]. split.
    - intros []; assumption.
    - cbn [SetUpdates.removed SetUpdates.payload].
      destruct removed; [injection E as <-; right; left; auto|].
      right. right. split; [reflexivity|]. exists entry. exact E. }
  destruct (startsWith "marker" msg).
  { destruct (if removed then Return JUndef else buildMarker entry)
      as [payload|] eqn:E; cbn [bind] in H; [|discriminate].
    injection H as <-. split; [exact Hkey|]. split; [|exact Hlevel].
    intros []; try assumption. cbn [queue SetUpdates.markerUpdates].
    apply Forall_app. split; [exact Hm|]. constructor; [|constructor].
    apply (Hnew _ _ (proj1 (proj2 (builders_object entry payload))) E). }
  destruct (startsWith "area" msg).
  { destruct (if removed then Return JUndef else buildArea entry)
      as [payload|] eqn:E; cbn [bind] in H; [|discriminate].
    injection H as <-. split; [exact Hkey|]. split; [|exact Hlevel].
    intros []; try assumption. cbn [queue SetUpdates.areaUpdates].
    apply Forall_app. split; [exact Ha|]. constructor; [|constructor].
    apply (Hnew _ _ (proj1 (proj2 (proj2 (builders_object entry payload)))) E). }
  destruct (startsWith "circle" msg).
  { destruct (if removed then Return JUndef else buildCircle entry)
      as [payload|] eqn:E; cbn [bind] in H; [|discriminate].
    injection H as <-. split; [exact Hkey|]. split; [|exact Hlevel].
    intros []; try assumption. cbn [queue SetUpdates.circleUpdates].
    apply Forall_app. split; [exact Hc|]. constructor; [|constructor].
    apply (Hnew _ _ (proj2 (proj2 (proj2 (proj2 (builders_object entry payload))))) E). }
  destruct (startsWith "line" msg).
  { destruct (if removed then Return JUndef else buildLine entry)
      as [payload|] eqn:E; cbn [bind] in H; [|discriminate].
    injection H as <-. split; [exact Hkey|]. split; [|exact Hlevel].
    intros []; try assumption. cbn [queue SetUpdates.lineUpdates].
    apply Forall_app. split; [exact Hl|]. constructor; [|constructor].
    apply (Hnew _ _ (proj1 (proj2 (proj2 (proj2 (builders_object entry payload))))) E). }
  injection H as <-. split; [exact Hkey|]. split; [|exact Hlevel].
  intros []; assumption.
Qed.

Lemma classifyComponent_sound : forall lastUpdate l entry l',
  classifyComponent lastUpdate l entry = Return l' ->
  soundBuckets (Updates.markerSets (updates l)) ->
  soundBuckets (Updates.markerSets (updates l')).
Proof.
  intros lastUpdate l entry l' H Hall. unfold classifyComponent in H.
  destruct (olderThanSet lastUpdate (prop entry "timestamp")) as [[|]|];
    cbn [bind] in H; [injection H as <-; exact Hall| |discriminate].
  destruct (truthy (prop entry "id")) eqn:Hid; cbn [negb] in H;
    [|injection H as <-; exact Hall].
  destruct (receiver (prop entry "msg")) as [msg|e]; [|discriminate].
  cbn [bind] in H.
  set (set := if startsWith "set" msg then prop entry "id" else prop entry "set") in *.
  destruct (truthy set) eqn:Hset; cbn [negb] in H; [|injection H as <-; exact Hall].
  destruct (is_str (prop entry "ctype") "markers"); cbn [negb] in H;
    [|injection H as <-; exact Hall].
  set (markerSets :=
         if JsMap.has set (Updates.markerSets (updates l))
         then Updates.markerSets (updates l)
         else JsMap.set set emptySetUpdates (Updates.markerSets (updates l))) in *.
  assert (soundBuckets markerSets) as Hall'.
  { subst markerSets. destruct (JsMap.has set (Updates.markerSets (updates l)));
      [exact Hall|].
    apply Forall_JsMap_set; [exact Hall|]. apply soundBucket_empty. exact Hset. }
  destruct (JsMap.get set markerSets) as [b|] eqn:Hb; [|discriminate].
  destruct (fileUpdate set entry msg (endsWith "deleted" msg) b) as [b'|e] eqn:Hfile;
    [|discriminate].
  cbn [bind] in H. injection H as <-.
  cbn [updates withMarkerSets Updates.markerSets].
  apply Forall_JsMap_set; [exact Hall'|]. cbn [fst snd].
  eapply fileUpdate_sound; eauto.
  apply get_Some_In in Hb. unfold soundBuckets in Hall'.
  rewrite Forall_forall in Hall'. apply (Hall' (set, b) Hb).
Qed.

Lemma classifyEntry_sound : forall lastUpdate l entry l',
  classifyEntry lastUpdate l entry = Return l' ->
  soundBuckets (Updates.markerSets (updates l)) ->
  soundBuckets (Updates.markerSets (updates l')).
Proof.
  intros lastUpdate l entry l' H Hall. unfold classifyEntry in H.
  destruct (nullish entry); [discriminate|].
  destruct (is_str (prop entry "type") "component").
  { eapply classifyComponent_sound; eauto. }
  revert H. unfold classifyChat, classifyPresence, classifyTile, olderThanSet, lessThan.
  by_branches; intros H; try discriminate; injection H as <-; exact Hall.
Qed.

Lemma classify_sound : forall lastUpdate data l l',
  classify lastUpdate l data = Return l' ->
  soundBuckets (Updates.markerSets (updates l)) ->
  soundBuckets (Updates.markerSets (updates l')).
Proof.
  intros lastUpdate data. induction data as [|entry rest IH]; intros l l' H Hall.
  - injection H as <-. exact Hall.
  - cbn [classify] in H.
    destruct (classifyEntry lastUpdate l entry) as [l1|e] eqn:E; [|discriminate].
    cbn [bind] in H. eapply IH; eauto. eapply classifyEntry_sound; eauto.
Qed.

(** X10.  Every bucket that the classifier returns is filed under a truthy
    key; each of its deltas names its entity and carries a built payload
    unless it is a removal; and its set-level part is untouched, a removal,
    or a payload built for that key: a removal never comes with a
    payload. *)
Theorem buildUpdates_buckets_sound : forall lastUpdate data r key b,
  buildUpdates lastUpdate data = Return r ->
  In (key, b) (Updates.markerSets (updates r)) ->
  soundBucket key b.
Proof.
  intros lastUpdate data r key b H Hin. unfold buildUpdates in H.
  destruct (classify lastUpdate initialLocals data) as [l|e] eqn:E; [|discriminate].
  cbn [bind] in H. injection H as <-. cbn [updates Updates.markerSets] in Hin.
  assert (soundBuckets (Updates.markerSets (updates l))) as Hall.
  { eapply classify_sound; eauto. constructor. }
  unfold soundBuckets in Hall. rewrite Forall_forall in Hall.
  apply (Hall (key, b) Hin).
Qed.

(** ** The player registry: merging a whole snapshot *)

Lemma firstn_plus : forall {A : Type} (a b : nat) (l : list A),
  firstn (a + b) l = (firstn a l ++ firstn b (skipn a l))%list.
Proof.
  intros A a. induction a as [|a IH]; intros b l; [reflexivity|].
  destruct l as [|x l]; cbn [Nat.add firstn skipn app].
  - rewrite firstn_nil. reflexivity.
  - rewrite IH. reflexivity.
Qed.

Lemma skipn_plus : forall {A : Type} (a b : nat) (l : list A),
  skipn (a + b) l = skipn b (skipn a l).
Proof.
  intros A a. induction a as [|a IH]; intros b l; [reflexivity|].
  destruct l as [|x l]; cbn [Nat.add skipn].
  - rewrite skipn_nil. reflexivity.
  - apply IH.
Qed.

Lemma withPlayers_same : forall st, withPlayers (players st) st = st.
Proof. intros []. reflexivity. Qed.

Lemma withPlayers_twice : forall st r r',
  withPlayers r' (withPlayers r st) = withPlayers r' st.
Proof. intros [] r r'. reflexivity. Qed.

Lemma setPlayersRepeatedly_fold : forall calls st incoming,
  setPlayersRepeatedly calls st incoming
  = (withPlayers (fold_left setPlayer (firstn (10 * calls) incoming) (players st)) st,
     skipn (10 * calls) incoming).
Proof.
  induction calls as [|n IH]; intros st incoming.
  - rewrite Nat.mul_0_r. cbn [setPlayersRepeatedly firstn skipn fold_left].
    rewrite withPlayers_same. reflexivity.
  - cbn [setPlayersRepeatedly]. rewrite SET_PLAYERS_ASYNC_firstn, IH.
    replace (10 * S n)%nat with (10 + 10 * n)%nat by lia.
    rewrite firstn_plus, skipn_plus, fold_left_app, withPlayers_twice.
    reflexivity.
Qed.

(** X11.  [SET_PLAYERS_ASYNC] called again and again on the set it returns
    merges the snapshot ten players at a time, in order; once ten times the
    number of calls covers the snapshot, the set is empty and the registry
    is the one that setting every player in turn gives. *)
Theorem SET_PLAYERS_ASYNC_drains : forall calls st incoming,
  (List.length incoming <= 10 * calls)%nat ->
  (forall n,
     snd (setPlayersRepeatedly n st incoming) = skipn (10 * n) incoming /\
     players (fst (setPlayersRepeatedly n st incoming))
     = fold_left setPlayer (firstn (10 * n) incoming) (players st)) /\
  setPlayersRepeatedly calls st incoming
  = (withPlayers (fold_left setPlayer incoming (players st)) st, []).
Proof.
  intros calls st incoming Hle. split.
  - intros n. rewrite setPlayersRepeatedly_fold. split; [reflexivity|].
    destruct st; reflexivity.
  - rewrite setPlayersRepeatedly_fold, firstn_all2, skipn_all2 by exact Hle.
    reflexivity.
Qed.

Lemma In_JsMap_set : forall {V : Type} (m : JsMap V) k0 v0 k v,
  In (k, v) (JsMap.set k0 v0 m) -> In (k, v) m \/ (k = k0 /\ v = v0).
Proof.
  intros V m k0 v0 k v. induction m as [|[k' v'] rest IH]; cbn [JsMap.set].
  - intros [H|[]]. injection H as <- <-. auto.
  - destruct (jsval_eqb k' k0) eqn:E.
    + apply jsval_eqb_eq in E. subst k'. intros [H|H].
      * injection H as <- <-. auto.
      * left. right. exact H.
    + intros [H|H].
      * left. left. exact H.
      * destruct (IH H) as [H'|H']; [left; right; exact H'|right; exact H'].
Qed.

Lemma setPlayer_keyedByAccount : forall registry p,
  keyedByAccount registry -> keyedByAccount (setPlayer registry p).
Proof.
  intros registry p Hkeyed k q Hin. unfold setPlayer in Hin.
  destruct (JsMap.get (Player.account p) registry) as [existing|] eqn:Hget;
    apply In_JsMap_set in Hin; destruct Hin as [Hin|[-> ->]]; auto.
  cbn [Player.account]. apply Hkeyed. apply get_Some_In. exact Hget.
Qed.

Lemma fold_setPlayer_keyedByAccount : forall ps registry,
  keyedByAccount registry -> keyedByAccount (fold_left setPlayer ps registry).
Proof.
  induction ps as [|p ps IH]; intros registry H; [exact H|].
  cbn [fold_left]. apply IH. apply setPlayer_keyedByAccount. exact H.
Qed.

Lemma get_filter_by_key : forall {V : Type} (f : jsval * V -> bool) (g : jsval -> bool)
    (m : JsMap V) k,
  (forall entry, In entry m -> f entry = g (fst entry)) ->
  JsMap.get k (filter f m) = if g k then JsMap.get k m else None.
Proof.
  intros V f g m k. induction m as [|[k' v'] rest IH]; intros Hfg.
  - destruct (g k); reflexivity.
  - cbn [filter JsMap.get]. rewrite (Hfg (k', v')) by (left; reflexivity). cbn [fst].
    assert (forall entry, In entry rest -> f entry = g (fst entry)) as Hrest.
    { intros entry Hin. apply Hfg. right. exact Hin. }
    specialize (IH Hrest).
    destruct (jsval_eqb k' k) eqn:E.
    + apply jsval_eqb_eq in E. subst k'.
      destruct (g k); [cbn [JsMap.get]; rewrite jsval_eqb_refl; reflexivity|exact IH].
    + destruct (g k'); [cbn [JsMap.get]; rewrite E|]; exact IH.
Qed.

(** X12.  Merging a whole snapshot and then pruning with the accounts of
    that snapshot leaves a registry whose keys are exactly those accounts,
    each entry filed under its own account. *)
Theorem players_follow_the_snapshot : forall calls st incoming,
  wellFormed (players st) ->
  keyedByAccount (players st) ->
  (List.length incoming <= 10 * calls)%nat ->
  let merged := fst (setPlayersRepeatedly calls st incoming) in
  let swept := SYNC_PLAYERS merged (map Player.account incoming) in
  (forall k,
     JsMap.has k (players swept)
     = existsb (jsval_eqb k) (map Player.account incoming)) /\
  keyedByAccount (players swept) /\
  wellFormed (players swept).
Proof.
  intros calls st incoming Hwf Hkeyed Hle merged swept.
  set (keep := map Player.account incoming) in *.
  assert (players merged = fold_left setPlayer incoming (players st)) as Hmerged.
  { subst merged. rewrite setPlayersRepeatedly_fold, firstn_all2 by exact Hle.
    destruct st; reflexivity. }
  assert (wellFormed (players merged)) as Hwf'.
  { rewrite Hmerged. apply fold_setPlayer_wellFormed. exact Hwf. }
  assert (keyedByAccount (players merged)) as Hkeyed'.
  { rewrite Hmerged. apply fold_setPlayer_keyedByAccount. exact Hkeyed. }
  destruct (SYNC_PLAYERS_filter merged keep Hwf') as [Hswept _].
  fold swept in Hswept.
  split; [|split].
  - intros k. unfold JsMap.has. rewrite Hswept.
    rewrite (get_filter_by_key (kept keep) (fun k => existsb (jsval_eqb k) keep)).
    + destruct (existsb (jsval_eqb k) keep) eqn:E; [|reflexivity].
      fold (JsMap.has k (players merged)).
      rewrite Hmerged, fold_setPlayer_has. fold keep. rewrite E.
      apply orb_true_r.
    + intros [k' p] Hin. unfold kept. cbn [fst snd].
      rewrite (Hkeyed' k' p Hin). reflexivity.
  - rewrite Hswept. intros k p Hin. apply filter_In in Hin. apply Hkeyed'. tauto.
  - rewrite Hswept. apply filter_wellFormed. exact Hwf'.
Qed.

(** ** The configuration builders *)

Lemma js_or_default_truthy : forall a b, truthy b = true -> truthy (js_or a b) = true.
Proof. intros a b Hb. unfold js_or. destruct (truthy a) eqn:Ha; assumption. Qed.

(** X13.  The server configuration that [buildServerConfig] returns always
    has the layer control switched on, and an update interval and a title
    that are truthy: a response that sets [showlayercontrol] to [false]
    still gets [true]. *)
Theorem buildServerConfig_layer_control_stays_on : forall response config,
  buildServerConfig response = Return config ->
  nullish response = false /\
  truthy (prop config "showLayerControl") = true /\
  (truthy (prop response "showlayercontrol") = false ->
   prop config "showLayerControl" = JBool true) /\
  truthy (prop config "updateInterval") = true /\
  truthy (prop config "title") = true.
Proof.
  intros response config H. unfold buildServerConfig in H.
  destruct (nullish response); [discriminate|]. injection H as <-.
  cbn [prop lookup_field String.eqb Ascii.eqb Bool.eqb].
  split; [reflexivity|]. split; [apply js_or_default_truthy; reflexivity|].
  split; [|split; apply js_or_default_truthy; reflexivity].
  intros Hoff. unfold js_or. rewrite Hoff. reflexivity.
Qed.

Lemma is_str_exclusive : forall v a b,
  is_str v a = true -> a <> b -> is_str v b = false.
Proof.
  intros v a b H Hne. apply is_str_eq in H. subst v. simpl.
  apply String.eqb_neq. exact Hne.
Qed.

(** In the branch of the [switch] that [E] selects, decide every other
    comparison of the type tag. *)
Ltac settle_type E :=
  repeat match goal with
         | |- context [is_str ?t ?s'] =>
             match type of E with
             | is_str t ?s = true => rewrite (is_str_exclusive t s s' E) by discriminate
             end
         end;
  try rewrite E.

(** The next [case] of the [switch] in [H]. *)
Ltac next_case H E :=
  match type of H with
  | (if is_str ?t ?s then _ else _) = _ => destruct (is_str t s) eqn:E
  end.

(** What one component does to the logo controls and to chat sending. *)
Lemma buildComponent_effect : forall response acc component acc',
  buildComponent response acc component = Return acc' ->
  nullish component = false /\
  (if isLogo component
   then exists logo,
          logoControl component = Return logo /\
          Components.logoControls acc' = (Components.logoControls acc ++ [logo])%list
   else Components.logoControls acc' = Components.logoControls acc) /\
  (Components.chatSending acc'
   = if isChat component && truthy (prop response "allowwebchat")
     then Some (JObj [
            ("loginRequired", js_or (prop response "webchat-requires-login") (JBool false));
            ("maxLength", js_or (prop response "chatlengthlimit") (JNum 256));
            ("cooldown", js_or (prop response "webchat-interval") (JNum 5))])
     else Components.chatSending acc).
Proof.
  intros response acc component acc' H. unfold buildComponent in H.
  destruct (nullish component); [discriminate|]. split; [reflexivity|].
  destruct acc as [cb cbal pm cc lc clk logos cs]. cbv zeta in H.
  unfold isLogo, isChat, componentType.
  next_case H E1. { injection H as <-. settle_type E1. auto. }
  next_case H E2. { injection H as <-. settle_type E2. auto. }
  next_case H E3. { injection H as <-. settle_type E3. auto. }
  next_case H E4. { injection H as <-. settle_type E4. auto. }
  next_case H E5. { injection H as <-. settle_type E5. auto. }
  next_case H E6.
  { destruct (logoControl component) as [logo|e] eqn:Hlogo; [|discriminate].
    cbn [bind] in H. injection H as <-. settle_type E6.
    split; [|reflexivity]. exists logo. auto. }
  next_case H E7.
  { destruct (truthy (prop response "allowwebchat")); injection H as <-; auto. }
  cbn [andb].
  next_case H E8. { injection H as <-. auto. }
  next_case H E9; injection H as <-; auto.
Qed.

Lemma buildComponent_returns : forall response acc component,
  readableComponent component ->
  exists acc', buildComponent response acc component = Return acc'.
Proof.
  intros response acc component [Hnn Hpos]. unfold buildComponent. rewrite Hnn.
  destruct acc as [cb cbal pm cc lc clk logos cs]. cbv zeta.
  unfold isLogo, componentType in Hpos.
  repeat match goal with
         | |- context [if is_str ?t ?s then _ else _] =>
             destruct (is_str t s) eqn:?; try (eexists; reflexivity)
         end.
  - destruct Hpos as [position Hposition]; [reflexivity|].
    unfold logoControl. rewrite Hposition. cbn [receiver bind]. eexists. reflexivity.
  - destruct (truthy (prop response "allowwebchat")); eexists; reflexivity.
Qed.

Lemma buildComponent_readable : forall response acc component acc',
  buildComponent response acc component = Return acc' -> readableComponent component.
Proof.
  intros response acc component acc' H.
  destruct (buildComponent_effect _ _ _ _ H) as (Hnn & Hlogo & _).
  split; [exact Hnn|]. intros Hyes. rewrite Hyes in Hlogo.
  destruct Hlogo as (logo & Hlogo & _). unfold logoControl in Hlogo.
  destruct (prop component "position"); try discriminate. eexists. reflexivity.
Qed.

Lemma buildComponentsFrom_returns : forall response items acc,
  Forall readableComponent items ->
  exists components, buildComponentsFrom response acc items = Return components.
Proof.
  intros response items. induction items as [|component rest IH]; intros acc Hall.
  - eexists. reflexivity.
  - inversion Hall as [|? ? Hhead Hrest]; subst. cbn [buildComponentsFrom].
    destruct (buildComponent_returns response acc component Hhead) as [acc' ->].
    cbn [bind]. apply IH. exact Hrest.
Qed.

Lemma buildComponentsFrom_effect : forall response items acc components,
  buildComponentsFrom response acc items = Return components ->
  Forall readableComponent items /\
  (exists logos,
     Components.logoControls components = (Components.logoControls acc ++ logos)%list /\
     Forall2 (fun component logo => logoControl component = Return logo)
       (filter isLogo items) logos) /\
  Components.chatSending components
  = if truthy (prop response "allowwebchat") && existsb isChat items
    then Some (chatSendingOf response) else Components.chatSending acc.
Proof.
  intros response items. induction items as [|component rest IH]; intros acc components H.
  - injection H as <-. split; [constructor|]. split.
    + exists []. rewrite app_nil_r. split; [reflexivity|constructor].
    + rewrite andb_false_r. reflexivity.
  - cbn [buildComponentsFrom] in H.
    destruct (buildComponent response acc component) as [acc'|e] eqn:Hone; [|discriminate].
    cbn [bind] in H.
    destruct (IH _ _ H) as (Hall & (logos & Hlogos & Hbuilt) & Hchat).
    destruct (buildComponent_effect _ _ _ _ Hone) as (_ & Hlogo & Hsend).
    split; [|split].
    + constructor; [eapply buildComponent_readable; eauto|exact Hall].
    + cbn [filter]. destruct (isLogo component).
      * destruct Hlogo as (logo & Hlogo & Hacc'). exists (logo :: logos). split.
        -- rewrite Hlogos, Hacc', <- app_assoc. reflexivity.
        -- constructor; assumption.
      * exists logos. split; [rewrite Hlogos, Hlogo; reflexivity|exact Hbuilt].
    + rewrite Hchat, Hsend. cbn [existsb]. unfold chatSendingOf.
      destruct (truthy (prop response "allowwebchat")), (isChat component),
        (existsb isChat rest); reflexivity.
Qed.

Lemma buildComponents_items : forall response components,
  buildComponents response = Return components ->
  nullish response = false /\
  exists items,
    responseComponents response = Some items /\
    buildComponentsFrom response noComponents items = Return components.
Proof.
  intros response components H. unfold buildComponents in H.
  destruct (nullish response); [discriminate|]. split; [reflexivity|].
  unfold responseComponents.
  destruct (js_or (prop response "components") (JArr [])); try discriminate.
  cbn [arrayItems bind] in H. eexists. split; [reflexivity|exact H].
Qed.

(** X14.  [buildComponents] returns exactly for a response that is not
    [null] or [undefined], whose [components] are an array or falsy, with no
    [null] among them and a string as the [position] of every logo; for any
    other response it throws. *)
Theorem buildComponents_returns_iff : forall response,
  (exists components, buildComponents response = Return components) <->
  nullish response = false /\
  exists items,
    responseComponents response = Some items /\ Forall readableComponent items.
Proof.
  intros response. split.
  - intros [components H].
    destruct (buildComponents_items _ _ H) as (Hnn & items & Hitems & Hfrom).
    split; [exact Hnn|]. exists items. split; [exact Hitems|].
    apply (buildComponentsFrom_effect _ _ _ _ Hfrom).
  - intros (Hnn & items & Hitems & Hall). unfold buildComponents. rewrite Hnn.
    unfold responseComponents in Hitems.
    destruct (js_or (prop response "components") (JArr [])); try discriminate.
    injection Hitems as ->. cbn [arrayItems bind].
    apply buildComponentsFrom_returns. exact Hall.
Qed.

(** X15.  The logo controls that [buildComponents] returns are the controls
    of the logo components of the response, one for each, in the order of
    the response. *)
Theorem buildComponents_logos_in_order : forall response components,
  buildComponents response = Return components ->
  exists items,
    responseComponents response = Some items /\
    Forall2 (fun component logo => logoControl component = Return logo)
      (filter isLogo items) (Components.logoControls components).
Proof.
  intros response components H.
  destruct (buildComponents_items _ _ H) as (_ & items & Hitems & Hfrom).
  exists items. split; [exact Hitems|].
  destruct (buildComponentsFrom_effect _ _ _ _ Hfrom) as (_ & (logos & -> & Hbuilt) & _).
  exact Hbuilt.
Qed.

(** X16.  Chat can be sent exactly when the response allows web chat and
    lists a chat component; the limits then come from the response, with
    256 characters and 5 seconds where it names none. *)
Theorem chat_sending_needs_webchat_and_component : forall response components,
  buildComponents response = Return components ->
  exists items,
    responseComponents response = Some items /\
    Components.chatSending components
    = if truthy (prop response "allowwebchat") && existsb isChat items
      then Some (chatSendingOf response) else None.
Proof.
  intros response components H.
  destruct (buildComponents_items _ _ H) as (_ & items & Hitems & Hfrom).
  exists items. split; [exact Hitems|].
  apply (buildComponentsFrom_effect _ _ _ _ Hfrom).
Qed.

Lemma buildWorldMaps_returns : forall world items maps,
  Forall (fun map => nullish map = false) items ->
  exists maps', buildWorldMaps world maps items = Return maps'.
Proof.
  intros world items. induction items as [|map rest IH]; intros maps Hall.
  - eexists. reflexivity.
  - inversion Hall as [|? ? Hhead Hrest]; subst. cbn [buildWorldMaps]. rewrite Hhead.
    apply IH. exact Hrest.
Qed.

Lemma buildWorldMaps_effect : forall world items maps maps',
  buildWorldMaps world maps items = Return maps' ->
  Forall (fun map => nullish map = false) items /\
  (wellFormed maps -> wellFormed maps') /\
  forall k,
    JsMap.has k maps'
    = JsMap.has k maps || existsb (fun map => jsval_eqb (prop map "name") k) items.
Proof.
  intros world items. induction items as [|map rest IH]; intros maps maps' H.
  - injection H as <-. split; [constructor|]. split; [auto|].
    intros k. rewrite orb_false_r. reflexivity.
  - cbn [buildWorldMaps] in H. destruct (nullish map) eqn:Hnn; [discriminate|].
    destruct (IH _ _ H) as (Hall & Hwf & Hhas). split; [|split].
    + constructor; assumption.
    + intros Hmaps. apply Hwf. apply wellFormed_set. exact Hmaps.
    + intros k. rewrite Hhas, has_set. cbn [existsb].
      destruct (jsval_eqb (prop map "name") k), (JsMap.has k maps); reflexivity.
Qed.

Lemma buildWorld_returns : forall world,
  readableWorld world -> exists w, buildWorld world = Return w.
Proof.
  intros world (Hnn & (maps & Hmaps & Hall) & Hcenter). unfold buildWorld.
  rewrite Hnn, Hmaps. cbn [arrayItems bind].
  destruct (buildWorldMaps_returns world maps [] Hall) as [built ->].
  cbn [bind]. rewrite Hcenter. eexists. reflexivity.
Qed.

Lemma buildWorld_effect : forall world w,
  buildWorld world = Return w -> readableWorld world /\ worldOf world w.
Proof.
  intros world w H. unfold buildWorld in H.
  destruct (nullish world) eqn:Hnn; [discriminate|].
  unfold readableWorld, worldOf, worldMaps.
  destruct (js_or (prop world "maps") (JArr [])) as [| | | | |items| |] eqn:Hmaps;
    try discriminate.
  cbn [arrayItems bind] in H.
  destruct (buildWorldMaps world [] items) as [built|e] eqn:Hbuilt; [|discriminate].
  cbn [bind] in H.
  destruct (nullish (prop world "center")) eqn:Hcenter; [discriminate|].
  injection H as <-.
  destruct (buildWorldMaps_effect _ _ _ _ Hbuilt) as (Hall & Hwf & Hhas).
  split.
  - split; [exact Hnn|]. split; [|reflexivity]. exists items. auto.
  - cbn [World.name World.seaLevel World.height World.maps].
    split; [reflexivity|].
    split; [apply js_or_default_truthy; reflexivity|].
    split; [apply js_or_default_truthy; reflexivity|].
    split; [apply js_or_default_truthy; reflexivity|].
    split; [apply Hwf; reflexivity|].
    intros k. rewrite Hhas. reflexivity.
Qed.

Lemma buildWorldsFrom_returns : forall items,
  Forall readableWorld items -> exists ws, buildWorldsFrom items = Return ws.
Proof.
  induction items as [|world rest IH]; intros Hall.
  - eexists. reflexivity.
  - inversion Hall as [|? ? Hhead Hrest]; subst. cbn [buildWorldsFrom].
    destruct (buildWorld_returns world Hhead) as [w ->].
    destruct (IH Hrest) as [ws ->]. cbn [bind]. eexists. reflexivity.
Qed.

Lemma buildWorldsFrom_effect : forall items ws,
  buildWorldsFrom items = Return ws ->
  Forall readableWorld items /\ Forall2 worldOf items ws.
Proof.
  induction items as [|world rest IH]; intros ws H.
  - injection H as <-. split; constructor.
  - cbn [buildWorldsFrom] in H.
    destruct (buildWorld world) as [w|e] eqn:Hw; [|discriminate].
    destruct (buildWorldsFrom rest) as [ws'|e] eqn:Hrest; [|discriminate].
    cbn [bind] in H. injection H as <-.
    destruct (buildWorld_effect _ _ Hw) as [Hreadable Hof].
    destruct (IH _ eq_refl) as [Hall Hall2].
    split; constructor; assumption.
Qed.

Lemma buildWorlds_items : forall response ws,
  buildWorlds response = Return ws ->
  nullish response = false /\
  exists items, responseWorlds response = Some items /\ buildWorldsFrom items = Return ws.
Proof.
  intros response ws H. unfold buildWorlds in H.
  destruct (nullish response); [discriminate|]. split; [reflexivity|].
  unfold responseWorlds.
  destruct (js_or (prop response "worlds") (JArr [])); try discriminate.
  cbn [arrayItems bind] in H. eexists. split; [reflexivity|exact H].
Qed.

(** X17.  [buildWorlds] returns exactly for a response that is not [null]
    or [undefined] and whose [worlds] are falsy or an array of entries that
    each have a [center] and, as [maps], a falsy value or an array without
    [null]; any other response, such as one with a world that lacks its
    [center], makes it throw. *)
Theorem buildWorlds_returns_iff : forall response,
  (exists ws, buildWorlds response = Return ws) <->
  nullish response = false /\
  exists items, responseWorlds response = Some items /\ Forall readableWorld items.
Proof.
  intros response. split.
  - intros [ws H].
    destruct (buildWorlds_items _ _ H) as (Hnn & items & Hitems & Hfrom).
    split; [exact Hnn|]. exists items. split; [exact Hitems|].
    apply (buildWorldsFrom_effect _ _ Hfrom).
  - intros (Hnn & items & Hitems & Hall). unfold buildWorlds. rewrite Hnn.
    unfold responseWorlds in Hitems.
    destruct (js_or (prop response "worlds") (JArr [])); try discriminate.
    injection Hitems as ->. cbn [arrayItems bind].
    apply buildWorldsFrom_returns. exact Hall.
Qed.

(** X18.  The worlds that [buildWorlds] returns are one for each entry of
    the response, in its order; each has a name, a sea level and a height
    that are truthy, and a map for exactly the map names of its entry, each
    name once. *)
Theorem buildWorlds_one_world_per_entry : forall response ws,
  buildWorlds response = Return ws ->
  exists items,
    responseWorlds response = Some items /\
    List.length ws = List.length items /\
    Forall2 worldOf items ws.
Proof.
  intros response ws H.
  destruct (buildWorlds_items _ _ H) as (_ & items & Hitems & Hfrom).
  exists items. split; [exact Hitems|].
  destruct (buildWorldsFrom_effect _ _ Hfrom) as [_ Hall].
  split; [|exact Hall]. symmetry. eapply Forall2_length; eauto.
Qed.

(** X19.  Whenever the response names an error, whatever else it holds,
    the handler of [getConfiguration] rejects with the text of that error,
    or throws a [TypeError] if the error is a value that does not convert
    to a string; it resolves exactly when the response names no error and
    [buildWorlds] and [buildComponents] return. *)
Theorem getConfiguration_outcome : forall response,
  (truthy (prop response "error") = true -> nullish response = false ->
   getConfiguration response
   = if is_str (prop response "error") "login-required" then Rejected "Login required"
     else if convertible (prop response "error")
          then Rejected (to_string (prop response "error"))
          else Crashed TypeError) /\
  ((exists r, getConfiguration response = Resolved r) <->
   nullish response = false /\
   truthy (prop response "error") = false /\
   (exists ws, buildWorlds response = Return ws) /\
   (exists components, buildComponents response = Return components)).
Proof.
  intros response. split.
  - intros Herr Hnn. unfold getConfiguration, toStringOf. rewrite Hnn, Herr.
    destruct (is_str (prop response "error") "login-required"); [reflexivity|].
    destruct (convertible (prop response "error")); reflexivity.
  - unfold getConfiguration. split.
    + intros [r H]. destruct (nullish response) eqn:Hnn; [discriminate|].
      destruct (is_str (prop response "error") "login-required"); [discriminate|].
      destruct (truthy (prop response "error"));
        [destruct (toStringOf (prop response "error")); discriminate|].
      destruct (buildServerConfig response); [|discriminate].
      destruct (buildMessagesConfig response); [|discriminate].
      destruct (buildWorlds response) as [ws|]; [|discriminate].
      destruct (buildComponents response) as [components|]; [|discriminate].
      split; [reflexivity|]. split; [reflexivity|]. split; eexists; reflexivity.
    + intros (Hnn & Herr & [ws Hws] & [components Hcomponents]).
      rewrite Hnn, Herr, Hws, Hcomponents.
      assert (is_str (prop response "error") "login-required" = false) as ->.
      { destruct (is_str (prop response "error") "login-required") eqn:E; [|reflexivity].
        apply is_str_eq in E. rewrite E in Herr. discriminate. }
      unfold buildServerConfig, buildMessagesConfig. rewrite Hnn.
      eexists. reflexivity.
Qed.

(** ** [getMarkerSets] *)

Lemma ownFields_In : forall fields key value,
  In (key, value) (ownFields fields)
  <-> In key (map fst fields) /\ lookup_field key fields = value.
Proof.
  induction fields as [|[k0 v0] rest IH]; intros key value.
  - simpl. tauto.
  - cbn [ownFields map fst lookup_field In]. rewrite filter_In, IH. cbn [fst].
    destruct (String.eqb k0 key) eqn:E.
    + apply String.eqb_eq in E. subst k0. split.
      * intros [H|[_ H]]; [injection H as <-; auto|].
        rewrite String.eqb_refl in H. discriminate.
      * intros [_ <-]. left. reflexivity.
    + pose proof E as Hne. apply String.eqb_neq in Hne. split.
      * intros [H|[[Hin Hv] _]]; [injection H as <- <-; congruence|]. auto.
      * intros [[H|Hin] Hv]; [congruence|]. right.
        split; [auto|]. rewrite String.eqb_sym, E. reflexivity.
Qed.

Lemma NoDup_map_filter : forall {A B : Type} (f : A -> B) (p : A -> bool) (l : list A),
  NoDup (map f l) -> NoDup (map f (filter p l)).
Proof.
  intros A B f p l. induction l as [|a l IH]; intros H; [constructor|].
  cbn [map filter] in *. inversion H as [|? ? Hnot Hrest]; subst.
  destruct (p a); [|apply IH; exact Hrest].
  cbn [map]. constructor; [|apply IH; exact Hrest].
  intros Hin. apply Hnot. apply in_map_iff in Hin. destruct Hin as (x & Hx & Hin).
  apply filter_In in Hin. apply in_map_iff. exists x. tauto.
Qed.

Lemma ownFields_NoDup : forall fields, NoDup (map fst (ownFields fields)).
Proof.
  induction fields as [|[k0 v0] rest IH]; [constructor|].
  cbn [ownFields map fst]. constructor.
  - intros Hin. apply in_map_iff in Hin. destruct Hin as ([k v] & Hk & Hin).
    cbn [fst] in Hk. subst k. apply filter_In in Hin. destruct Hin as [_ Hne].
    cbn [fst] in Hne. rewrite String.eqb_refl in Hne. discriminate.
  - apply NoDup_map_filter. exact IH.
Qed.

Lemma filter_partition_perm : forall {A : Type} (p : A -> bool) (l : list A),
  Permutation (filter p l ++ filter (fun a => negb (p a)) l)%list l.
Proof.
  intros A p l. induction l as [|a l IH]; [constructor|].
  cbn [filter]. destruct (p a); cbn [negb app].
  - constructor. exact IH.
  - apply Permutation_sym, Permutation_cons_app, Permutation_sym. exact IH.
Qed.

Lemma forInEntries_object_perm : forall fields,
  Permutation (forInEntries (JObj fields)) (ownFields fields).
Proof.
  intros fields. cbn [forInEntries].
  eapply Permutation_trans; [|apply (filter_partition_perm isIndex)].
  apply Permutation_app_tail. apply Permutation_sym. apply sortWith_perm.
Qed.

(** The loop over an object runs once for each key of the object, with the
    value that a read of the key gives. *)
Lemma forInEntries_object : forall fields,
  NoDup (map fst (forInEntries (JObj fields))) /\
  forall key value,
    In (key, value) (forInEntries (JObj fields))
    <-> In key (map fst fields) /\ lookup_field key fields = value.
Proof.
  intros fields. pose proof (forInEntries_object_perm fields) as Hperm. split.
  - apply (Permutation_NoDup (Permutation_map fst (Permutation_sym Hperm))).
    apply ownFields_NoDup.
  - intros key value. rewrite <- ownFields_In. split; apply Permutation_in.
    + exact Hperm.
    + apply Permutation_sym. exact Hperm.
Qed.

Lemma buildEntities_wellFormed : forall build entries acc m,
  buildEntities build entries acc = Return m -> wellFormed acc -> wellFormed m.
Proof.
  intros build entries. induction entries as [|[key value] rest IH]; intros acc m H Hwf.
  - injection H as <-. exact Hwf.
  - cbn [buildEntities] in H. destruct (nullish value); [discriminate|].
    destruct (build value) as [built|e]; [|discriminate]. cbn [bind] in H.
    eapply IH; eauto. apply wellFormed_set. exact Hwf.
Qed.

Lemma buildEntities_returns_iff : forall build entries acc,
  (exists m, buildEntities build entries acc = Return m) <->
  Forall (fun field => nullish (snd field) = false /\
                       exists built, build (snd field) = Return built) entries.
Proof.
  intros build entries. induction entries as [|[key value] rest IH]; intros acc.
  - split; [constructor|]. intros _. eexists. reflexivity.
  - cbn [buildEntities]. split.
    + intros [m H]. destruct (nullish value) eqn:Hnn; [discriminate|].
      destruct (build value) as [built|e] eqn:Hb; [|discriminate]. cbn [bind] in H.
      constructor.
      * cbn [snd]. split; [exact Hnn|]. eexists. exact Hb.
      * eapply IH. eexists. exact H.
    + intros Hall. inversion Hall as [|? ? [Hnn [built Hb]] Hrest]; subst.
      cbn [snd] in Hnn, Hb. rewrite Hnn, Hb. cbn [bind]. apply IH. exact Hrest.
Qed.

Ltac zooms_from H :=
  match type of H with
  | context [zoomBound (prop ?entry "minzoom")] =>
      let Hmin := fresh "Hmin" in
      let Hmax := fresh "Hmax" in
      destruct (zoomBound (prop entry "minzoom")) eqn:Hmin; [|discriminate];
      destruct (zoomBound (prop entry "maxzoom")) eqn:Hmax; [|discriminate];
      split; eapply zoomBound_Return; eauto
  end.

Lemma builders_return_iff : forall entry,
  (forall id, (exists payload, buildMarkerSet id entry = Return payload)
              <-> zoomsConvert entry) /\
  ((exists payload, buildArea entry = Return payload) <-> zoomsConvert entry) /\
  ((exists payload, buildLine entry = Return payload) <-> zoomsConvert entry) /\
  ((exists payload, buildCircle entry = Return payload) <-> zoomsConvert entry) /\
  ((exists payload, buildMarker entry = Return payload)
   <-> dimIsString entry /\ zoomsConvert entry).
Proof.
  intros entry.
  assert (zoomsConvert entry ->
          (forall id, exists payload, buildMarkerSet id entry = Return payload) /\
          (exists payload, buildArea entry = Return payload) /\
          (exists payload, buildLine entry = Return payload) /\
          (exists payload, buildCircle entry = Return payload) /\
          (dimIsString entry -> exists payload, buildMarker entry = Return payload))
    as Hback by apply builders_return.
  split; [|split; [|split; [|split]]].
  - intros id. split; [|intros Hz; apply (proj1 (Hback Hz))].
    intros [payload H]. unfold buildMarkerSet in H. zooms_from H.
  - split; [|intros Hz; apply (Hback Hz)].
    intros [payload H]. unfold buildArea in H. zooms_from H.
  - split; [|intros Hz; apply (Hback Hz)].
    intros [payload H]. unfold buildLine in H. zooms_from H.
  - split; [|intros Hz; apply (Hback Hz)].
    intros [payload H]. unfold buildCircle in H. zooms_from H.
  - split; [|intros [Hdim Hz]; apply (Hback Hz); exact Hdim].
    intros [payload H]. unfold buildMarker in H.
    destruct (markerDimensions (prop entry "dim")) as [d|] eqn:Hd; [|discriminate].
    cbn [bind] in H. split; [|zooms_from H].
    unfold markerDimensions in Hd. unfold dimIsString.
    destruct (truthy (prop entry "dim")); [|left; reflexivity].
    destruct (prop entry "dim"); try discriminate. right. eexists. reflexivity.
Qed.

Lemma buildMarkers_returns_iff : forall data,
  (exists m, buildMarkers data = Return m) <-> readableMarkers data.
Proof.
  intros data. unfold buildMarkers, readableMarkers.
  rewrite buildEntities_returns_iff. split; apply Forall_impl; intros field.
  - intros [Hnn H]. split; [exact Hnn|]. apply builders_return_iff. exact H.
  - intros [Hnn H]. split; [exact Hnn|]. apply builders_return_iff. exact H.
Qed.

Lemma buildEntities_total_iff : forall data,
  ((exists m, buildAreas data = Return m) <-> readableEntities data) /\
  ((exists m, buildLines data = Return m) <-> readableEntities data) /\
  ((exists m, buildCircles data = Return m) <-> readableEntities data).
Proof.
  intros data. unfold buildAreas, buildLines, buildCircles, readableEntities.
  rewrite !buildEntities_returns_iff.
  repeat split; apply Forall_impl; intros field [Hnn H]; (split; [exact Hnn|]);
    destruct (builders_return_iff (snd field)) as (_ & Harea & Hline & Hcircle & _);
    first [apply Harea; exact H | apply Hline; exact H | apply Hcircle; exact H].
Qed.

Lemma responseMarkerSet_returns_iff : forall key set,
  (exists built, responseMarkerSet key set = Return built) <-> readableSet set.
Proof.
  intros key set. unfold responseMarkerSet, readableSet.
  pose proof (buildMarkers_returns_iff (js_or (prop set "markers") (JObj []))) as Hm.
  pose proof (proj2 (proj2 (buildEntities_total_iff
                              (js_or (prop set "circles") (JObj []))))) as Hc.
  pose proof (proj1 (buildEntities_total_iff (js_or (prop set "areas") (JObj [])))) as Ha.
  pose proof (proj1 (proj2 (buildEntities_total_iff
                              (js_or (prop set "lines") (JObj []))))) as Hl.
  pose proof (proj1 (builders_return_iff set) (JStr key)) as Hb.
  split.
  - intros [built H]. destruct (nullish set); [discriminate|].
    destruct (buildMarkers _) eqn:Em; [|discriminate]. cbn [bind] in H.
    destruct (buildCircles _) eqn:Ec; [|discriminate]. cbn [bind] in H.
    destruct (buildAreas _) eqn:Ea; [|discriminate]. cbn [bind] in H.
    destruct (buildLines _) eqn:El; [|discriminate]. cbn [bind] in H.
    destruct (buildMarkerSet (JStr key) set) eqn:Eb; [|discriminate].
    split; [reflexivity|]. split; [apply Hb; eexists; reflexivity|].
    split; [apply Hm; eexists; reflexivity|].
    split; [apply Hc; eexists; reflexivity|].
    split; [apply Ha; eexists; reflexivity|].
    apply Hl; eexists; reflexivity.
  - intros (-> & Hzs & Hms & Hcs & Has & Hls).
    apply Hb in Hzs. apply Hm in Hms. apply Hc in Hcs. apply Ha in Has. apply Hl in Hls.
    destruct Hzs as [base ->]. destruct Hms as [markers ->]. destruct Hcs as [circles ->].
    destruct Has as [areas ->]. destruct Hls as [lines ->].
    cbn [bind]. eexists. reflexivity.
Qed.

Lemma responseMarkerSet_effect : forall key value set,
  responseMarkerSet key value = Return set ->
  MarkerSet.id set = JStr key /\
  truthy (MarkerSet.label set) = true /\
  wellFormed (MarkerSet.markers set) /\ wellFormed (MarkerSet.areas set) /\
  wellFormed (MarkerSet.circles set) /\ wellFormed (MarkerSet.lines set).
Proof.
  intros key value set H. unfold responseMarkerSet in H.
  destruct (nullish value); [discriminate|].
  destruct (buildMarkers _) as [markers|] eqn:Hm; [|discriminate]. cbn [bind] in H.
  destruct (buildCircles _) as [circles|] eqn:Hc; [|discriminate]. cbn [bind] in H.
  destruct (buildAreas _) as [areas|] eqn:Ha; [|discriminate]. cbn [bind] in H.
  destruct (buildLines _) as [lines|] eqn:Hl; [|discriminate]. cbn [bind] in H.
  unfold buildMarkerSet in H.
  destruct (zoomBound (prop value "minzoom")) as [minZoom|]; [|discriminate].
  destruct (zoomBound (prop value "maxzoom")) as [maxZoom|]; [|discriminate].
  cbn [bind] in H. injection H as <-.
  cbn [MarkerSet.id MarkerSet.label MarkerSet.markers MarkerSet.areas MarkerSet.circles
       MarkerSet.lines].
  split; [reflexivity|]. split.
  - cbn [prop lookup_field String.eqb Ascii.eqb Bool.eqb].
    apply js_or_default_truthy. reflexivity.
  - repeat split; eapply buildEntities_wellFormed; eauto; reflexivity.
Qed.

Lemma responseMarkerSets_effect : forall entries acc sets,
  responseMarkerSets entries acc = Return sets ->
  NoDup (map fst entries) ->
  (wellFormed acc -> wellFormed sets) /\
  (forall key value,
     In (key, value) entries ->
     exists set,
       responseMarkerSet key value = Return set /\
       JsMap.get (JStr key) sets = Some set) /\
  (forall k,
     (forall key, k = JStr key -> ~ In key (map fst entries)) ->
     JsMap.get k sets = JsMap.get k acc).
Proof.
  induction entries as [|[k0 v0] rest IH]; intros acc sets H Hnodup.
  - injection H as <-. split; [auto|]. split; [intros ? ? []|auto].
  - cbn [responseMarkerSets] in H.
    destruct (responseMarkerSet k0 v0) as [set0|e] eqn:Hset0; [|discriminate].
    cbn [bind] in H. cbn [map fst] in Hnodup.
    inversion Hnodup as [|? ? Hfresh Hrest]; subst.
    destruct (IH _ _ H Hrest) as (Hwf & Hin & Hout). split; [|split].
    + intros Hacc. apply Hwf. apply wellFormed_set. exact Hacc.
    + intros key value [Heq|Hlater].
      * injection Heq as <- <-. exists set0. split; [exact Hset0|].
        rewrite Hout; [apply get_set_same|].
        intros key Hk. injection Hk as <-. exact Hfresh.
      * apply Hin. exact Hlater.
    + intros k Hk. rewrite Hout.
      * apply get_set_other. intros <-. apply (Hk k0 eq_refl). left. reflexivity.
      * intros key Heq Hlater. apply (Hk key Heq). right. exact Hlater.
Qed.

Lemma responseMarkerSets_returns_iff : forall entries acc,
  (exists sets, responseMarkerSets entries acc = Return sets) <->
  Forall (fun field => readableSet (snd field)) entries.
Proof.
  induction entries as [|[key value] rest IH]; intros acc.
  - split; [constructor|]. intros _. eexists. reflexivity.
  - cbn [responseMarkerSets]. split.
    + intros [sets H].
      destruct (responseMarkerSet key value) as [set|e] eqn:Hset; [|discriminate].
      cbn [bind] in H. constructor.
      * apply (responseMarkerSet_returns_iff key). eexists. exact Hset.
      * eapply IH. eexists. exact H.
    + intros Hall. inversion Hall as [|? ? Hhead Hrest]; subst. cbn [snd] in Hhead.
      apply (responseMarkerSet_returns_iff key) in Hhead. destruct Hhead as [set ->].
      cbn [bind]. apply IH. exact Hrest.
Qed.

Lemma getMarkerSets_entries : forall response sets,
  getMarkerSets response = Return sets ->
  assignable response = true /\
  responseMarkerSets (responseSets response) [] = Return sets.
Proof.
  intros response sets H. unfold getMarkerSets in H. unfold responseSets.
  destruct response; try discriminate; split; try reflexivity; exact H.
Qed.

(** X20.  For a response whose [sets] is an object, [getMarkerSets] returns
    one marker set for each key of that object and no other; the set filed
    under a key is the one built from the value of that key, carries the key
    as its id and has a label. *)
Theorem getMarkerSets_one_set_per_key : forall response fields sets,
  getMarkerSets response = Return sets ->
  prop response "sets" = JObj fields ->
  wellFormed sets /\
  (forall key, JsMap.has (JStr key) sets = true <-> In key (map fst fields)) /\
  (forall k, JsMap.has k sets = true -> exists key, k = JStr key) /\
  (forall key set,
     JsMap.get (JStr key) sets = Some set ->
     responseMarkerSet key (lookup_field key fields) = Return set /\
     MarkerSet.id set = JStr key /\
     truthy (MarkerSet.label set) = true).
Proof.
  intros response fields sets H Hsets.
  destruct (getMarkerSets_entries _ _ H) as [_ Hfrom].
  unfold responseSets in Hfrom. rewrite Hsets in Hfrom.
  change (js_or (JObj fields) (JObj [])) with (JObj fields) in Hfrom.
  destruct (forInEntries_object fields) as [Hnodup Hentries].
  destruct (responseMarkerSets_effect _ _ _ Hfrom Hnodup) as (Hwf & Hin & Hout).
  assert (forall key, In key (map fst (forInEntries (JObj fields)))
                      -> In key (map fst fields)) as Hkeys.
  { intros key Hk. apply in_map_iff in Hk. destruct Hk as ([k v] & Hk & Hkv).
    cbn [fst] in Hk. subst k. apply Hentries in Hkv. tauto. }
  assert (forall key, JsMap.has (JStr key) sets = true -> In key (map fst fields))
    as Hhas.
  { intros key Hyes.
    destruct (in_dec string_dec key (map fst fields)) as [Hyes'|Hno]; [exact Hyes'|].
    rewrite (get_None_has sets (JStr key)) in Hyes; [discriminate|].
    rewrite Hout; [reflexivity|]. intros key' Heq Hk. injection Heq as <-.
    apply Hno, Hkeys, Hk. }
  split; [apply Hwf; reflexivity|]. split; [|split].
  - intros key. split; [apply Hhas|]. intros Hk.
    destruct (Hin key (lookup_field key fields)) as (set & _ & Hget).
    { apply Hentries. auto. }
    eapply get_Some_has; eauto.
  - intros k Hyes. destruct k; try (eexists; reflexivity);
      (rewrite (get_None_has sets) in Hyes; [discriminate|]);
      (rewrite Hout; [reflexivity|]); intros key Heq; discriminate.
  - intros key set Hget.
    destruct (Hin key (lookup_field key fields)) as (set' & Hbuilt & Hget').
    { apply Hentries. split; [|reflexivity]. apply Hhas. eapply get_Some_has; eauto. }
    rewrite Hget in Hget'. injection Hget' as <-. split; [exact Hbuilt|].
    destruct (responseMarkerSet_effect _ _ _ Hbuilt) as (Hid & Hlabel & _). auto.
Qed.

(** X21.  [getMarkerSets] returns exactly when the response is an object or
    an array (the assignment to [response.sets] throws for a primitive) and
    every marker set in it can be read: no set and no marker, area, line or
    circle is [null], the [dim] of a marker is a string if it has one, and
    the [minzoom] and [maxzoom] of every set, marker, area, line and circle
    are values that the comparison with -1 can convert. *)
Theorem getMarkerSets_returns_iff : forall response,
  (exists sets, getMarkerSets response = Return sets) <->
  assignable response = true /\
  Forall (fun field => readableSet (snd field)) (responseSets response).
Proof.
  intros response. split.
  - intros [sets H]. destruct (getMarkerSets_entries _ _ H) as [Hobj Hfrom].
    split; [exact Hobj|]. apply (responseMarkerSets_returns_iff _ []).
    eexists. exact Hfrom.
  - intros [Hobj Hall]. apply (responseMarkerSets_returns_iff _ []) in Hall.
    unfold getMarkerSets. unfold responseSets in Hall.
    destruct response; try discriminate; exact Hall.
Qed.

(** ** The visible elements of the interface *)

Lemma JsSet_has_add : forall s v x,
  JsSet.has x (JsSet.add v s) = jsval_eqb x v || JsSet.has x s.
Proof.
  intros s v x. unfold JsSet.add, JsSet.has.
  destruct (existsb (jsval_eqb v) s) eqn:E.
  - destruct (jsval_eqb x v) eqn:Exv; [|reflexivity].
    apply jsval_eqb_eq in Exv. subst x. rewrite E. reflexivity.
  - rewrite existsb_app. cbn [existsb]. rewrite orb_false_r. apply orb_comm.
Qed.

Lemma JsSet_has_delete : forall s v x,
  JsSet.has x (JsSet.delete v s) = negb (jsval_eqb x v) && JsSet.has x s.
Proof.
  intros s v x. unfold JsSet.delete, JsSet.has. induction s as [|w s IH].
  - rewrite andb_false_r. reflexivity.
  - cbn [filter existsb]. destruct (jsval_eqb v w) eqn:Evw; cbn [negb].
    + apply jsval_eqb_eq in Evw. subst w. rewrite IH.
      destruct (jsval_eqb x v); reflexivity.
    + cbn [existsb]. rewrite IH. destruct (jsval_eqb x w) eqn:Exw.
      * apply jsval_eqb_eq in Exw. subst w.
        rewrite jsval_eqb_sym, Evw. reflexivity.
      * destruct (jsval_eqb x v); reflexivity.
Qed.

Lemma JsSet_add_NoDup : forall s v, NoDup s -> NoDup (JsSet.add v s).
Proof.
  intros s v H. unfold JsSet.add, JsSet.has.
  destruct (existsb (jsval_eqb v) s) eqn:E; [exact H|].
  apply NoDup_app; [exact H|constructor; [auto|constructor]|].
  intros x Hx [Heq|[]]. subst x.
  assert (existsb (jsval_eqb v) s = true) as Hyes.
  { apply existsb_exists. exists v. split; [exact Hx|apply jsval_eqb_refl]. }
  congruence.
Qed.

Lemma JsSet_delete_length : forall s v,
  (List.length (JsSet.delete v s) <= List.length s)%nat.
Proof. intros s v. apply filter_length_le. Qed.

Lemma JsSet_add_empty : forall v, JsSet.add v [] = [v].
Proof. reflexivity. Qed.

(** X22.  On a small screen at most one element of the interface is
    visible: the initial state has the property and [SET_SMALL_SCREEN],
    [TOGGLE_UI_ELEMENT_VISIBILITY] and [SET_UI_ELEMENT_VISIBILITY] keep it,
    as they keep the elements distinct. *)
Theorem small_screen_shows_one_element : forall ui,
  fitsSmallScreen ui ->
  NoDup (Ui.visibleElements ui) ->
  fitsSmallScreen initialUi /\
  (forall smallScreen,
     fitsSmallScreen (SET_SMALL_SCREEN ui smallScreen) /\
     NoDup (Ui.visibleElements (SET_SMALL_SCREEN ui smallScreen))) /\
  (forall element,
     fitsSmallScreen (TOGGLE_UI_ELEMENT_VISIBILITY ui element) /\
     NoDup (Ui.visibleElements (TOGGLE_UI_ELEMENT_VISIBILITY ui element))) /\
  (forall element shown,
     fitsSmallScreen (SET_UI_ELEMENT_VISIBILITY ui element shown) /\
     NoDup (Ui.visibleElements (SET_UI_ELEMENT_VISIBILITY ui element shown))).
Proof.
  intros [small visible] Hfits Hdistinct. unfold fitsSmallScreen in *.
  cbn [Ui.smallScreen Ui.visibleElements] in *.
  split; [discriminate|]. split; [|split].
  - intros smallScreen. unfold SET_SMALL_SCREEN.
    cbn [Ui.smallScreen Ui.visibleElements]. split.
    + intros Hnew. rewrite Hnew. destruct (truthy small); cbn [negb andb].
      * apply Hfits. reflexivity.
      * unfold JsSet.size. destruct (1 <? Z.of_nat (List.length visible)) eqn:E.
        -- simpl. lia.
        -- apply Z.ltb_ge in E. lia.
    + destruct (negb (truthy small) && truthy smallScreen
                && (1 <? JsSet.size visible)); [constructor|exact Hdistinct].
  - intros element. unfold TOGGLE_UI_ELEMENT_VISIBILITY.
    cbn [Ui.smallScreen Ui.visibleElements].
    destruct (JsSet.has element visible); cbn [negb andb].
    + split.
      * intros Hsmall. specialize (Hfits Hsmall).
        pose proof (JsSet_delete_length visible element). lia.
      * apply NoDup_filter. exact Hdistinct.
    + split.
      * intros Hsmall. rewrite Hsmall. simpl. lia.
      * apply JsSet_add_NoDup. destruct (truthy small); [constructor|exact Hdistinct].
  - intros element shown. unfold SET_UI_ELEMENT_VISIBILITY.
    cbn [Ui.smallScreen Ui.visibleElements].
    destruct (truthy shown); cbn [andb].
    + split.
      * intros Hsmall. rewrite Hsmall. simpl. lia.
      * apply JsSet_add_NoDup. destruct (truthy small); [constructor|exact Hdistinct].
    + split.
      * intros Hsmall. specialize (Hfits Hsmall).
        pose proof (JsSet_delete_length visible element). lia.
      * apply NoDup_filter. exact Hdistinct.
Qed.

(** X23.  [TOGGLE_UI_ELEMENT_VISIBILITY] flips the visibility of its
    element and [SET_UI_ELEMENT_VISIBILITY] sets it to the requested state;
    every other element stays as it is, except that switching an element on
    hides all others on a small screen. *)
Theorem element_visibility_is_switched : forall ui element,
  JsSet.has element (Ui.visibleElements (TOGGLE_UI_ELEMENT_VISIBILITY ui element))
  = negb (JsSet.has element (Ui.visibleElements ui)) /\
  (forall shown,
     JsSet.has element (Ui.visibleElements (SET_UI_ELEMENT_VISIBILITY ui element shown))
     = truthy shown) /\
  (forall other,
     other <> element ->
     JsSet.has other (Ui.visibleElements (TOGGLE_UI_ELEMENT_VISIBILITY ui element))
     = visibleBeside ui (negb (JsSet.has element (Ui.visibleElements ui))) other /\
     forall shown,
       JsSet.has other (Ui.visibleElements (SET_UI_ELEMENT_VISIBILITY ui element shown))
       = visibleBeside ui (truthy shown) other).
Proof.
  intros [small visible] element.
  unfold TOGGLE_UI_ELEMENT_VISIBILITY, SET_UI_ELEMENT_VISIBILITY, visibleBeside.
  cbn [Ui.smallScreen Ui.visibleElements]. split; [|split].
  - destruct (JsSet.has element visible) eqn:E; cbn [negb andb].
    + rewrite JsSet_has_delete, jsval_eqb_refl. reflexivity.
    + rewrite JsSet_has_add, jsval_eqb_refl. reflexivity.
  - intros shown. destruct (truthy shown); cbn [andb].
    + rewrite JsSet_has_add, jsval_eqb_refl. reflexivity.
    + rewrite JsSet_has_delete, jsval_eqb_refl. reflexivity.
  - intros other Hne. apply jsval_eqb_neq in Hne. split.
    + destruct (JsSet.has element visible); cbn [negb andb].
      * rewrite JsSet_has_delete, Hne. reflexivity.
      * rewrite JsSet_has_add, Hne. destruct (truthy small); reflexivity.
    + intros shown. destruct (truthy shown); cbn [andb].
      * rewrite JsSet_has_add, Hne. destruct (truthy small); reflexivity.
      * rewrite JsSet_has_delete, Hne. reflexivity.
Qed.

(** ** [getUpdate]: hidden players *)

Lemma responsePlayer_reportedAs : forall player p,
  responsePlayer player = Return p -> reportedAs player p.
Proof.
  intros player p H. unfold responsePlayer in H.
  destruct (nullish player); [discriminate|].
  destruct (notANumber (prop player "x")) as [xNaN|]; [|discriminate].
  destruct (notANumber (prop player "y")) as [yNaN|]; [|discriminate].
  destruct (notANumber (prop player "z")) as [zNaN|]; [|discriminate].
  cbn [bind] in H. injection H as <-.
  unfold reportedAs. cbn [Player.hidden Player.location Location.world].
  destruct (truthy (prop player "world")) eqn:Ht; cbn [andb].
  - destruct (is_str (prop player "world") "-some-other-bogus-world-") eqn:Hb;
      cbn [negb].
    + apply is_str_eq in Hb. split; [reflexivity|]. split; [left; reflexivity|].
      split; [auto|reflexivity].
    + rewrite Ht. split; [reflexivity|]. split.
      * right. split; [reflexivity|]. split; [reflexivity|].
        intros Heq. rewrite Heq in Hb. discriminate.
      * cbn [negb]. split; [discriminate|].
        intros [Hno|Heq]; [discriminate|]. rewrite Heq in Hb. discriminate.
  - split; [reflexivity|]. split; [left; reflexivity|]. split; auto.
Qed.

(** X24.  Every player that the handler of [getUpdate] makes from the
    response is hidden exactly when the response gives it no world or the
    placeholder world, and then has no world. *)
Theorem reported_player_hidden_without_world : forall items reported,
  responsePlayers items = Return reported ->
  Forall2 reportedAs items reported.
Proof.
  induction items as [|player rest IH]; intros reported H.
  - injection H as <-. constructor.
  - cbn [responsePlayers] in H.
    destruct (responsePlayer player) as [p|e] eqn:Hp; [|discriminate].
    destruct (responsePlayers rest) as [ps|e] eqn:Hps; [|discriminate].
    cbn [bind] in H. injection H as <-.
    constructor; [apply responsePlayer_reportedAs; exact Hp|apply IH; reflexivity].
Qed.

(** ** The worlds of the configuration *)

Lemma has_setWorldMaps : forall worldName objects maps k,
  JsMap.has k (setWorldMaps worldName objects maps)
  = JsMap.has k maps
    || existsb (fun map => jsval_eqb (mapKey worldName (snd map)) k) objects.
Proof.
  intros worldName objects. unfold setWorldMaps.
  induction objects as [|map rest IH]; intros maps k.
  - rewrite orb_false_r. reflexivity.
  - cbn [fold_left existsb]. rewrite IH, has_set.
    destruct (jsval_eqb (mapKey worldName (snd map)) k), (JsMap.has k maps); reflexivity.
Qed.

Lemma fold_setWorld : forall ws st,
  (forall k,
     JsMap.has k (worlds (fold_left setWorld ws st))
     = JsMap.has k (worlds st)
       || existsb (fun w => jsval_eqb (WorldObject.name w) k) ws) /\
  (forall k,
     JsMap.has k (maps (fold_left setWorld ws st))
     = JsMap.has k (maps st)
       || existsb (fun w =>
                     existsb (fun map => jsval_eqb (mapKey (WorldObject.name w) (snd map)) k)
                       (WorldObject.maps w)) ws) /\
  currentWorld (fold_left setWorld ws st) = currentWorld st /\
  currentMap (fold_left setWorld ws st) = currentMap st /\
  besideWorlds (fold_left setWorld ws st) = besideWorlds st.
Proof.
  induction ws as [|w rest IH]; intros st.
  - cbn [fold_left existsb]. repeat split; intros; rewrite ?orb_false_r; reflexivity.
  - cbn [fold_left existsb].
    destruct (IH (setWorld st w)) as (Hworlds & Hmaps & Hworld & Hmap & Hbeside).
    split; [|split; [|split; [|split]]].
    + intros k. rewrite Hworlds. cbn [setWorld worlds]. rewrite has_set.
      destruct (jsval_eqb (WorldObject.name w) k), (JsMap.has k (worlds st)); reflexivity.
    + intros k. rewrite Hmaps. cbn [setWorld maps]. rewrite has_setWorldMaps.
      rewrite orb_assoc. reflexivity.
    + rewrite Hworld. reflexivity.
    + rewrite Hmap. reflexivity.
    + rewrite Hbeside. reflexivity.
Qed.

Lemma get_fold_filed : forall entries (m : JsMap Ref) k,
  JsMap.get k (fold_left (fun m e => JsMap.set (fst e) (snd e) m) entries m)
  = match lastFiled k entries with
    | Some r => Some r
    | None => JsMap.get k m
    end.
Proof.
  induction entries as [|[k' r] rest IH]; intros m k; [reflexivity|].
  cbn [fold_left lastFiled fst snd]. rewrite IH.
  destruct (lastFiled k rest); [reflexivity|].
  destruct (jsval_eqb k' k) eqn:E.
  - apply jsval_eqb_eq in E. subst k'. apply get_set_same.
  - apply jsval_eqb_neq in E. apply get_set_other. exact E.
Qed.

Lemma setWorldMaps_filed : forall worldName objects (m : JsMap Ref),
  setWorldMaps worldName objects m
  = fold_left (fun m e => JsMap.set (fst e) (snd e) m)
      (map (fun o => (mapKey worldName (snd o), fst o)) objects) m.
Proof.
  intros worldName objects. unfold setWorldMaps.
  induction objects as [|o rest IH]; intros m; [reflexivity|].
  cbn [fold_left map fst snd]. apply IH.
Qed.

Lemma fold_setWorld_filed : forall ws st,
  worlds (fold_left setWorld ws st)
  = fold_left (fun m e => JsMap.set (fst e) (snd e) m) (filedWorlds ws) (worlds st) /\
  maps (fold_left setWorld ws st)
  = fold_left (fun m e => JsMap.set (fst e) (snd e) m) (filedMaps ws) (maps st).
Proof.
  induction ws as [|w rest IH]; intros st; [split; reflexivity|].
  cbn [fold_left filedWorlds filedMaps map flat_map].
  destruct (IH (setWorld st w)) as [Hworlds Hmaps]. split.
  - rewrite Hworlds. reflexivity.
  - rewrite Hmaps. cbn [setWorld maps]. rewrite fold_left_app, setWorldMaps_filed.
    reflexivity.
Qed.

Lemma lastFiled_absent : forall entries k,
  ~ In k (map fst entries) -> lastFiled k entries = None.
Proof.
  induction entries as [|[k' r] rest IH]; intros k Hno; [reflexivity|].
  cbn [lastFiled]. rewrite IH by (intros Hin; apply Hno; right; exact Hin).
  destruct (jsval_eqb k' k) eqn:E; [|reflexivity].
  apply jsval_eqb_eq in E. exfalso. apply Hno. left. exact E.
Qed.

(** Under a key that is filed once, the object filed last is the object
    filed. *)
Lemma lastFiled_unique : forall entries k r,
  NoDup (map fst entries) -> In (k, r) entries -> lastFiled k entries = Some r.
Proof.
  induction entries as [|[k' r'] rest IH]; intros k r Hnodup Hin; [destruct Hin|].
  cbn [map fst] in Hnodup. inversion Hnodup as [|? ? Hfresh Hrest]; subst.
  cbn [lastFiled]. destruct Hin as [Heq|Hlater].
  - injection Heq as -> ->. rewrite (lastFiled_absent rest k Hfresh).
    rewrite jsval_eqb_refl. reflexivity.
  - rewrite (IH k r Hrest Hlater). reflexivity.
Qed.

(** X25.  After [SET_WORLDS] no world and no map is current, and the marker
    sets, the queues, the players and the chat are as they were.  Every map
    of every world of the list can then be made current by the names of the
    world and the map: [SET_CURRENT_MAP] does not throw, empties the marker
    sets, their queues and the pending tiles, and makes current the world
    filed last under the name and the map filed last under the key.  These
    are the named world if the names of the worlds are distinct, and the
    named map if the keys of the maps are distinct. *)
Theorem SET_WORLDS_then_SET_CURRENT_MAP : forall st ws,
  currentWorld (SET_WORLDS st ws) = None /\
  currentMap (SET_WORLDS st ws) = None /\
  besideWorlds (SET_WORLDS st ws) = besideWorlds st /\
  forall w map,
    In w ws -> In map (WorldObject.maps w) ->
    thrown (makeCurrent st ws w map) = None /\
    currentWorld (after (makeCurrent st ws w map))
    = lastFiled (WorldObject.name w) (filedWorlds ws) /\
    currentMap (after (makeCurrent st ws w map))
    = lastFiled (mapKey (WorldObject.name w) (snd map)) (filedMaps ws) /\
    (exists world, currentWorld (after (makeCurrent st ws w map)) = Some world) /\
    (exists current, currentMap (after (makeCurrent st ws w map)) = Some current) /\
    (NoDup (List.map fst (filedWorlds ws)) ->
     currentWorld (after (makeCurrent st ws w map)) = Some (WorldObject.ref w)) /\
    (NoDup (List.map fst (filedMaps ws)) ->
     currentMap (after (makeCurrent st ws w map)) = Some (fst map)) /\
    markerSets (after (makeCurrent st ws w map)) = [] /\
    pendingSetUpdates (after (makeCurrent st ws w map)) = [] /\
    pendingTileUpdates (after (makeCurrent st ws w map)) = [].
Proof.
  intros st ws. unfold makeCurrent, SET_WORLDS.
  match goal with
  | |- context [fold_left setWorld ws ?s] => set (cleared := s)
  end.
  destruct (fold_setWorld ws cleared) as (Hworlds & Hmaps & Hworld & Hmap & Hbeside).
  split; [rewrite Hworld; reflexivity|]. split; [rewrite Hmap; reflexivity|].
  split; [rewrite Hbeside; reflexivity|].
  intros w map Hw Hm.
  assert (JsMap.has (WorldObject.name w) (worlds (fold_left setWorld ws cleared)) = true)
    as Hhas.
  { rewrite Hworlds. apply orb_true_iff. right. apply existsb_exists.
    exists w. split; [exact Hw|apply jsval_eqb_refl]. }
  assert (JsMap.has (mapKey (WorldObject.name w) (snd map))
            (maps (fold_left setWorld ws cleared)) = true) as Hhas'.
  { rewrite Hmaps. apply orb_true_iff. right. apply existsb_exists.
    exists w. split; [exact Hw|]. apply existsb_exists.
    exists map. split; [exact Hm|apply jsval_eqb_refl]. }
  destruct (has_get_Some _ _ Hhas) as [world Hget].
  destruct (has_get_Some _ _ Hhas') as [current Hget'].
  unfold SET_CURRENT_MAP. fold (mapKey (WorldObject.name w) (snd map)).
  rewrite Hget, Hhas', Hworld. cbn [negb currentWorld cleared after done thrown
    markerSets pendingSetUpdates pendingTileUpdates currentMap JsMap.clear].
  rewrite Hget'.
  destruct (fold_setWorld_filed ws cleared) as [Hfiled Hfiled'].
  rewrite Hfiled, get_fold_filed in Hget. rewrite Hfiled', get_fold_filed in Hget'.
  cbn [cleared worlds maps JsMap.clear JsMap.get] in Hget, Hget'.
  assert (lastFiled (WorldObject.name w) (filedWorlds ws) = Some world) as Hlast.
  { destruct (lastFiled (WorldObject.name w) _); [exact Hget|discriminate]. }
  assert (lastFiled (mapKey (WorldObject.name w) (snd map)) (filedMaps ws)
          = Some current) as Hlast'.
  { destruct (lastFiled (mapKey _ _) _); [exact Hget'|discriminate]. }
  split; [reflexivity|]. split; [symmetry; exact Hlast|].
  split; [symmetry; exact Hlast'|].
  split; [eexists; reflexivity|]. split; [eexists; reflexivity|].
  split; [|split; [|repeat split]].
  - intros Hnodup. rewrite <- Hlast. apply lastFiled_unique; [exact Hnodup|].
    unfold filedWorlds. apply in_map_iff. exists w. split; [reflexivity|exact Hw].
  - intros Hnodup. rewrite <- Hlast'. apply lastFiled_unique; [exact Hnodup|].
    unfold filedMaps. apply in_flat_map. exists w. split; [exact Hw|].
    apply in_map_iff. exists map. split; [reflexivity|exact Hm].
Qed.

(** Where two maps get the same key the later one is filed under it: of the
    worlds [world] with the map [nether_flat] and [world_nether] with the
    map [flat], making [nether_flat] of [world] current makes [world]
    current together with the map [flat] of [world_nether]. *)
Example colliding_map_keys :
  currentWorld
    (after (SET_CURRENT_MAP (SET_WORLDS storeWithPending collidingWorldObjects)
              (JStr "world") (JStr "nether_flat"))) = Some 1%nat /\
  currentMap
    (after (SET_CURRENT_MAP (SET_WORLDS storeWithPending collidingWorldObjects)
              (JStr "world") (JStr "nether_flat"))) = Some 11%nat.
Proof. split; vm_compute; reflexivity. Qed.

(** X26.  [ADD_WORLD] files the world under its name and none of its
    maps: unless the key of a map was filed before, [SET_CURRENT_MAP] for
    the added world and that map throws the [RangeError] for an unknown map
    and leaves the store as [ADD_WORLD] left it. *)
Theorem ADD_WORLD_registers_no_map : forall st w mapName,
  JsMap.has (mapKey (WorldObject.name w) mapName) (maps st) = false ->
  JsMap.get (WorldObject.name w) (worlds (ADD_WORLD st w)) = Some (WorldObject.ref w) /\
  thrown (SET_CURRENT_MAP (ADD_WORLD st w) (WorldObject.name w) mapName)
  = Some (RangeError ("Unknown map " ++ to_string (mapKey (WorldObject.name w) mapName))) /\
  after (SET_CURRENT_MAP (ADD_WORLD st w) (WorldObject.name w) mapName) = ADD_WORLD st w.
Proof.
  intros st w mapName Hno.
  assert (JsMap.get (WorldObject.name w) (worlds (ADD_WORLD st w))
          = Some (WorldObject.ref w)) as Hget.
  { cbn [ADD_WORLD worlds]. apply get_set_same. }
  split; [exact Hget|].
  unfold SET_CURRENT_MAP. fold (mapKey (WorldObject.name w) mapName). rewrite Hget.
  change (maps (ADD_WORLD st w)) with (maps st). rewrite Hno.
  cbn [negb throw thrown after].
  split; reflexivity.
Qed.

(** ** Instances of the further properties *)

(** The store is in sync when its two maps list the same keys. *)
Ltac same_keys :=
  let k := fresh "k" in
  intros k; cbn [pendingSetUpdates markerSets storeWithS1 storeWithPending];
  rewrite ?has_cons; reflexivity.

(** In [s1], the bucket [bucketS1] leaves the marker [m2] and no marker
    [m1]. *)
Lemma bucket_settles_its_set_witness :
  inSync storeWithS1 /\
  wellFormed [(JStr "s1", bucketS1)] /\
  entityOf (after (ADD_MARKER_SET_UPDATES storeWithS1 [(JStr "s1", bucketS1)]))
    (JStr "s1") Markers (JStr "m1") = None /\
  entityOf (after (ADD_MARKER_SET_UPDATES storeWithS1 [(JStr "s1", bucketS1)]))
    (JStr "s1") Markers (JStr "m2") = Some (JObj [("label", JStr "new")]).
Proof.
  assert (inSync storeWithS1) as Hsync by same_keys.
  assert (wellFormed [(JStr "s1", bucketS1)]) as Hwf by reflexivity.
  split; [exact Hsync|]. split; [exact Hwf|].
  destruct (bucket_settles_its_set [(JStr "s1", bucketS1)] storeWithS1 (JStr "s1")
              bucketS1 Hsync Hwf (or_introl eq_refl) eq_refl (or_introl eq_refl))
    as (_ & Hentities & _).
  rewrite !Hentities. split; reflexivity.
Defined.

(** Popping two of the three pending marker updates of [s1] leaves the
    third. *)
Lemma POP_UPDATES_trims_one_queue_witness :
  inSync storeWithPending /\
  pendingOf (after (POP_UPDATES Markers storeWithPending (JStr "s1") 2)) (JStr "s1") Markers
  = [Update.make (JStr "m1") true JUndef].
Proof.
  assert (inSync storeWithPending) as Hsync by same_keys.
  split; [exact Hsync|].
  destruct (POP_UPDATES_trims_one_queue Markers storeWithPending (JStr "s1") 2 Hsync)
    as (_ & _ & Hqueue & _).
  rewrite Hqueue. reflexivity.
Defined.

(** Popping the two pending tiles after a third arrived leaves the third. *)
Lemma tile_queue_first_in_first_out_witness :
  (Z.to_nat 2 <= List.length (pendingTileUpdates storeWithPending))%nat /\
  pendingTileUpdates
    (POP_TILE_UPDATES
       (ADD_TILE_UPDATES storeWithPending [TileUpdate.make (JStr "flat/1_1.png") (JNum 80)])
       2)
  = [TileUpdate.make (JStr "flat/1_1.png") (JNum 80)].
Proof.
  assert (Z.to_nat 2 <= List.length (pendingTileUpdates storeWithPending))%nat as Hle.
  { simpl. lia. }
  split; [exact Hle|].
  destruct (tile_queue_first_in_first_out storeWithPending
              [TileUpdate.make (JStr "flat/1_1.png") (JNum 80)] 2 Hle) as [_ Hall].
  apply Hall. reflexivity.
Defined.

(** The tile record at the time 40 is accepted under the watermark 30 and
    stale under 50. *)
Lemma raising_watermark_only_adds_stale_witness :
  timeValue (AsNumber 30) <= timeValue (AsNumber 50) /\
  (isSet (AsNumber 30) = true -> isSet (AsNumber 50) = true) /\
  (classifyEntry (AsNumber 50) initialLocals tileAt40
   = Return (drop Reason.stale initialLocals) \/
   classifyEntry (AsNumber 50) initialLocals tileAt40
   = classifyEntry (AsNumber 30) initialLocals tileAt40 \/
   (isSet (AsNumber 30) = false /\ isSet (AsNumber 50) = true /\
    convertible (prop tileAt40 "timestamp") = false /\
    classifyEntry (AsNumber 50) initialLocals tileAt40 = Throw TypeError)).
Proof.
  assert (timeValue (AsNumber 30) <= timeValue (AsNumber 50)) as Hle.
  { simpl. lia. }
  assert (isSet (AsNumber 30) = true -> isSet (AsNumber 50) = true) as Hset.
  { intros _. reflexivity. }
  split; [exact Hle|]. split; [exact Hset|].
  apply (raising_watermark_only_adds_stale (AsNumber 30) (AsNumber 50) initialLocals
           tileAt40 Hle Hset).
Defined.

(** The three cases occur: the tile record at the time 40 is accepted under
    30 and stale under 50; a tile record whose timestamp cannot be converted
    is accepted while no watermark is set and makes the classifier throw
    once one is; and a record older than both watermarks is classified the
    same way under both. *)
Example raising_watermark_cases :
  (classifyEntry (AsNumber 30) initialLocals tileAt40
   <> Return (drop Reason.stale initialLocals) /\
   classifyEntry (AsNumber 50) initialLocals tileAt40
   = Return (drop Reason.stale initialLocals)) /\
  ((exists l, classifyEntry (AsNumber 0) initialLocals tileUnconvertible = Return l /\
              List.length (Updates.tiles (updates l)) = 1%nat) /\
   classifyEntry (AsNumber 50) initialLocals tileUnconvertible = Throw TypeError) /\
  classifyEntry (AsNumber 50) initialLocals tileAt40
  = classifyEntry (AsNumber 60) initialLocals tileAt40.
Proof.
  split; [|split].
  - split; [vm_compute; discriminate|vm_compute; reflexivity].
  - split; [|vm_compute; reflexivity]. eexists. split; vm_compute; reflexivity.
  - vm_compute. reflexivity.
Qed.

(** The chat of the sample batch is fresh under the watermark 50. *)
Lemma buildUpdates_returns_fresh_only_witness :
  buildUpdates (AsNumber 50) chatBatch = Return chatBatchResult /\
  Forall (freshChat (AsNumber 50)) (Updates.chat (updates chatBatchResult)).
Proof.
  assert (buildUpdates (AsNumber 50) chatBatch = Return chatBatchResult) as Hrun.
  { vm_compute. reflexivity. }
  split; [exact Hrun|].
  apply (buildUpdates_returns_fresh_only (AsNumber 50) chatBatch chatBatchResult Hrun).
Defined.

(** The chat of the sample batch goes in front of a line from the time 30. *)
Lemma ADD_CHAT_keeps_newest_first_witness :
  buildUpdates (updateTimestamp storeWithChat) chatBatch = Return chatBatchResult /\
  StronglySorted notOlder (chatMessages storeWithChat) /\
  StronglySorted notOlder
    (chatMessages (ADD_CHAT storeWithChat (Updates.chat (updates chatBatchResult)))).
Proof.
  assert (buildUpdates (updateTimestamp storeWithChat) chatBatch = Return chatBatchResult)
    as Hrun.
  { vm_compute. reflexivity. }
  assert (StronglySorted notOlder (chatMessages storeWithChat)) as Hsorted.
  { repeat constructor. }
  split; [exact Hrun|]. split; [exact Hsorted|].
  apply (ADD_CHAT_keeps_newest_first storeWithChat chatBatch chatBatchResult Hrun).
  - repeat constructor; eexists; reflexivity.
  - exact Hsorted.
  - repeat constructor. unfold timeOf. simpl. lia.
Defined.

(** The bucket of the deleted set [s2] is a removal without payload. *)
Lemma buildUpdates_buckets_sound_witness :
  buildUpdates (AsNumber 50) setBatch = Return setBatchResult /\
  In (JStr "s2", removedS1) (Updates.markerSets (updates setBatchResult)) /\
  soundBucket (JStr "s2") removedS1.
Proof.
  assert (buildUpdates (AsNumber 50) setBatch = Return setBatchResult) as Hrun.
  { vm_compute. reflexivity. }
  assert (In (JStr "s2", removedS1) (Updates.markerSets (updates setBatchResult))) as Hin.
  { right. left. reflexivity. }
  split; [exact Hrun|]. split; [exact Hin|].
  apply (buildUpdates_buckets_sound (AsNumber 50) setBatch setBatchResult (JStr "s2")
           removedS1 Hrun Hin).
Defined.

(** Three calls merge twenty-five snapshots. *)
Lemma SET_PLAYERS_ASYNC_drains_witness :
  (List.length twentyFive <= 10 * 3)%nat /\
  snd (setPlayersRepeatedly 3 (freshState (AsNumber 0)) twentyFive) = [].
Proof.
  assert (List.length twentyFive <= 10 * 3)%nat as Hle.
  { vm_compute. repeat constructor. }
  split; [exact Hle|].
  destruct (SET_PLAYERS_ASYNC_drains 3 (freshState (AsNumber 0)) twentyFive Hle)
    as [_ Hall].
  rewrite Hall. reflexivity.
Defined.

(** After a snapshot of [p0] to [p24] the registry of [p0] and [p1] holds
    [p24] and no [p25]. *)
Lemma players_follow_the_snapshot_witness :
  wellFormed (players storeWithTwoPlayers) /\
  keyedByAccount (players storeWithTwoPlayers) /\
  JsMap.has (JStr "p24")
    (players (SYNC_PLAYERS (fst (setPlayersRepeatedly 3 storeWithTwoPlayers twentyFive))
                (map Player.account twentyFive))) = true /\
  JsMap.has (JStr "p25")
    (players (SYNC_PLAYERS (fst (setPlayersRepeatedly 3 storeWithTwoPlayers twentyFive))
                (map Player.account twentyFive))) = false.
Proof.
  assert (wellFormed (players storeWithTwoPlayers)) as Hwf by reflexivity.
  assert (keyedByAccount (players storeWithTwoPlayers)) as Hkeyed.
  { intros k p [H|[H|[]]]; injection H as <- <-; reflexivity. }
  assert (List.length twentyFive <= 10 * 3)%nat as Hle.
  { vm_compute. repeat constructor. }
  split; [exact Hwf|]. split; [exact Hkeyed|].
  destruct (players_follow_the_snapshot 3 storeWithTwoPlayers twentyFive Hwf Hkeyed Hle)
    as (Hkeys & _).
  rewrite !Hkeys. split; vm_compute; reflexivity.
Defined.

(** The sample response switches the layer control off and gets it on. *)
Lemma buildServerConfig_layer_control_stays_on_witness :
  exists config,
    buildServerConfig sampleConfiguration = Return config /\
    truthy (prop sampleConfiguration "showlayercontrol") = false /\
    prop config "showLayerControl" = JBool true.
Proof.
  eexists. split; [reflexivity|]. split; [reflexivity|].
  destruct (buildServerConfig_layer_control_stays_on sampleConfiguration _ eq_refl)
    as (_ & _ & Hon & _).
  apply Hon. reflexivity.
Defined.

(** The two logos of the sample response, in its order. *)
Lemma buildComponents_logos_in_order_witness :
  buildComponents sampleConfiguration = Return sampleComponents /\
  exists items,
    responseComponents sampleConfiguration = Some items /\
    Forall2 (fun component logo => logoControl component = Return logo)
      (filter isLogo items) (Components.logoControls sampleComponents).
Proof.
  assert (buildComponents sampleConfiguration = Return sampleComponents) as Hrun.
  { vm_compute. reflexivity. }
  split; [exact Hrun|].
  apply (buildComponents_logos_in_order sampleConfiguration sampleComponents Hrun).
Defined.

(** The sample response allows web chat and lists a chat component. *)
Lemma chat_sending_needs_webchat_and_component_witness :
  buildComponents sampleConfiguration = Return sampleComponents /\
  Components.chatSending sampleComponents = Some (chatSendingOf sampleConfiguration).
Proof.
  assert (buildComponents sampleConfiguration = Return sampleComponents) as Hrun.
  { vm_compute. reflexivity. }
  split; [exact Hrun|].
  destruct (chat_sending_needs_webchat_and_component sampleConfiguration sampleComponents
              Hrun) as (items & Hitems & Hsending).
  injection Hitems as <-. rewrite Hsending. reflexivity.
Defined.

(** The one world of the sample response. *)
Lemma buildWorlds_one_world_per_entry_witness :
  buildWorlds sampleConfiguration = Return sampleWorlds /\
  List.length sampleWorlds = 1%nat.
Proof.
  assert (buildWorlds sampleConfiguration = Return sampleWorlds) as Hrun.
  { vm_compute. reflexivity. }
  split; [exact Hrun|].
  destruct (buildWorlds_one_world_per_entry sampleConfiguration sampleWorlds Hrun)
    as (items & Hitems & Hlength & _).
  injection Hitems as <-. exact Hlength.
Defined.

(** The three sets of the sample marker response. *)
Lemma getMarkerSets_one_set_per_key_witness :
  getMarkerSets sampleMarkers = Return sampleMarkerSets /\
  JsMap.has (JStr "towns") sampleMarkerSets = true /\
  wellFormed sampleMarkerSets.
Proof.
  assert (getMarkerSets sampleMarkers = Return sampleMarkerSets) as Hrun.
  { vm_compute. reflexivity. }
  split; [exact Hrun|].
  destruct (getMarkerSets_one_set_per_key sampleMarkers _ sampleMarkerSets Hrun eq_refl)
    as (Hwf & Hkeys & _).
  split; [|exact Hwf]. apply Hkeys. left. reflexivity.
Defined.

(** A zoom bound that the comparison cannot convert makes [getMarkerSets]
    throw. *)
Example getMarkerSets_unconvertible_zoom :
  assignable unreadableMarkers = true /\
  getMarkerSets unreadableMarkers = Throw TypeError /\
  getMarkerSets sampleMarkers = Return sampleMarkerSets.
Proof. repeat split; vm_compute; reflexivity. Qed.

(** The three ways in which [getConfiguration] ends on a response that
    names an error. *)
Example getConfiguration_error_cases :
  getConfiguration (JObj [("error", JStr "login-required")])
  = Rejected "Login required" /\
  getConfiguration (JObj [("error", JStr "boom")]) = Rejected "boom" /\
  getConfiguration (JObj [("error", JObj [("toString", JNum 1)])])
  = Crashed TypeError.
Proof. repeat split; vm_compute; reflexivity. Qed.

(** On the small screen that shows the chat, toggling the player list leaves
    the player list as the one visible element. *)
Lemma small_screen_shows_one_element_witness :
  truthy (Ui.smallScreen smallScreenWithChat) = true /\
  fitsSmallScreen smallScreenWithChat /\
  NoDup (Ui.visibleElements smallScreenWithChat) /\
  fitsSmallScreen (TOGGLE_UI_ELEMENT_VISIBILITY smallScreenWithChat (JStr "players")) /\
  Ui.visibleElements (TOGGLE_UI_ELEMENT_VISIBILITY smallScreenWithChat (JStr "players"))
  = [JStr "players"].
Proof.
  assert (fitsSmallScreen smallScreenWithChat) as Hfits.
  { intros _. simpl. lia. }
  assert (NoDup (Ui.visibleElements smallScreenWithChat)) as Hdistinct.
  { repeat constructor. simpl. tauto. }
  split; [reflexivity|]. split; [exact Hfits|]. split; [exact Hdistinct|].
  destruct (small_screen_shows_one_element smallScreenWithChat Hfits Hdistinct)
    as (_ & _ & Htoggle & _).
  split; [apply Htoggle|reflexivity].
Defined.

(** The other mutations on sample screens: showing the player list on the
    small screen hides the chat, and a wide screen that shows two elements
    shows none once it becomes small. *)
Example small_screen_cases :
  Ui.visibleElements
    (SET_UI_ELEMENT_VISIBILITY smallScreenWithChat (JStr "players") (JBool true))
  = [JStr "players"] /\
  Ui.visibleElements
    (SET_UI_ELEMENT_VISIBILITY smallScreenWithChat (JStr "chat") (JBool false))
  = [] /\
  fitsSmallScreen wideScreenWithTwo /\
  SET_SMALL_SCREEN wideScreenWithTwo (JBool true) = Ui.make (JBool true) [].
Proof.
  split; [reflexivity|]. split; [reflexivity|]. split; [discriminate|reflexivity].
Qed.

(** The player of the sample response has a world and is not hidden. *)
Lemma reported_player_hidden_without_world_witness :
  responsePlayers (reportedPlayers sampleResponse) = Return samplePlayers /\
  Forall2 reportedAs (reportedPlayers sampleResponse) samplePlayers.
Proof.
  assert (responsePlayers (reportedPlayers sampleResponse) = Return samplePlayers)
    as Hrun.
  { vm_compute. reflexivity. }
  split; [exact Hrun|].
  apply (reported_player_hidden_without_world _ _ Hrun).
Defined.

(** After the two sample worlds, whose names and map keys are distinct, are
    set, making the map [surface] of [world] current makes that world and
    that map current and empties the marker sets. *)
Lemma SET_WORLDS_then_SET_CURRENT_MAP_witness :
  In (WorldObject.make 1%nat (JStr "world")
        [(10%nat, JStr "flat"); (11%nat, JStr "surface")])
    sampleWorldObjects /\
  NoDup (map fst (filedWorlds sampleWorldObjects)) /\
  NoDup (map fst (filedMaps sampleWorldObjects)) /\
  thrown (SET_CURRENT_MAP (SET_WORLDS storeWithPending sampleWorldObjects)
            (JStr "world") (JStr "surface")) = None /\
  currentWorld (after (SET_CURRENT_MAP (SET_WORLDS storeWithPending sampleWorldObjects)
                         (JStr "world") (JStr "surface"))) = Some 1%nat /\
  currentMap (after (SET_CURRENT_MAP (SET_WORLDS storeWithPending sampleWorldObjects)
                       (JStr "world") (JStr "surface"))) = Some 11%nat /\
  markerSets (after (SET_CURRENT_MAP (SET_WORLDS storeWithPending sampleWorldObjects)
                       (JStr "world") (JStr "surface"))) = [].
Proof.
  assert (In (WorldObject.make 1%nat (JStr "world")
                [(10%nat, JStr "flat"); (11%nat, JStr "surface")])
            sampleWorldObjects) as Hw.
  { left. reflexivity. }
  assert (NoDup (map fst (filedWorlds sampleWorldObjects))) as Hworlds.
  { repeat constructor; simpl; intuition discriminate. }
  assert (NoDup (map fst (filedMaps sampleWorldObjects))) as Hmaps.
  { repeat constructor; simpl; intuition discriminate. }
  split; [exact Hw|]. split; [exact Hworlds|]. split; [exact Hmaps|].
  destruct (SET_WORLDS_then_SET_CURRENT_MAP storeWithPending sampleWorldObjects)
    as (_ & _ & _ & Hcurrent).
  destruct (Hcurrent _ (11%nat, JStr "surface") Hw) as
    (Hthrown & _ & _ & _ & _ & Hworld & Hmap & Hsets & _).
  { right. left. reflexivity. }
  split; [exact Hthrown|]. split; [exact (Hworld Hworlds)|].
  split; [exact (Hmap Hmaps)|exact Hsets].
Defined.

(** A world added to the store before the first fetch has no map. *)
Lemma ADD_WORLD_registers_no_map_witness :
  JsMap.has (mapKey (JStr "world_nether") (JStr "flat")) (maps (freshState (AsNumber 0)))
  = false /\
  thrown (SET_CURRENT_MAP
            (ADD_WORLD (freshState (AsNumber 0))
               (WorldObject.make 2%nat (JStr "world_nether") [(12%nat, JStr "flat")]))
            (JStr "world_nether") (JStr "flat"))
  = Some (RangeError "Unknown map world_nether_flat").
Proof.
  assert (JsMap.has (mapKey (JStr "world_nether") (JStr "flat"))
            (maps (freshState (AsNumber 0))) = false) as Hno by reflexivity.
  split; [exact Hno|].
  destruct (ADD_WORLD_registers_no_map (freshState (AsNumber 0))
              (WorldObject.make 2%nat (JStr "world_nether") [(12%nat, JStr "flat")])
              (JStr "flat") Hno) as (_ & Hthrown & _).
  exact Hthrown.
Defined.
